(** * gen-scripts2: histogram filling of lhePlot.py and vplusjetPDFsyst.py

  A shallow embedding of the two analysis scripts.  Python floats are read
  as rationals ([Q]); the vector, histogram, pickle and argparse libraries
  are outside the repository and appear as interfaces (type classes or
  section variables) with the operations the scripts call. *)

From Stdlib Require Import ZArith QArith Qabs List String Ascii Lia Bool.
From stdpp Require Import base gmap strings list pretty.

Local Open Scope string_scope.

(** ** Python exceptions and the state-and-exception monad *)

Module Py.

Inductive exn :=
| AttributeError (obj attr : string)
| IndexError (what : string)
| KeyError (key : string)
| ValueError (what : string)
| LibraryError (what : string).

Inductive result (A : Type) :=
| Ok (a : A)
| Raise (e : exn).
Arguments Ok {A} a.
Arguments Raise {A} e.

(** A statement runs on a store; when it raises, the mutations done so far
    stay in the store, as they do on a Python object. *)
Definition M (St A : Type) : Type := St -> St * result A.

Definition ret {St A} (a : A) : M St A := fun st => (st, Ok a).

Definition raise {St A} (e : exn) : M St A := fun st => (st, Raise e).

Definition bind {St A B} (m : M St A) (k : A -> M St B) : M St B :=
  fun st =>
    match m st with
    | (st', Ok a) => k a st'
    | (st', Raise e) => (st', Raise e)
    end.

Definition lift {St A} (r : result A) : M St A := fun st => (st, r).

(** [for x in l: body x] *)
Fixpoint for_each {St A} (l : list A) (body : A -> M St unit) : M St unit :=
  match l with
  | [] => ret tt
  | x :: l' => bind (body x) (fun _ => for_each l' body)
  end.

(** [l[i]] on a Python list *)
Definition subscript {A} (l : list A) (i : nat) : result A :=
  match nth_error l i with
  | Some a => Ok a
  | None => Raise (IndexError "list index out of range")
  end.

(** the result-only monad, for code that threads no store *)
Definition rbind {A B} (r : result A) (k : A -> result B) : result B :=
  match r with
  | Ok a => k a
  | Raise e => Raise e
  end.

Fixpoint mapM {A B} (f : A -> result B) (l : list A) : result (list B) :=
  match l with
  | [] => Ok []
  | x :: l' =>
      rbind (f x) (fun y => rbind (mapM f l') (fun ys => Ok (y :: ys)))
  end.

(** A statement started in a store satisfying [P] ends, normally or by an
    exception, with a result and a store satisfying [Q]. *)
Definition hoare {St A} (P : St -> Prop) (m : M St A)
    (Q : result A -> St -> Prop) : Prop :=
  forall st, P st -> Q (snd (m st)) (fst (m st)).

End Py.

Import Py.

Declare Scope py_scope.
Delimit Scope py_scope with py.
Notation "'let*' x ':=' c 'in' k" := (bind c (fun x => k))
(at level 10, x name, c at level 100, k at level 200) : py_scope.
Notation "c ';;' k" := (bind c (fun _ => k))
(at level 100, k at level 200, right associativity) : py_scope.
Notation "'let?' x ':=' c 'in' k" := (rbind c (fun x => k))
(at level 10, x name, c at level 100, k at level 200) : py_scope.

(** ** Numbers *)

Module Num.
Local Open Scope Q_scope.

Definition Qltb (a b : Q) : bool := negb (Qle_bool b a).
Definition Qgtb (a b : Q) : bool := Qltb b a.
Definition Qleb (a b : Q) : bool := Qle_bool a b.
Definition Qgeb (a b : Q) : bool := Qle_bool b a.
Definition Qnat (n : nat) : Q := inject_Z (Z.of_nat n).

(** [np.linspace(lo, hi, n)]: [n] evenly spaced points from [lo] to [hi] *)
Definition linspace (lo hi : Q) (n : nat) : list Q :=
  map (fun i => lo + Qnat i * ((hi - lo) / Qnat (n - 1))) (seq 0 n).

Definition Qsum (l : list Q) : Q := fold_left Qplus l 0.
End Num.

Import Num.

(** ** Weighted histograms of the hist library

  A histogram keeps its bin edges and the fills it received, in order;
  the content of a bin is computed from the fills. *)

Module Histo.
Local Open Scope Q_scope.

Record Hist := mkHist {
  h_name : string;
  h_edges : list Q;
  h_entries : list (Q * Q)
}.

(** [Hist.new.Var(binning, name=observable, label=observable).Weight()] *)
Definition new_var (binning : list Q) (name : string) : Hist :=
  mkHist name binning [].

(** [h.fill(x, weight=w)] *)
Definition hist_fill (h : Hist) (x w : Q) : Hist :=
  mkHist (h_name h) (h_edges h) (h_entries h ++ [(x, w)]).

Definition in_bin (lo hi : Q) (e : Q * Q) : bool :=
  Qleb lo (fst e) && Qltb (fst e) hi.

(** number of fills and sum of weights of bin [i] (edges [i] and [i+1]) *)
Definition bin_count (h : Hist) (i : nat) : nat :=
  match nth_error (h_edges h) i, nth_error (h_edges h) (S i) with
  | Some lo, Some hi => length (List.filter (in_bin lo hi) (h_entries h))
  | _, _ => 0%nat
  end.

Definition bin_sumw (h : Hist) (i : nat) : Q :=
  match nth_error (h_edges h) i, nth_error (h_edges h) (S i) with
  | Some lo, Some hi => Qsum (map snd (List.filter (in_bin lo hi) (h_entries h)))
  | _, _ => 0
  end.
End Histo.

Import Histo.

(** ** lhePlot.py *)

Module LhePlot.
Local Open Scope Q_scope.

(** The four-vector class of the LHE reader ([Particle.p4()] and the
    operations [analyze] calls on its result).  An object of that class is
    true in a condition, so [if v_p4:] tests for [None] only. *)
Class VectorLib := {
  P4 : Type;
  p4_pt : P4 -> Q;
  p4_mass : P4 -> Q;
  p4_eta : P4 -> Q;
  p4_add : P4 -> P4 -> P4;
  p4_deltar : P4 -> P4 -> Q
}.

(** the [histograms] dictionary *)
Abbreviation Store := (gmap string Hist).

Section Analyze.
Context {V : VectorLib}.

Record Particle := mkParticle {
  pdgid : Z;
  status : Z;
  p4 : P4
}.

Record Event := mkEvent {
  particles : list Particle;
  weights : list Q
}.

(** What iterating over the reader gives: the events of the file, or an
    exception of the reader at the point where the file cannot be read. *)
Inductive ReadItem :=
| Yield (event : Event)
| ReadFail (e : exn).

(** the [bins] dictionary of [setup_histograms], in source order *)
Definition bins : list (string * list Q) :=
  [ ("wei",      linspace (-50) 50 100);
    ("nlep",     linspace 0 6 6);
    ("lep_eta",  linspace (-5) 5 50);
    ("lep_pt",   linspace 0 500 50);
    ("dilep_m",  linspace 50 120 50);
    ("dilep_pt", linspace 0 600 100);
    ("z_mass",   linspace 50 120 50);
    ("z_pt",     linspace 0 600 100);
    ("njet",     linspace 0 6 6);
    ("njet15",   linspace 0 6 6);
    ("jet_eta",  linspace (-5) 5 50);
    ("jet_pt",   linspace 0 500 50);
    ("jets_ht",  linspace 0 500 50);
    ("dijet_m",  linspace 0 1200 50);
    ("dijet_pt", linspace 0 600 100);
    ("dijet_dr", linspace 0 5 50) ].

Definition setup_histograms : Store :=
  fold_left
    (fun histograms ob => <[fst ob := new_var (snd ob) (fst ob)]> histograms)
    bins ∅.

(** [histograms[k].fill(x, weight=w)] *)
Definition fill (k : string) (x w : Q) : M Store unit :=
  fun histograms =>
    match histograms !! k with
    | Some h => (<[k := hist_fill h x w]> histograms, Ok tt)
    | None => (histograms, Raise (KeyError k))
    end.

Definition abs_pdgid_in (ids : list Z) (x : Particle) : bool :=
  existsb (Z.eqb (Z.abs (pdgid x))) ids.

Definition is_lepton (x : Particle) : bool := abs_pdgid_in [11; 13; 15]%Z x.
Definition is_Z (x : Particle) : bool := (pdgid x =? 23)%Z.
Definition is_jet (x : Particle) : bool :=
  abs_pdgid_in [1; 2; 3; 4; 5; 21]%Z x && (status x =? 1)%Z.
Definition is_jet15 (x : Particle) : bool :=
  abs_pdgid_in [1; 2; 3; 4; 5; 21]%Z x && (status x =? 1)%Z
  && Qgtb (p4_pt (p4 x)) 15.

(** the loop of lines 114-120: leptons below 1 in pt are skipped, the first
    one kept starts the sum and the later ones are added to it *)
Definition sum_leptons (leptons : list Particle) : option P4 :=
  fold_left
    (fun v_p4 l =>
       if Qltb (p4_pt (p4 l)) 1 then v_p4
       else match v_p4 with
            | Some v => Some (p4_add v (p4 l))
            | None => Some (p4 l)
            end)
    leptons None.

(** reading an attribute of a variable that holds a vector or [None] *)
Definition deref (v : option P4) (attr : string) : M Store P4 :=
  match v with
  | Some v => ret v
  | None => raise (AttributeError "NoneType" attr)
  end.

(** the loop of lines 152-159, which fills per jet and accumulates [j_p4] *)
Fixpoint jets_loop (wei : Q) (jets : list Particle) (j_p4 : option P4)
  : M Store (option P4) :=
  match jets with
  | [] => ret j_p4
  | j :: jets' =>
      (fill "jet_eta" (p4_eta (p4 j)) wei ;;
       fill "jet_pt" (p4_pt (p4 j)) wei ;;
       jets_loop wei jets'
         (match j_p4 with
          | Some v => Some (p4_add v (p4 j))
          | None => Some (p4 j)
          end))%py
  end.

(** lines 164-173 *)
Definition dijet_fills (wei : Q) (jets15 : list Particle) : M Store unit :=
  match jets15 with
  | j1p :: j2p :: _ =>
      let j1 := p4 j1p in
      let j2 := p4 j2p in
      let dijet_dr := p4_deltar j1 j2 in
      let dijet_pt := p4_pt (p4_add j1 j2) in
      let dijet_mass := p4_mass (p4_add j1 j2) in
      (fill "dijet_dr" dijet_dr wei ;;
       fill "dijet_m" dijet_mass wei ;;
       fill "dijet_pt" dijet_pt wei)%py
  | _ => ret tt
  end.

(** lines 129-173, reached when the event passed the cuts *)
Definition selected_body (event : Event) (leptons Zs jets jets15 : list Particle)
    (vpt vmass : Q) : M Store unit :=
  (let* wei := lift (subscript (weights event) 0) in
   fill "wei" wei 1 ;;
   fill "dilep_m" vmass wei ;;
   fill "dilep_pt" vpt wei ;;
   for_each leptons (fun l =>
     fill "lep_eta" (p4_eta (p4 l)) wei ;;
     fill "lep_pt" (p4_pt (p4 l)) wei) ;;
   for_each Zs (fun Z =>
     let zpt := p4_pt (p4 Z) in
     let zmass := p4_mass (p4 Z) in
     fill "z_mass" zmass wei ;;
     fill "z_pt" zpt wei) ;;
   let* j_p4 := jets_loop wei jets None in
   let* j := deref j_p4 "pt" in
   fill "jets_ht" (p4_pt j) wei ;;
   dijet_fills wei jets15)%py.

(** the body of [for event in reader], lines 97-173; [continue] ends it *)
Definition event_body (event : Event) : M Store unit :=
  let leptons := List.filter is_lepton (particles event) in
  let Zs := List.filter is_Z (particles event) in
  let jets := List.filter is_jet (particles event) in
  let jets15 := List.filter is_jet15 (particles event) in
  let nlep := length leptons in
  let njet := length jets in
  let njet15 := length jets15 in
  (fill "nlep" (Qnat nlep) 1 ;;
   fill "njet" (Qnat njet) 1 ;;
   fill "njet15" (Qnat njet15) 1 ;;
   if negb (nlep =? 2)%nat then ret tt
   else
     let v_p4 := sum_leptons leptons in
     let* v := deref v_p4 "pt" in
     let vpt := p4_pt v in
     let vmass := p4_mass v in
     if Qltb vpt 250 || Qgtb vpt 400 then ret tt
     else if Qltb vmass 50 || Qgtb vmass 130 then ret tt
     else selected_body event leptons Zs jets jets15 vpt vmass)%py.

Fixpoint event_loop (reader : list ReadItem) : M Store unit :=
  match reader with
  | [] => ret tt
  | ReadFail e :: _ => raise e
  | Yield event :: reader' => (event_body event ;; event_loop reader')%py
  end.

(** [analyze(lhe_file)], on what the reader yields for the file *)
Definition analyze (reader : list ReadItem) : result Store :=
  match event_loop reader setup_histograms with
  | (histograms, Ok _) => Ok histograms
  | (_, Raise e) => Raise e
  end.

(** *** What the statements about [analyze] speak of *)

Definition entries_of (histograms : Store) (k : string) : list (Q * Q) :=
  match histograms !! k with
  | Some h => h_entries h
  | None => []
  end.

Definition hist_names : gset string := list_to_set (map fst bins).

(** the store has keys [D] and the histogram under [k] has received [a] *)
Definition Keeps (D : gset string) (k : string) (a : list (Q * Q))
    (histograms : Store) : Prop :=
  dom histograms = D /\ entries_of histograms k = a.

Definition leptons_of (event : Event) : list Particle :=
  List.filter is_lepton (particles event).

Definition jets_of (event : Event) : list Particle :=
  List.filter is_jet (particles event).

(** the sum of a list of four-vectors, from the left; none for no vector *)
Definition p4_sum (l : list P4) : option P4 :=
  match l with
  | [] => None
  | v :: l' => Some (fold_left p4_add l' v)
  end.

(** the four-momentum sum over the leptons with pt >= 1 *)
Definition dilepton_p4 (event : Event) : option P4 :=
  p4_sum (map p4 (List.filter (fun l => Qgeb (p4_pt (p4 l)) 1) (leptons_of event))).

Definition in_window (v : P4) : Prop :=
  250 <= p4_pt v <= 400 /\ 50 <= p4_mass v <= 130.

Definition in_windowb (v : P4) : bool :=
  negb (Qltb (p4_pt v) 250 || Qgtb (p4_pt v) 400)
  && negb (Qltb (p4_mass v) 50 || Qgtb (p4_mass v) 130).

(** exactly two charged leptons, and their sum in the pt and mass window *)
Definition passes_dilepton_selection (event : Event) : Prop :=
  length (leptons_of event) = 2%nat /\
  exists v, dilepton_p4 event = Some v /\ in_window v.

(** the dilepton histograms received a fill from this event *)
Definition dilepton_filled (histograms : Store) (event : Event) : Prop :=
  let histograms' := fst (event_body event histograms) in
  entries_of histograms' "dilep_m" <> entries_of histograms "dilep_m" /\
  entries_of histograms' "dilep_pt" <> entries_of histograms "dilep_pt".

(** what the event puts in the dilepton histogram [k] *)
Definition dilep_obs (k : string) (v : P4) : Q :=
  if String.eqb k "dilep_m" then p4_mass v else p4_pt v.

(** how the body ends on an event, by the cuts the event passes *)
Definition event_result (event : Event) : result unit :=
  if negb (length (leptons_of event) =? 2)%nat then Ok tt
  else
    match dilepton_p4 event with
    | None => Raise (AttributeError "NoneType" "pt")
    | Some v =>
        if in_windowb v then
          match weights event with
          | [] => Raise (IndexError "list index out of range")
          | _ :: _ =>
              match jets_of event with
              | [] => Raise (AttributeError "NoneType" "pt")
              | _ :: _ => Ok tt
              end
          end
        else Ok tt
    end.

(** how the loop ends: with the first exception of the reader or of a body *)
Fixpoint reader_result (reader : list ReadItem) : result unit :=
  match reader with
  | [] => Ok tt
  | ReadFail e :: _ => Raise e
  | Yield event :: reader' =>
      match event_result event with
      | Ok _ => reader_result reader'
      | Raise e => Raise e
      end
  end.

(** the events on which the body runs to its end *)
Definition event_completes (event : Event) : bool :=
  negb (length (leptons_of event) =? 2)%nat
  || match dilepton_p4 event with
     | None => false
     | Some v =>
         negb (in_windowb v)
         || (negb (length (weights event) =? 0)%nat
             && negb (length (jets_of event) =? 0)%nat)
     end.

Definition item_completes (item : ReadItem) : bool :=
  match item with
  | Yield event => event_completes event
  | ReadFail _ => false
  end.

End Analyze.
End LhePlot.

(** ** vplusjetPDFsyst.py *)

Module VPlusJet.
Local Open Scope Q_scope.

(** An object of a NanoAOD collection carries pt, eta, phi and mass. *)
Record Kin := mkKin {
  k_pt : Q;
  k_eta : Q;
  k_phi : Q;
  k_mass : Q
}.

(** The vector behaviour of the array library: the sum of two objects, the
    pt and mass of a sum, and the angular distance of two objects. *)
Class NanoVectors := {
  LV : Type;
  lv_add : Kin -> Kin -> LV;
  lv_pt : LV -> Q;
  lv_mass : LV -> Q;
  delta_r : Kin -> Kin -> Q
}.

Record Muon := mkMuon {
  mu_kin : Kin;
  mu_charge : Z;
  mu_pfRelIso04_all : Q;
  mu_looseId : bool;
  mu_dxy : Q;
  mu_dz : Q
}.

Record Electron := mkElectron {
  el_kin : Kin;
  el_dxy : Q;
  el_dz : Q;
  el_lostHits : Z;
  el_miniPFRelIso_all : Q;
  el_mvaFall17V2noIso : Q
}.

Record Jet := mkJet {
  jet_kin : Kin;
  jet_isTight : bool
}.

(** one row of the chunk *)
Record Event := mkEvent {
  ev_LHE_Vpt : Q;
  ev_genWeight : Q;
  ev_LHEPdfWeight : list Q;
  ev_Muon : list Muon;
  ev_Electron : list Electron;
  ev_Jet : list Jet;
  ev_MET_pt : Q
}.

(** A chunk of events: its metadata, the branches its file lacks, its rows. *)
Record Chunk := mkChunk {
  metadata : gmap string string;
  absent : list string;
  rows : list Event
}.

(** *** Histograms of coffea.hist *)

(** a filled value: a number, or not-a-number *)
Inductive fval :=
| Val (x : Q)
| NaN.

Record CEntry := mkCEntry {
  ce_dataset : string;
  ce_PDFwei : option string;
  ce_value : fval;
  ce_weight : Q
}.

(** [hist.Bin(name, label, n, lo, hi)] *)
Record BinAxis := mkBin {
  ax_name : string;
  ax_n : nat;
  ax_lo : Q;
  ax_hi : Q
}.

(** [hist.Hist("Counts", dataset[, PDFwei], axis)] and the fills received *)
Record CHist := mkCHist {
  ch_has_PDFwei : bool;
  ch_axis : BinAxis;
  ch_entries : list CEntry
}.

(** the accumulator: histograms, cutflow counters, sums of weights *)
Record Output := mkOutput {
  hists : gmap string CHist;
  cutflow : gmap string (gmap string Z);
  sumw : gmap string Q
}.

Record Processor := mkProcessor {
  _accumulator : Output
}.

(** the [axis] dictionary of [__init__], without the two category axes *)
Definition axis : list (string * BinAxis) :=
  [ ("LHE_Vpt",  mkBin "LHE_Vpt" 100 0 600);
    ("wei",      mkBin "wei" 50 (-10) 10);
    ("nlep",     mkBin "nlep" 12 0 6);
    ("dilep_m",  mkBin "dilep_m" 50 50 120);
    ("dilep_pt", mkBin "dilep_pt" 100 0 600);
    ("njet15",   mkBin "njet15" 12 0 6);
    ("dijet_dr", mkBin "dijet_dr" 50 0 5);
    ("dijet_m",  mkBin "dijet_m" 50 0 1200);
    ("dijet_pt", mkBin "dijet_pt" 100 0 600) ].

(** [Processor.__init__]: every observable but 'dilep_pt' gets a histogram
    over the dataset; 'dilep_pt' gets one over dataset and PDFwei *)
Definition init : Processor :=
  mkProcessor
    (mkOutput
       (fold_left
          (fun acc ob =>
             <[fst ob := mkCHist (String.eqb (fst ob) "dilep_pt") (snd ob) []]> acc)
          axis ∅)
       ∅ ∅).

(** [accumulator.identity()]: the same histograms, emptied; no counter *)
Definition identity (acc : Output) : Output :=
  mkOutput
    ((fun h => mkCHist (ch_has_PDFwei h) (ch_axis h) []) <$> hists acc)
    ∅ ∅.

(** [output[name].fill(dataset=, [PDFwei=,] name=values, [weight=weights])] *)
Definition hfill (name dataset : string) (PDFwei : option string)
    (values : list fval) (weights : option (list Q)) : M Output unit :=
  fun output =>
    match hists output !! name with
    | None => (output, Raise (KeyError name))
    | Some h =>
        let ws := match weights with
                  | Some ws => ws
                  | None => map (fun _ => 1) values
                  end in
        if negb (length ws =? length values)%nat then
          (output, Raise (ValueError "weight and value arrays differ in length"))
        else
          let new := map (fun vw => mkCEntry dataset PDFwei (fst vw) (snd vw))
                         (combine values ws) in
          (mkOutput
             (<[name := mkCHist (ch_has_PDFwei h) (ch_axis h)
                          (ch_entries h ++ new)]> (hists output))
             (cutflow output) (sumw output),
           Ok tt)
    end.

(** [output['cutflow'][dataset][key] += n], on default dictionaries *)
Definition cutflow_add (dataset key : string) (n : Z) : M Output unit :=
  fun output =>
    let inner := default ∅ (cutflow output !! dataset) in
    let old := default 0%Z (inner !! key) in
    (mkOutput (hists output)
       (<[dataset := <[key := (old + n)%Z]> inner]> (cutflow output))
       (sumw output),
     Ok tt).

(** [output["sumw"][dataset] += x] *)
Definition sumw_add (dataset : string) (x : Q) : M Output unit :=
  fun output =>
    let old := default 0 (sumw output !! dataset) in
    (mkOutput (hists output) (cutflow output)
       (<[dataset := old + x]> (sumw output)),
     Ok tt).

(** reading a branch of the chunk *)
Definition require (events : Chunk) (branch : string) : M Output unit :=
  if existsb (String.eqb branch) (absent events)
  then raise (AttributeError "NanoEvents" branch)
  else ret tt.

(** [d[key]] on a dictionary *)
Definition getitem {A} (d : gmap string A) (key : string) : result A :=
  match d !! key with
  | Some a => Ok a
  | None => Raise (KeyError key)
  end.

(** *** Array operations, on the rows of one event *)

(** [array[mask]] *)
Definition mask_select {A} (l : list A) (mask : list bool) : list A :=
  map fst (List.filter snd (combine l mask)).

(** [ak.combinations(l, 2)]: the pairs of positions i < j, in order *)
Fixpoint combinations2 {A} (l : list A) : list (A * A) :=
  match l with
  | [] => []
  | x :: l' => map (pair x) l' ++ combinations2 l'
  end.

(** [a * b] and the like on two arrays of one length *)
Fixpoint zip_with {A B C} (f : A -> B -> C) (l1 : list A) (l2 : list B) : list C :=
  match l1, l2 with
  | x :: l1', y :: l2' => f x y :: zip_with f l1' l2'
  | _, _ => []
  end.

(** positions [i < j] of [l] hold a pair that passes the test [P] *)
Definition passes_at {A} (P : A * A -> bool) (l : list A) (i j : nat) : Prop :=
  (i < j)%nat /\
  exists x y, l !! i = Some x /\ l !! j = Some y /\ P (x, y) = true.

Section Process.
Context {NV : NanoVectors}.

(** [obj_A.nearest(obj_B, return_metric=True)] for one object of [obj_A]:
    the first object of [obj_B] at the least distance, with the distance *)
Definition nearest (a : Kin) (obj_B : list Kin) : option (Kin * Q) :=
  fold_left
    (fun best b =>
       let d := delta_r a b in
       match best with
       | None => Some (b, d)
       | Some (_, d0) => if Qltb d d0 then Some (b, d) else best
       end)
    obj_B None.

(** [isClean(obj_A, obj_B, drmin)], on the objects of one event: the
    comparison [objB_DR > drmin] is missing where there is no nearest
    object, and [ak.fill_none] puts [True] there *)
Definition isClean (obj_A obj_B : list Kin) (drmin : Q) : list bool :=
  map (fun a =>
         let objB_DR := option_map snd (nearest a obj_B) in
         let cmp := option_map (fun d => Qgtb d drmin) objB_DR in
         match cmp with
         | Some b => b
         | None => true
         end)
      obj_A.

Definition goodmuon (m : Muon) : bool :=
  Qgtb (k_pt (mu_kin m)) 15
  && Qltb (Qabs (k_eta (mu_kin m))) 2.4
  && Qltb (mu_pfRelIso04_all m) 0.25
  && mu_looseId m
  && Qltb (Qabs (mu_dxy m)) 0.05
  && Qltb (Qabs (mu_dz m)) 0.1.

(** [ak.firsts(muons[goodmuon]).pt > 20]: missing without a good muon *)
Definition lead_muon_pt (e : Event) : option bool :=
  option_map (fun m => Qgtb (k_pt (mu_kin m)) 20)
             (head (List.filter goodmuon (ev_Muon e))).

Definition good_muons (e : Event) : list Muon :=
  List.filter goodmuon (ev_Muon e).

Definition dimuon_p4 (d : Muon * Muon) : LV :=
  lv_add (mu_kin (fst d)) (mu_kin (snd d)).

Definition opposites (d : Muon * Muon) : bool :=
  negb (mu_charge (fst d) =? mu_charge (snd d))%Z.

Definition limits (d : Muon * Muon) : bool :=
  Qgeb (lv_mass (dimuon_p4 d)) 60 && Qltb (lv_mass (dimuon_p4 d)) 120.

Definition good_dimuons (e : Event) : list (Muon * Muon) :=
  List.filter (fun d => opposites d && limits d) (combinations2 (good_muons e)).

Definition goodelectron (el : Electron) : bool :=
  let abs_eta := Qabs (k_eta (el_kin el)) in
  Qgtb (k_pt (el_kin el)) 15
  && Qltb abs_eta 2.5
  && Qltb (Qabs (el_dxy el)) 0.05
  && Qltb (Qabs (el_dz el)) 0.1
  && (el_lostHits el <? 2)%Z
  && Qltb (el_miniPFRelIso_all el) 0.4
  && ((Qgtb (el_mvaFall17V2noIso el) 0 && Qltb abs_eta 1.479)
      || (Qgtb (el_mvaFall17V2noIso el) 0.7 && Qgtb abs_eta 1.479
          && Qltb abs_eta 2.5)).

Definition good_electrons (e : Event) : list Electron :=
  List.filter goodelectron (ev_Electron e).

Definition vpt (e : Event) : list Q := map (fun d => lv_pt (dimuon_p4 d)) (good_dimuons e).
Definition vmass (e : Event) : list Q := map (fun d => lv_mass (dimuon_p4 d)) (good_dimuons e).

Definition two_lep (e : Event) : bool := (length (good_dimuons e) =? 1)%nat.

(** the jets kept by lines 136-140 *)
Definition tight_jet (j : Jet) : bool :=
  Qgtb (k_pt (jet_kin j)) 30
  && Qltb (Qabs (k_eta (jet_kin j))) 2.5
  && jet_isTight j.

Definition jets (e : Event) : list Jet := List.filter tight_jet (ev_Jet e).

Definition j_isclean (e : Event) : list bool :=
  zip_with andb
    (isClean (map jet_kin (jets e)) (map el_kin (good_electrons e)) 0.4)
    (isClean (map jet_kin (jets e)) (map mu_kin (good_muons e)) 0.4).

Definition good_jets (e : Event) : list Jet := mask_select (jets e) (j_isclean e).

Definition two_jets (e : Event) : bool := (2 <=? length (good_jets e))%nat.

Definition full_selection (e : Event) : bool := two_lep e && two_jets e.

(** [weight_nosel/np.abs(weight_nosel)] *)
Definition sign_of (w : Q) : fval :=
  if Qeq_bool (Qabs w) 0 then NaN else Val (w / Qabs w).

(** the branches read before the selection, in the order of the reads *)
Definition muon_branches : list string :=
  ["Muon_pt"; "Muon_eta"; "Muon_pfRelIso04_all"; "Muon_looseId"; "Muon_dxy";
   "Muon_dz"; "Muon_charge"; "Muon_phi"; "Muon_mass"].

Definition electron_branches : list string :=
  ["Electron_eta"; "Electron_pt"; "Electron_dxy"; "Electron_dz";
   "Electron_lostHits"; "Electron_miniPFRelIso_all";
   "Electron_mvaFall17V2noIso"].

Definition jet_branches : list string :=
  ["Jet_pt"; "Jet_eta"; "Jet_isTight"; "Jet_phi"; "Electron_phi"].

(** the loop of lines 188-190 *)
Definition pdf_loop (dataset : string) (selected_events : list Event)
    (dilep_pt : list fval) (weight : list Q) : M Output unit :=
  for_each (seq 0 32) (fun p =>
    (let* pdf := lift (mapM (fun e => subscript (ev_LHEPdfWeight e) p)
                            selected_events) in
     let PdfWei := map (Qmult 2) pdf in
     hfill "dilep_pt" dataset (Some (pretty p)) dilep_pt
       (Some (zip_with Qmult weight PdfWei)))%py).

(** the statements of [process] after [output = self.accumulator.identity()] *)
Definition process_body (events : Chunk) : M Output unit :=
  (let* dataset := lift (getitem (metadata events) "dataset") in
   require events "LHEPdfWeight" ;;
   require events "LHE_Vpt" ;;
   let LHE_Vpt := map ev_LHE_Vpt (rows events) in
   cutflow_add dataset "all_events" (Z.of_nat (length LHE_Vpt)) ;;
   cutflow_add dataset "number_of_chunks" 1 ;;
   require events "genWeight" ;;
   let weight_nosel := map ev_genWeight (rows events) in
   sumw_add dataset (Qsum weight_nosel) ;;
   hfill "LHE_Vpt" dataset None (map Val LHE_Vpt) (Some weight_nosel) ;;
   hfill "wei" dataset None (map sign_of weight_nosel) None ;;
   for_each muon_branches (require events) ;;
   let nmuons := map (fun e => length (good_muons e)) (rows events) in
   for_each electron_branches (require events) ;;
   hfill "nlep" dataset None (map (fun n => Val (Qnat n)) nmuons) None ;;
   require events "MET_pt" ;;
   for_each jet_branches (require events) ;;
   hfill "njet15" dataset None
     (map (fun e => Val (Qnat (length (good_jets e)))) (rows events)) None ;;
   let mask := map full_selection (rows events) in
   let selected_events := mask_select (rows events) mask in
   cutflow_add dataset "selected_events" (Z.of_nat (length selected_events)) ;;
   let j_2l2j := mask_select (map good_jets (rows events)) mask in
   let* j0 := lift (mapM (fun js => subscript js 0) j_2l2j) in
   let* j1 := lift (mapM (fun js => subscript js 1) j_2l2j) in
   require events "Jet_mass" ;;
   let dijet := zip_with (fun a b => lv_add (jet_kin a) (jet_kin b)) j0 j1 in
   let dijet_pt := map (fun v => Val (lv_pt v)) dijet in
   let dijet_m := map (fun v => Val (lv_mass v)) dijet in
   let dijet_dr :=
     zip_with (fun a b => Val (delta_r (jet_kin a) (jet_kin b))) j0 j1 in
   let weight := map ev_genWeight selected_events in
   let dilep_m := map Val (concat (mask_select (map vmass (rows events)) mask)) in
   let dilep_pt := map Val (concat (mask_select (map vpt (rows events)) mask)) in
   hfill "dilep_m" dataset None dilep_m (Some weight) ;;
   hfill "dilep_pt" dataset (Some "Default") dilep_pt (Some weight) ;;
   hfill "dijet_m" dataset None dijet_m (Some weight) ;;
   hfill "dijet_pt" dataset None dijet_pt (Some weight) ;;
   hfill "dijet_dr" dataset None dijet_dr (Some weight) ;;
   pdf_loop dataset selected_events dilep_pt weight)%py.

(** [Processor.process(self, events)] *)
Definition process (self : Processor) (events : Chunk) : result Output :=
  let output := identity (_accumulator self) in
  match process_body events output with
  | (output', Ok _) => Ok output'
  | (_, Raise e) => Raise e
  end.

(** *** What the statements about [process] speak of *)

(** the entries of the histogram under [name] *)
Definition centries (output : Output) (name : string) : list CEntry :=
  match hists output !! name with
  | Some h => ch_entries h
  | None => []
  end.

(** the fills of 'dilep_pt' under the PDFwei category [cat], as pairs of
    value and weight *)
Definition under (cat : string) (en : CEntry) : bool :=
  match ce_PDFwei en with
  | Some c => String.eqb c cat
  | None => false
  end.

Definition dilep_pt_under (output : Output) (cat : string)
  : list (fval * Q) :=
  map (fun en => (ce_value en, ce_weight en))
      (List.filter (under cat) (centries output "dilep_pt")).

(** the rows of the chunk kept by [events[full_selection]] *)
Definition selected_events (events : Chunk) : list Event :=
  List.filter full_selection (rows events).

(** the pt and the mass of the dimuon of a selected event *)
Definition dimuon_pt (e : Event) : Q := hd 0 (vpt e).
Definition dimuon_mass (e : Event) : Q := hd 0 (vmass e).

(** the two leading good jets of a selected event, and their sum *)
Definition no_jet : Jet := mkJet (mkKin 0 0 0 0) false.
Definition jet0 (e : Event) : Jet := nth 0 (good_jets e) no_jet.
Definition jet1 (e : Event) : Jet := nth 1 (good_jets e) no_jet.
Definition dijet (e : Event) : LV := lv_add (jet_kin (jet0 e)) (jet_kin (jet1 e)).

(** the PDF weight of index [p] of an event *)
Definition pdf_weight (p : nat) (e : Event) : Q := nth p (ev_LHEPdfWeight e) 0.

(** what [process] puts in the histogram [name]: one entry per row for
    the first four, one per selected event for the others, and for
    'dilep_pt' one per selected event under "Default" and under each of the
    32 PDF indices *)
Definition fills_of (events : Chunk) (dataset name : string) : list CEntry :=
  let all := rows events in
  let sel := selected_events events in
  let per (l : list Event) (cat : option string) (v : Event -> fval)
          (w : Event -> Q) :=
    map (fun e => mkCEntry dataset cat (v e) (w e)) l in
  if String.eqb name "LHE_Vpt" then
    per all None (fun e => Val (ev_LHE_Vpt e)) ev_genWeight
  else if String.eqb name "wei" then
    per all None (fun e => sign_of (ev_genWeight e)) (fun _ => 1)
  else if String.eqb name "nlep" then
    per all None (fun e => Val (Qnat (length (good_muons e)))) (fun _ => 1)
  else if String.eqb name "njet15" then
    per all None (fun e => Val (Qnat (length (good_jets e)))) (fun _ => 1)
  else if String.eqb name "dilep_m" then
    per sel None (fun e => Val (dimuon_mass e)) ev_genWeight
  else if String.eqb name "dijet_m" then
    per sel None (fun e => Val (lv_mass (dijet e))) ev_genWeight
  else if String.eqb name "dijet_pt" then
    per sel None (fun e => Val (lv_pt (dijet e))) ev_genWeight
  else if String.eqb name "dijet_dr" then
    per sel None
        (fun e => Val (delta_r (jet_kin (jet0 e)) (jet_kin (jet1 e))))
        ev_genWeight
  else if String.eqb name "dilep_pt" then
    per sel (Some "Default") (fun e => Val (dimuon_pt e)) ev_genWeight
    ++ concat
         (map (fun p =>
                 per sel (Some (pretty p)) (fun e => Val (dimuon_pt e))
                     (fun e => ev_genWeight e * (2 * pdf_weight p e)))
              (seq 0 32))
  else [].

(** every branch [process] reads, in the order of the first read *)
Definition branches_read : list string :=
  ["LHEPdfWeight"; "LHE_Vpt"; "genWeight"] ++ muon_branches
  ++ electron_branches ++ ["MET_pt"] ++ jet_branches ++ ["Jet_mass"].

(** the chunk has its dataset name and every branch [process] reads *)
Definition readable (events : Chunk) : bool :=
  bool_decide (is_Some (metadata events !! "dataset"))
  && forallb (fun b => negb (existsb (String.eqb b) (absent events)))
             branches_read.

(** how [process] ends: without the dataset name a KeyError, without a
    branch an AttributeError for the first one read, with a selected event
    of fewer than 32 PDF weights an IndexError, and normally otherwise *)
Definition process_result (events : Chunk) : result unit :=
  match metadata events !! "dataset" with
  | None => Raise (KeyError "dataset")
  | Some _ =>
      match find (fun b => existsb (String.eqb b) (absent events))
                 branches_read with
      | Some b => Raise (AttributeError "NanoEvents" b)
      | None =>
          if forallb (fun e => (32 <=? length (ev_LHEPdfWeight e))%nat)
                     (selected_events events)
          then Ok tt
          else Raise (IndexError "list index out of range")
      end
  end.

(** the accumulator holds a histogram under each name of [axis] *)
Definition has_histograms (acc : Output) : Prop :=
  forall name, In name (map fst axis) -> is_Some (hists acc !! name).

(** the store has the histograms and the one under [name] has received [a] *)
Definition CKeeps (D : gset string) (name : string) (a : list CEntry)
    (output : Output) : Prop :=
  dom (hists output) = D /\ centries output name = a.

(** positions [i < j] of a list of muons hold an opposite-charge pair of
    invariant mass in [60, 120) *)
Definition good_pair_at (l : list Muon) (i j : nat) : Prop :=
  (i < j)%nat /\
  exists m1 m2,
    l !! i = Some m1 /\ l !! j = Some m2
    /\ mu_charge m1 <> mu_charge m2
    /\ 60 <= lv_mass (lv_add (mu_kin m1) (mu_kin m2))
    /\ lv_mass (lv_add (mu_kin m1) (mu_kin m2)) < 120.

(** exactly one such pair among the muons passing the goodmuon cuts *)
Definition exactly_one_good_dimuon (e : Event) : Prop :=
  exists i j,
    good_pair_at (good_muons e) i j
    /\ forall i' j', good_pair_at (good_muons e) i' j' -> i' = i /\ j' = j.

(** farther than 0.4 from every good electron and every good muon *)
Definition clean_jet (e : Event) (j : Jet) : Prop :=
  (forall el, In el (good_electrons e) -> 0.4 < delta_r (jet_kin j) (el_kin el))
  /\ (forall m, In m (good_muons e) -> 0.4 < delta_r (jet_kin j) (mu_kin m)).

Definition clean_tight_jet (e : Event) (j : Jet) : Prop :=
  30 < k_pt (jet_kin j)
  /\ Qabs (k_eta (jet_kin j)) < 2.5
  /\ jet_isTight j = true
  /\ clean_jet e j.

(** two positions of the jet collection hold clean tight jets *)
Definition at_least_two_clean_tight_jets (e : Event) : Prop :=
  exists i j a b,
    (i < j)%nat /\ ev_Jet e !! i = Some a /\ ev_Jet e !! j = Some b
    /\ clean_tight_jet e a /\ clean_tight_jet e b.

End Process.
End VPlusJet.

(** ** Plotting and pickling: [plot] and [plotFromPickles] of both scripts *)

Module Plotting.

Section Files.

(** Outside the repository: the figures drawn from a collection, and the
    bytes pickle makes of it. *)
Variable Image : Type.
Variable Blob : Type.

Inductive File :=
| Png (image : Image)
| Pkl (blob : Blob).

(** The file system: the directories, the files, and the writes done so
    far, oldest first. *)
Record FS := mkFS {
  dirs : gset string;
  files : gmap string File;
  written : list (string * File)
}.

(** [os.makedirs(outdir)] when [outdir] does not exist *)
Definition ensure_dir (outdir : string) : M FS unit :=
  fun fs =>
    if bool_decide (outdir ∈ dirs fs) then (fs, Ok tt)
    else (mkFS ({[outdir]} ∪ dirs fs) (files fs) (written fs), Ok tt).

Definition write_file (path : string) (content : File) : M FS unit :=
  fun fs =>
    (mkFS (dirs fs) (<[path := content]> (files fs))
          (written fs ++ [(path, content)]),
     Ok tt).

(** [pkl.load(open(inputfile, 'rb'))] *)
Definition load {Item} (loads : Blob -> result (list (string * Item)))
    (inputfile : string) : M FS (list (string * Item)) :=
  fun fs =>
    match files fs !! inputfile with
    | None => (fs, Raise (LibraryError "FileNotFoundError"))
    | Some (Png _) => (fs, Raise (LibraryError "UnpicklingError"))
    | Some (Pkl blob) => (fs, loads blob)
    end.

(** [f"{outdir}/{observable}.png"] and [outdir+'/Pickles.pkl'] *)
Definition png_path (outdir observable : string) : string :=
  outdir ++ "/" ++ observable ++ ".png".

Definition pkl_path (outdir : string) : string := outdir ++ "/Pickles.pkl".

(** *** What the statements about plotting speak of *)

(** the file system after a list of writes *)
Definition apply_writes (ws : list (string * File)) (fs : FS) : FS :=
  mkFS (dirs fs)
       (fold_left (fun m w => <[fst w := snd w]> m) ws (files fs))
       (written fs ++ ws).

(** the file system after [os.makedirs] of a missing [outdir] *)
Definition with_dir (outdir : string) (fs : FS) : FS :=
  if bool_decide (outdir ∈ dirs fs) then fs
  else mkFS ({[outdir]} ∪ dirs fs) (files fs) (written fs).

Definition is_pickle_write (w : string * File) : bool :=
  match snd w with
  | Pkl _ => true
  | Png _ => false
  end.

(** [plot] writes the images of the collection and then its pickle;
    [plotFromPickles] on that pickle writes the images of the same
    collection again, writes no pickle, and leaves the pickle in place *)
Definition replots {Item} (dumps : list (string * Item) -> Blob)
    (plot : string -> list (string * Item) -> bool -> M FS unit)
    (plotFromPickles : string -> string -> M FS unit)
    (images : string -> list (string * Item) -> list (string * File)) : Prop :=
  forall fs outdir outdir2 histograms,
    let fs1 := fst (plot outdir histograms false fs) in
    let r := plotFromPickles outdir2 (pkl_path outdir) fs1 in
    snd (plot outdir histograms false fs) = Ok tt
    /\ written fs1
       = (written fs ++ images outdir histograms
          ++ [(pkl_path outdir, Pkl (dumps histograms))])%list
    /\ files fs1 !! pkl_path outdir = Some (Pkl (dumps histograms))
    /\ snd r = Ok tt
    /\ written (fst r) = (written fs1 ++ images outdir2 histograms)%list
    /\ Forall (fun w => is_pickle_write w = false) (images outdir2 histograms)
    /\ files (fst r) !! pkl_path outdir = Some (Pkl (dumps histograms)).

End Files.

Arguments Png {Image Blob} image.
Arguments Pkl {Image Blob} blob.
Arguments mkFS {Image Blob} dirs files written.
Arguments dirs {Image Blob} f.
Arguments files {Image Blob} f.
Arguments written {Image Blob} f.
Arguments ensure_dir {Image Blob} outdir _.
Arguments write_file {Image Blob} path content _.
Arguments load {Image Blob Item} loads inputfile _.
Arguments apply_writes {Image Blob} ws fs.
Arguments with_dir {Image Blob} outdir fs.
Arguments is_pickle_write {Image Blob} w.
Arguments replots {Image Blob Item} dumps plot plotFromPickles images.

(** the last character of a string *)
Fixpoint last_char (s : string) : option ascii :=
  match s with
  | EmptyString => None
  | String c EmptyString => Some c
  | String _ s' => last_char s'
  end.

End Plotting.

(** *** lhePlot.py *)

Module LhePlotting.
Import Plotting.

Section Plot.
Context {Item Image Blob : Type}.

(** [histogram.plot()] on the cleared figure, and pickle *)
Variable render : Item -> Image.
Variable dumps : list (string * Item) -> Blob.
Variable loads : Blob -> result (list (string * Item)).

(** [plot(histograms, fromPickles)]; [outdir] is [opt.outdir] *)
Definition plot (outdir : string) (histograms : list (string * Item))
    (fromPickles : bool) : M (FS Image Blob) unit :=
  (ensure_dir outdir ;;
   for_each histograms (fun oh =>
     write_file (png_path outdir (fst oh)) (Png (render (snd oh)))) ;;
   if negb fromPickles
   then write_file (pkl_path outdir) (Pkl (dumps histograms))
   else ret tt)%py.

Definition plotFromPickles (outdir inputfile : string)
  : M (FS Image Blob) unit :=
  (let* hists := load loads inputfile in
   plot outdir hists true)%py.

(** the image files [plot] writes for a collection: one per observable *)
Definition images (outdir : string) (histograms : list (string * Item))
  : list (string * File Image Blob) :=
  map (fun oh => (png_path outdir (fst oh), Png (render (snd oh)))) histograms.

End Plot.
End LhePlotting.

(** *** vplusjetPDFsyst.py *)

Module VPlusJetPlotting.
Import Plotting.

Section Plot.
Context {Item Image Blob : Type}.

(** [hist.plotgrid] and [hist.plot1d] on the cleared figure, the test
    [type(histogram) is hist.hist_tools.Hist], and pickle *)
Variable plotgrid : Item -> Image.
Variable plot1d : Item -> Image.
Variable is_Hist : Item -> bool.
Variable dumps : list (string * Item) -> Blob.
Variable loads : Blob -> result (list (string * Item)).

(** [plot(histograms, outdir, fromPickles)]: what is not a histogram is
    skipped, and 'dilep_pt' is drawn as a grid over the PDFwei categories *)
Definition plot (histograms : list (string * Item)) (outdir : string)
    (fromPickles : bool) : M (FS Image Blob) unit :=
  (ensure_dir outdir ;;
   for_each histograms (fun oh =>
     if is_Hist (snd oh) then
       write_file (png_path outdir (fst oh))
         (Png (if String.eqb (fst oh) "dilep_pt"
               then plotgrid (snd oh)
               else plot1d (snd oh)))
     else ret tt) ;;
   if negb fromPickles
   then write_file (pkl_path outdir) (Pkl (dumps histograms))
   else ret tt)%py.

Definition plotFromPickles (inputfile outdir : string)
  : M (FS Image Blob) unit :=
  (let* hists := load loads inputfile in
   plot hists outdir true)%py.

(** the image files [plot] writes: one per histogram of the collection *)
Definition images (outdir : string) (histograms : list (string * Item))
  : list (string * File Image Blob) :=
  map (fun oh =>
         (png_path outdir (fst oh),
          Png (if String.eqb (fst oh) "dilep_pt"
               then plotgrid (snd oh)
               else plot1d (snd oh))))
      (List.filter (fun oh => is_Hist (snd oh)) histograms).

End Plot.
End VPlusJetPlotting.

(** ** The command lines of the two scripts *)

Module Cli.

(** *** Python string operations used by [getRootFiles] and [__main__] *)

(** [s.split(sep)] for a separator of one character *)
Fixpoint split (sep : ascii) (s : string) : list string :=
  match s with
  | EmptyString => [EmptyString]
  | String c s' =>
      if Ascii.eqb c sep then EmptyString :: split sep s'
      else match split sep s' with
           | h :: t => String c h :: t
           | [] => [String c EmptyString]
           end
  end.

(** [sep.join(l)] *)
Fixpoint join (sep : string) (l : list string) : string :=
  match l with
  | [] => EmptyString
  | [x] => x
  | x :: l' => x ++ sep ++ join sep l'
  end.

(** [s.startswith(p)] *)
Definition startswith (p s : string) : bool := String.prefix p s.

(** [s.endswith(suffix)] *)
Definition endswith (suffix s : string) : bool :=
  (String.length suffix <=? String.length s)%nat
  && String.eqb
       (String.substring (String.length s - String.length suffix)
                         (String.length suffix) s)
       suffix.

(** [sub in s] *)
Fixpoint contains (sub s : string) : bool :=
  String.prefix sub s
  || match s with
     | EmptyString => false
     | String _ s' => contains sub s'
     end.

(** [os.path.join(d, f)] *)
Definition path_join (d f : string) : string :=
  if startswith "/" f then f
  else if String.eqb d EmptyString || endswith "/" d then d ++ f
  else d ++ "/" ++ f.

Definition newline : ascii := "010"%char.

(** [enumerate(l)] *)
Definition enumerate {A} (l : list A) : list (nat * A) :=
  combine (seq 0 (length l)) l.

(** what argparse does on a command line it rejects *)
Definition SystemExit {A} : result A := Raise (LibraryError "SystemExit").

Section Main.

(** Outside the repository: the listing of a remote directory by
    [xrdfs <site> ls <path>] (its decoded output) and [os.listdir]. *)
Variable xrdfs_ls : string -> string -> result string.
Variable listdir : string -> result (list string).

Definition getRootFiles (d : string) (lim : option nat) : result (list string) :=
  let keep (i : nat) (f : string) :=
    endswith ".root" f
    && match lim with
       | None => true
       | Some n => (i <? n)%nat
       end in
  if contains "xrootd" d then
    let sp := split "/" d in
    let siteIP := join "/" (firstn 3 sp) in
    let pathToFiles := join "/" (removelast (skipn 3 sp)) in
    (let? out := xrdfs_ls siteIP pathToFiles in
     let allfiles := split newline out in
     Ok (map (fun jf => siteIP ++ snd jf)
             (List.filter (fun jf => keep (fst jf) (snd jf))
                          (enumerate allfiles))))%py
  else
    (let? names := listdir d in
     Ok (map (fun jf => path_join d (snd jf))
             (List.filter (fun jf => keep (fst jf) (snd jf))
                          (enumerate names))))%py.

(** *** lhePlot.py *)

Record LheOpt := mkLheOpt {
  lhe_outdir : string;
  lhe_inputfile : string
}.

(** The parser of lines 12-16 on the command lines made of [-o DIR] or
    [--outdir DIR] and of positional words; the other forms argparse
    accepts ([--outdir=DIR], [-oDIR], abbreviations, [-h]) are not
    modelled. *)
Fixpoint lhe_parse_from (argv : list string) (outdir : string)
    (positional : list string) : result LheOpt :=
  match argv with
  | [] =>
      match positional with
      | [inputfile] => Ok (mkLheOpt outdir inputfile)
      | _ => SystemExit
      end
  | tok :: rest =>
      if String.eqb tok "-o" || String.eqb tok "--outdir" then
        match rest with
        | value :: rest' =>
            if startswith "-" value then SystemExit
            else lhe_parse_from rest' value positional
        | [] => SystemExit
        end
      else if startswith "-" tok then SystemExit
      else lhe_parse_from rest outdir (positional ++ [tok])
  end.

Definition lhe_parse_args (argv : list string) : result LheOpt :=
  lhe_parse_from argv "plots_default" [].

(** what [__main__] of lhePlot.py does with the parsed options *)
Inductive LheAction :=
| AnalyzeAndPlot (lhe_file outdir : string)
| LhePlotFromPickles (pkl_file outdir : string)
| LheNothing.

Definition lhe_main (opt : LheOpt) : LheAction :=
  if endswith ".lhe" (lhe_inputfile opt) then
    AnalyzeAndPlot (lhe_inputfile opt) (lhe_outdir opt)
  else if endswith ".pkl" (lhe_inputfile opt) then
    LhePlotFromPickles (lhe_inputfile opt) (lhe_outdir opt)
  else LheNothing.

(** *** vplusjetPDFsyst.py *)

Record VpjOpt := mkVpjOpt {
  vpj_outdir : string;
  vpj_pkl : option string
}.

(** the parser of lines 229-234, on [-o DIR], [--outdir DIR] and
    [--pkl FILE]; it takes no positional word *)
Fixpoint vpj_parse_from (argv : list string) (opt : VpjOpt) : result VpjOpt :=
  match argv with
  | [] => Ok opt
  | tok :: rest =>
      match rest with
      | value :: rest' =>
          if startswith "-" value then SystemExit
          else if String.eqb tok "-o" || String.eqb tok "--outdir" then
            vpj_parse_from rest' (mkVpjOpt value (vpj_pkl opt))
          else if String.eqb tok "--pkl" then
            vpj_parse_from rest' (mkVpjOpt (vpj_outdir opt) (Some value))
          else SystemExit
      | [] => SystemExit
      end
  end.

Definition vpj_parse_args (argv : list string) : result VpjOpt :=
  vpj_parse_from argv (mkVpjOpt "plots_default" None).

(** the last assignments of lines 244-250 *)
Definition ntuples_location : string :=
  "root://grid-cms-xrootd.physik.rwth-aachen.de//store/user/andrey/DYCOPY_NanoV7/".

Definition p2017_DY1_250_400 : string :=
  ntuples_location ++ "/DY1JetsToLL_M-50_LHEZpT_250-400_TuneCP5_13TeV-amcnloFXFX-pythia8/NANOAODSIM/PU2017_12Apr2018_Nano02Apr2020_102X_mc2017_realistic_v8-v1/100000/".

Definition p2017_DY2_250_400 : string :=
  ntuples_location ++ "/DY2JetsToLL_M-50_LHEZpT_250-400_TuneCP5_13TeV-amcnloFXFX-pythia8/NANOAODSIM/PU2017_12Apr2018_Nano02Apr2020_102X_mc2017_realistic_v8-v1/100000/".

(** the [file_list] dictionary of lines 252-257 *)
Definition file_list : result (list (string * list string)) :=
  (let? dy1 := getRootFiles p2017_DY1_250_400 None in
   let? dy2 := getRootFiles p2017_DY2_250_400 None in
   Ok [("2017_DY1J", dy1); ("2017_DY2J", dy2)])%py.

(** what [__main__] of vplusjetPDFsyst.py does with the parsed options *)
Inductive VpjAction :=
| VpjPlotFromPickles (pkl_file outdir : string)
| RunJobAndPlot (files : list (string * list string)) (outdir : string).

Definition vpj_main (opt : VpjOpt) : result VpjAction :=
  (let? files := file_list in
   match vpj_pkl opt with
   | Some pkl_file => Ok (VpjPlotFromPickles pkl_file (vpj_outdir opt))
   | None => Ok (RunJobAndPlot files (vpj_outdir opt))
   end)%py.

(** *** What the statements about the command lines speak of *)

(** some two command lines make vplusjetPDFsyst.py run over different
    sets of ntuple files *)
Definition ntuple_input_selectable : Prop :=
  exists argv1 argv2 opt1 opt2 files1 files2 outdir1 outdir2,
    vpj_parse_args argv1 = Ok opt1
    /\ vpj_parse_args argv2 = Ok opt2
    /\ vpj_main opt1 = Ok (RunJobAndPlot files1 outdir1)
    /\ vpj_main opt2 = Ok (RunJobAndPlot files2 outdir2)
    /\ files1 <> files2.

End Main.
End Cli.

(** ** A vector library to run [analyze] on concrete events *)

Module LheExamples.
Import LhePlot.
Local Open Scope Q_scope.

(** square root, exact on the squares of rationals of denominator one *)
Definition Qsqrt (q : Q) : Q := Z.sqrt (Qnum q * Z.pos (Qden q)) # Qden q.

Record Cartesian := mkCartesian {
  c_px : Q;
  c_py : Q;
  c_pz : Q;
  c_e : Q
}.

Definition c_pt (v : Cartesian) : Q := Qsqrt (c_px v * c_px v + c_py v * c_py v).

Definition c_m2 (v : Cartesian) : Q :=
  c_e v * c_e v - (c_px v * c_px v + c_py v * c_py v + c_pz v * c_pz v).

Definition c_mass (v : Cartesian) : Q :=
  if Qltb (c_m2 v) 0 then - Qsqrt (- c_m2 v) else Qsqrt (c_m2 v).

(** Pseudorapidity and angular distance are transcendental.  The instance
    gives zero pseudorapidity to the vectors in the transverse plane
    ([pz = 0]), which is exact, and only such vectors are used below; no
    decision of [analyze] reads these two. *)
Definition c_eta (v : Cartesian) : Q := c_pz v / c_pt v.

Definition c_add (a b : Cartesian) : Cartesian :=
  mkCartesian (c_px a + c_px b) (c_py a + c_py b) (c_pz a + c_pz b) (c_e a + c_e b).

Definition c_deltar (a b : Cartesian) : Q := Qabs (c_eta a - c_eta b).

#[export] Instance cartesian : VectorLib := {|
  P4 := Cartesian;
  p4_pt := c_pt;
  p4_mass := c_mass;
  p4_eta := c_eta;
  p4_add := c_add;
  p4_deltar := c_deltar
|}.

Definition electron : Particle := mkParticle 11 1 (mkCartesian 100 0 0 125).
Definition positron : Particle := mkParticle (-11) 1 (mkCartesian 200 0 0 200).
Definition gluon : Particle := mkParticle 21 1 (mkCartesian (-300) 0 0 300).

(** two leptons of summed pt 300 and mass 125, one recoiling gluon *)
Definition ev_full : Event := mkEvent [electron; positron; gluon] [1 # 2].

(** the same event read from a file without reweighting block *)
Definition ev_no_weight : Event := mkEvent [electron; positron; gluon] [].

(** the same leptons and no parton at all *)
Definition ev_no_jet : Event := mkEvent [electron; positron] [1 # 2].

Definition ev_no_jet_no_weight : Event := mkEvent [electron; positron] [].

(** a single lepton *)
Definition ev_one_lepton : Event := mkEvent [electron; gluon] [1 # 2].

(** two leptons below pt 1 *)
Definition soft_electron : Particle := mkParticle 11 1 (mkCartesian (1 # 2) 0 0 1).
Definition soft_positron : Particle := mkParticle (-11) 1 (mkCartesian (1 # 4) 0 0 1).
Definition ev_soft_leptons : Event := mkEvent [soft_electron; soft_positron; gluon] [1 # 2].

(** a second parton above pt 15 and a Z boson *)
Definition quark : Particle := mkParticle 2 1 (mkCartesian 20 0 0 25).
Definition Zboson : Particle := mkParticle 23 2 (mkCartesian 300 0 0 325).
Definition ev_two_jets : Event :=
  mkEvent [Zboson; electron; positron; gluon; quark] [3 # 2; 1].

(** a file of three events, the second of which fails the lepton count *)
Definition three_events : list ReadItem :=
  [Yield ev_full; Yield ev_one_lepton; Yield ev_two_jets].

Definition three_events_histograms : Store :=
  fst (event_loop three_events setup_histograms).

End LheExamples.

(** ** A vector library to run [process] on concrete chunks *)

Module VpjExamples.
Import VPlusJet LheExamples.
Local Open Scope Q_scope.

(** Sums are taken as for objects along the x axis (eta = 0, phi = 0), where
    px = pt and E = sqrt(pt^2 + m^2): exact for the muons below, which are
    all put there.  The distance is sqrt(deta^2 + dphi^2), exact while the
    difference in phi needs no wrapping. *)
Definition x_energy (a : Kin) : Q := Qsqrt (k_pt a * k_pt a + k_mass a * k_mass a).

Definition x_add (a b : Kin) : Q * Q := (k_pt a + k_pt b, x_energy a + x_energy b).

Definition x_mass (v : Q * Q) : Q := Qsqrt (snd v * snd v - fst v * fst v).

Definition x_delta_r (a b : Kin) : Q :=
  Qsqrt ((k_eta a - k_eta b) * (k_eta a - k_eta b)
         + (k_phi a - k_phi b) * (k_phi a - k_phi b)).

#[export] Instance along_x : NanoVectors := {|
  LV := Q * Q;
  lv_add := x_add;
  lv_pt := fst;
  lv_mass := x_mass;
  delta_r := x_delta_r
|}.

Definition muon (pt mass : Q) (charge : Z) : Muon :=
  mkMuon (mkKin pt 0 0 mass) charge 0.1 true 0.01 0.01.

(** pt 30 and 45 with masses 40 and 60: energies 50 and 75, the pair has
    pt 75 and mass 100 *)
Definition mu_plus : Muon := muon 30 40 1.
Definition mu_minus : Muon := muon 45 60 (-1).

(** pt 18 and 27 with masses 24 and 36: energies 30 and 45, the pair has
    pt 45 and mass 60; the leading good muon has pt 18 *)
Definition soft_mu_plus : Muon := muon 18 24 1.
Definition soft_mu_minus : Muon := muon 27 36 (-1).

(** two tight jets at eta 1 and -1, at distance 1 from the muons *)
Definition jet_a : Jet := mkJet (mkKin 50 1 0 0) true.
Definition jet_b : Jet := mkJet (mkKin 40 (-1) 0 0) true.

Definition ones : list Q := repeat 1 32.

Definition ev_selected : Event :=
  mkEvent 300 1 ones [mu_plus; mu_minus] [] [jet_a; jet_b] 20.

Definition ev_soft : Event :=
  mkEvent 300 1 ones [soft_mu_plus; soft_mu_minus] [] [jet_a; jet_b] 20.

(** a selected event with only three PDF weights *)
Definition ev_short_pdf : Event :=
  mkEvent 300 1 [1; 1; 1] [mu_plus; mu_minus] [] [jet_a; jet_b] 20.

Definition ev_no_jets : Event :=
  mkEvent 300 1 ones [mu_plus; mu_minus] [] [] 20.

Definition chunk_of (rows : list Event) : Chunk :=
  mkChunk {["dataset" := "2017_DY1J"]} [] rows.

End VpjExamples.

(** ** A pickle and a remote listing to run the input and output code *)

Module IoExamples.
Import Cli.

(** a pickle that stores the collection as it is; a figure is the list of
    fills it shows *)
Definition store_dumps (c : list (string * Hist)) : list (string * Hist) := c.
Definition store_loads (b : list (string * Hist))
  : result (list (string * Hist)) := Ok b.
Definition figure (h : Hist) : list (Q * Q) := h_entries h.
Definition any_Hist (h : Hist) : bool := true.

(** the output of [xrdfs ... ls]: two ntuple files and a log *)
Definition listing : string :=
  "/store/a.root" ++ String newline
    ("/store/log.txt" ++ String newline
       ("/store/b.root" ++ String newline EmptyString)).

Definition example_ls (site path : string) : result string := Ok listing.
Definition example_listdir (d : string) : result (list string) :=
  Ok ["a.root"; "notes.txt"].

(** a collection of two histograms and the counters, the counters not
    being a histogram *)
Definition hist_nlep : Hist := mkHist "nlep" (linspace 0 6 6) [(2, 1)]%Q.
Definition hist_wei : Hist := mkHist "wei" (linspace (-50) 50 100) [(1 # 2, 1)]%Q.
Definition counters : Hist := mkHist "cutflow" [] [].
Definition collection : list (string * Hist) :=
  [("nlep", hist_nlep); ("wei", hist_wei); ("cutflow", counters)].
Definition not_counters (h : Hist) : bool := negb (String.eqb (h_name h) "cutflow").

(** a file system with one image and nothing else *)
Definition one_image : Plotting.FS (list (Q * Q)) (list (string * Hist)) :=
  Plotting.mkFS ∅ {["old.png" := Plotting.Png []]} [].

End IoExamples.

(** ** lhePlot.py: what one event puts in each histogram *)

Module LheFills.
Import LhePlot.
Local Open Scope Q_scope.

Section Fills.
Context {V : VectorLib}.

Definition Zs_of (event : Event) : list Particle :=
  List.filter is_Z (particles event).

Definition jets15_of (event : Event) : list Particle :=
  List.filter is_jet15 (particles event).

(** the events the reader yields, up to the end of the file *)
Definition events_of (reader : list ReadItem) : list Event :=
  flat_map (fun item => match item with
                        | Yield event => [event]
                        | ReadFail _ => []
                        end) reader.

(** lines 105-107: the three counts, each with weight 1 *)
Definition count_fills (event : Event) (k : string) : list (Q * Q) :=
  if String.eqb k "nlep" then [(Qnat (length (leptons_of event)), 1)]
  else if String.eqb k "njet" then [(Qnat (length (jets_of event)), 1)]
  else if String.eqb k "njet15" then [(Qnat (length (jets15_of event)), 1)]
  else [].

(** lines 133-173, for an event that passed the cuts with lepton sum [v]
    and first weight [wei]; 'jets_ht' and the dijet observables get
    nothing when the jets they need are missing *)
Definition selected_fills (event : Event) (v : P4) (wei : Q) (k : string)
  : list (Q * Q) :=
  if String.eqb k "wei" then [(wei, 1)]
  else if String.eqb k "dilep_m" then [(p4_mass v, wei)]
  else if String.eqb k "dilep_pt" then [(p4_pt v, wei)]
  else if String.eqb k "lep_eta" then
    map (fun l => (p4_eta (p4 l), wei)) (leptons_of event)
  else if String.eqb k "lep_pt" then
    map (fun l => (p4_pt (p4 l), wei)) (leptons_of event)
  else if String.eqb k "z_mass" then
    map (fun Z => (p4_mass (p4 Z), wei)) (Zs_of event)
  else if String.eqb k "z_pt" then
    map (fun Z => (p4_pt (p4 Z), wei)) (Zs_of event)
  else if String.eqb k "jet_eta" then
    map (fun j => (p4_eta (p4 j), wei)) (jets_of event)
  else if String.eqb k "jet_pt" then
    map (fun j => (p4_pt (p4 j), wei)) (jets_of event)
  else if String.eqb k "jets_ht" then
    match p4_sum (map p4 (jets_of event)) with
    | Some j => [(p4_pt j, wei)]
    | None => []
    end
  else
    match jets15_of event with
    | j1 :: j2 :: _ =>
        if String.eqb k "dijet_dr" then [(p4_deltar (p4 j1) (p4 j2), wei)]
        else if String.eqb k "dijet_m" then
          [(p4_mass (p4_add (p4 j1) (p4 j2)), wei)]
        else if String.eqb k "dijet_pt" then
          [(p4_pt (p4_add (p4 j1) (p4 j2)), wei)]
        else []
    | _ => []
    end.

(** the event passes the cuts and has a first weight: lines 133-136 run *)
Definition weighted_selection (event : Event) : option (P4 * Q) :=
  if negb (length (leptons_of event) =? 2)%nat then None
  else match dilepton_p4 event, weights event with
       | Some v, wei :: _ => if in_windowb v then Some (v, wei) else None
       | _, _ => None
       end.

(** everything the body puts in the histogram [k], whether it then runs to
    its end or raises *)
Definition event_fills (event : Event) (k : string) : list (Q * Q) :=
  count_fills event k
  ++ match weighted_selection event with
     | Some (v, wei) => selected_fills event v wei k
     | None => []
     end.

(** the events the loop takes up before it stops: up to the first
    exception of the reader, or up to and with the first event on which the
    body raises *)
Fixpoint processed (reader : list ReadItem) : list Event :=
  match reader with
  | [] => []
  | ReadFail _ :: _ => []
  | Yield event :: reader' =>
      event :: match event_result event with
               | Ok _ => processed reader'
               | Raise _ => []
               end
  end.

(** the binning of [setup_histograms] under a name *)
Definition binning_of (k : string) : option (list Q) :=
  option_map snd (find (fun ob => String.eqb (fst ob) k) bins).

(** every histogram of the store has its key as name and the bin edges of
    [setup_histograms] *)
Definition well_binned (histograms : Store) : Prop :=
  forall k h,
    histograms !! k = Some h ->
    h_name h = k /\ binning_of k = Some (h_edges h).

(** the first weight of the events that pass the cuts with a weight *)
Definition selected_weight (event : Event) : list Q :=
  match weighted_selection event with
  | Some (_, wei) => [wei]
  | None => []
  end.

End Fills.
End LheFills.

(** ** vplusjetPDFsyst.py: the counters and the axes of the output *)

Module ProcessCounts.
Import VPlusJet.
Local Open Scope Q_scope.

(** the counters of the output are [c] and the sums of weights are [s] *)
Definition Counts (c : gmap string (gmap string Z)) (s : gmap string Q)
    (output : Output) : Prop :=
  cutflow output = c /\ sumw output = s.

(** the axes of a histogram: whether it has the PDFwei category, and its
    binning *)
Definition axes_of (h : CHist) : bool * BinAxis := (ch_has_PDFwei h, ch_axis h).

(** the output has the histograms of the accumulator, with their axes *)
Definition same_axes (acc : Output) (output : Output) : Prop :=
  forall name,
    axes_of <$> (hists output !! name) = axes_of <$> (hists acc !! name).

End ProcessCounts.

(** * Properties *)

(** ** The monad and the comparisons *)

Module PyFacts.

Lemma bind_ok {St A B} (m : M St A) (k : A -> M St B) st st' a :
  m st = (st', Ok a) -> bind m k st = k a st'.
Proof. intros H. unfold bind. now rewrite H. Qed.

Lemma bind_raise {St A B} (m : M St A) (k : A -> M St B) st st' e :
  m st = (st', Raise e) -> bind m k st = (st', Raise e).
Proof. intros H. unfold bind. now rewrite H. Qed.

Lemma hoare_conseq {St A} (P P' : St -> Prop) (m : M St A)
    (Q Q' : result A -> St -> Prop) :
  hoare P' m Q' ->
  (forall st, P st -> P' st) ->
  (forall r st, Q' r st -> Q r st) ->
  hoare P m Q.
Proof. intros H HP HQ st Hst. apply HQ, H, HP, Hst. Qed.

Lemma hoare_ret {St A} (P : St -> Prop) (a : A) (Q : result A -> St -> Prop) :
  (forall st, P st -> Q (Ok a) st) -> hoare P (ret a) Q.
Proof. intros H st Hst. apply H, Hst. Qed.

Lemma hoare_raise {St A} (P : St -> Prop) e (Q : result A -> St -> Prop) :
  (forall st, P st -> Q (Raise e) st) -> hoare P (raise e) Q.
Proof. intros H st Hst. apply H, Hst. Qed.

Lemma hoare_lift {St A} (P : St -> Prop) (r : result A)
    (Q : result A -> St -> Prop) :
  (forall st, P st -> Q r st) -> hoare P (lift r) Q.
Proof. intros H st Hst. apply H, Hst. Qed.

Lemma hoare_bind {St A B} (P : St -> Prop) (m : M St A) (k : A -> M St B)
    (R : A -> St -> Prop) (Q : result B -> St -> Prop) :
  hoare P m (fun r st => match r with
                         | Ok a => R a st
                         | Raise e => Q (Raise e) st
                         end) ->
  (forall a, hoare (R a) (k a) Q) ->
  hoare P (bind m k) Q.
Proof.
  intros Hm Hk st Hst. specialize (Hm st Hst). unfold bind.
  destruct (m st) as [st' [a|e]]; simpl in *.
  - apply Hk, Hm.
  - exact Hm.
Qed.

(** the first statement cannot raise *)
Lemma hoare_bind_ok {St A B} (P : St -> Prop) (m : M St A) (k : A -> M St B)
    (R : A -> St -> Prop) (Q : result B -> St -> Prop) :
  hoare P m (fun r st => exists a, r = Ok a /\ R a st) ->
  (forall a, hoare (R a) (k a) Q) ->
  hoare P (bind m k) Q.
Proof.
  intros Hm Hk. apply hoare_bind with (R := R); [|exact Hk].
  intros st Hst. destruct (Hm st Hst) as (a & -> & Ha). exact Ha.
Qed.

Lemma hoare_seq_ok {St B} (P R : St -> Prop) (m : M St unit) (k : M St B)
    (Q : result B -> St -> Prop) :
  hoare P m (fun r st => r = Ok tt /\ R st) ->
  hoare R k Q ->
  hoare P (bind m (fun _ => k)) Q.
Proof.
  intros Hm Hk. apply hoare_bind_ok with (R := fun _ => R); [|intros _; exact Hk].
  intros st Hst. destruct (Hm st Hst) as [-> HR]. now exists tt.
Qed.

Lemma hoare_for_each_ok {St A} (I : St -> Prop) (l : list A)
    (body : A -> M St unit) :
  (forall x, In x l -> hoare I (body x) (fun r st => r = Ok tt /\ I st)) ->
  hoare I (for_each l body) (fun r st => r = Ok tt /\ I st).
Proof.
  induction l as [|x l IH]; intros Hb; simpl.
  - apply hoare_ret. auto.
  - apply hoare_seq_ok with (R := I).
    + apply Hb. now left.
    + apply IH. intros y Hy. apply Hb. now right.
Qed.

Lemma hoare_assume {St A} (phi : Prop) (P : St -> Prop) (m : M St A)
    (Q : result A -> St -> Prop) :
  (phi -> hoare P m Q) -> hoare (fun st => phi /\ P st) m Q.
Proof. intros H st [Hphi Hst]. now apply H. Qed.

Lemma hoare_bind_lift_ok {St A B} (P : St -> Prop) (a : A) (k : A -> M St B)
    (Q : result B -> St -> Prop) :
  hoare P (k a) Q -> hoare P (bind (lift (Ok a)) k) Q.
Proof. intros H st Hst. apply H, Hst. Qed.

Lemma hoare_bind_lift_raise {St A B} (P : St -> Prop) e (k : A -> M St B)
    (Q : result B -> St -> Prop) :
  (forall st, P st -> Q (Raise e) st) -> hoare P (bind (lift (Raise e)) k) Q.
Proof. intros H st Hst. apply H, Hst. Qed.

Lemma bind_assoc {St A B C} (m : M St A) (f : A -> M St B) (g : B -> M St C) st :
  bind (bind m f) g st = bind m (fun x => bind (f x) g) st.
Proof.
  unfold bind. destruct (m st) as [st' [a|e]]; reflexivity.
Qed.

Lemma hoare_bind_assoc {St A B C} (P : St -> Prop) (m : M St A)
    (f : A -> M St B) (g : B -> M St C) (Q : result C -> St -> Prop) :
  hoare P (bind m (fun x => bind (f x) g)) Q ->
  hoare P (bind (bind m f) g) Q.
Proof. intros H st Hst. rewrite bind_assoc. apply H, Hst. Qed.

(** [a ;; (b ;; c)] as [(a ;; b) ;; c] *)
Lemma hoare_bind_assoc_seq {St B} (P : St -> Prop) (m1 m2 : M St unit)
    (rest : M St B) (Q : result B -> St -> Prop) :
  hoare P (bind (bind m1 (fun _ => m2)) (fun _ => rest)) Q ->
  hoare P (bind m1 (fun _ => bind m2 (fun _ => rest))) Q.
Proof. intros H st Hst. rewrite <- bind_assoc. apply H, Hst. Qed.

Lemma rbind_ok {A B} (r : result A) (k : A -> result B) b :
  rbind r k = Ok b -> exists a, r = Ok a /\ k a = Ok b.
Proof. destruct r as [a|e]; simpl; [eauto | discriminate]. Qed.

End PyFacts.

Module NumFacts.
Local Open Scope Q_scope.

Lemma Qltb_lt a b : Qltb a b = true <-> a < b.
Proof.
  unfold Qltb. rewrite negb_true_iff, <- not_true_iff_false, Qle_bool_iff.
  split; [apply Qnot_le_lt | apply Qlt_not_le].
Qed.

Lemma Qltb_ge a b : Qltb a b = false <-> b <= a.
Proof. unfold Qltb. rewrite negb_false_iff. apply Qle_bool_iff. Qed.

Lemma Qgtb_gt a b : Qgtb a b = true <-> b < a.
Proof. apply Qltb_lt. Qed.

Lemma Qgtb_le a b : Qgtb a b = false <-> a <= b.
Proof. apply Qltb_ge. Qed.

Lemma Qgeb_ge a b : Qgeb a b = true <-> b <= a.
Proof. apply Qle_bool_iff. Qed.

Lemma Qgeb_lt a b : Qgeb a b = false <-> a < b.
Proof.
  unfold Qgeb. rewrite <- not_true_iff_false, Qle_bool_iff.
  split; [apply Qnot_le_lt | apply Qlt_not_le].
Qed.

Lemma Qltb_negb_Qgeb a b : Qltb a b = negb (Qgeb a b).
Proof. reflexivity. Qed.

End NumFacts.

(** ** lhePlot.py: the event loop *)

Module LhePlotFacts.
Import LhePlot PyFacts NumFacts.
Local Open Scope Q_scope.

Section AnalyzeFacts.
Context {V : VectorLib}.

Lemma name_in_hist_names k : In k (map fst bins) -> k ∈ hist_names.
Proof.
  intros H. unfold hist_names. apply elem_of_list_to_set, list_elem_of_In, H.
Qed.

Lemma dom_setup_histograms : dom setup_histograms = hist_names.
Proof. vm_compute. reflexivity. Qed.

Lemma size_hist_names : size hist_names = 16%nat.
Proof. vm_compute. reflexivity. Qed.

(** *** Fills *)

Lemma fill_dom k x w (st : Store) : dom (fst (fill k x w st)) = dom st.
Proof.
  unfold fill. destruct (st !! k) as [h|] eqn:E; simpl; [|reflexivity].
  rewrite dom_insert_L. apply elem_of_dom_2 in E.
  apply subseteq_union_1_L, singleton_subseteq_l, E.
Qed.

Lemma fill_present k x w (st : Store) :
  k ∈ dom st ->
  exists h, st !! k = Some h /\ fill k x w st = (<[k := hist_fill h x w]> st, Ok tt).
Proof.
  intros [h E]%elem_of_dom. exists h. split; [exact E|]. unfold fill. now rewrite E.
Qed.

Lemma fill_not_key_error k x w (st : Store) k' :
  k ∈ dom st -> snd (fill k x w st) <> Raise (KeyError k').
Proof.
  intros H. destruct (fill_present k x w st H) as (h & _ & ->). discriminate.
Qed.

Lemma hoare_fill_other D k a k' x w :
  k' ∈ D -> k' <> k ->
  hoare (Keeps D k a) (fill k' x w) (fun r st => r = Ok tt /\ Keeps D k a st).
Proof.
  intros Hin Hne st [Hd He]. subst D.
  destruct (fill_present k' x w st Hin) as (h & E & ->). simpl.
  split; [reflexivity|]. split.
  - rewrite dom_insert_L. apply subseteq_union_1_L, singleton_subseteq_l, Hin.
  - unfold entries_of in *. now rewrite lookup_insert_ne.
Qed.

Lemma hoare_fill_same D k a x w :
  k ∈ D ->
  hoare (Keeps D k a) (fill k x w)
    (fun r st => r = Ok tt /\ Keeps D k (a ++ [(x, w)]) st).
Proof.
  intros Hin st [Hd He]. subst D.
  destruct (fill_present k x w st Hin) as (h & E & ->). simpl.
  split; [reflexivity|]. split.
  - rewrite dom_insert_L. apply subseteq_union_1_L, singleton_subseteq_l, Hin.
  - unfold entries_of in *. rewrite lookup_insert_eq. rewrite E in He. simpl.
    now rewrite He.
Qed.

(** *** The lepton sum *)

Lemma sum_leptons_from v (l : list Particle) :
  fold_left
    (fun v_p4 l =>
       if Qltb (p4_pt (p4 l)) 1 then v_p4
       else match v_p4 with
            | Some v => Some (p4_add v (p4 l))
            | None => Some (p4 l)
            end)
    l (Some v)
  = Some (fold_left p4_add
            (map p4 (List.filter (fun l => Qgeb (p4_pt (p4 l)) 1) l)) v).
Proof.
  revert v. induction l as [|x l IH]; intros v; simpl; [reflexivity|].
  rewrite (Qltb_negb_Qgeb (p4_pt (p4 x)) 1).
  destruct (Qgeb (p4_pt (p4 x)) 1); simpl; apply IH.
Qed.

Lemma sum_leptons_spec (l : list Particle) :
  sum_leptons l
  = p4_sum (map p4 (List.filter (fun l => Qgeb (p4_pt (p4 l)) 1) l)).
Proof.
  unfold sum_leptons. induction l as [|x l IH]; simpl; [reflexivity|].
  rewrite (Qltb_negb_Qgeb (p4_pt (p4 x)) 1).
  destruct (Qgeb (p4_pt (p4 x)) 1); simpl.
  - apply sum_leptons_from.
  - exact IH.
Qed.

Lemma in_windowb_spec v : in_windowb v = true <-> in_window v.
Proof.
  unfold in_windowb, in_window.
  rewrite andb_true_iff, !negb_true_iff, !orb_false_iff.
  rewrite !Qltb_ge, !Qgtb_le. tauto.
Qed.

(** *** Running the body on a store that has the sixteen histograms *)

Ltac in_names HD := apply HD, name_in_hist_names; cbn; tauto.

Ltac ne_key Hk :=
  first [ discriminate
        | let E := fresh "E" in destruct Hk as [E|E]; rewrite E; discriminate ].

Ltac skip_fill HD Hk :=
  eapply hoare_seq_ok;
  [ apply hoare_fill_other; [in_names HD | ne_key Hk] | ].

Ltac last_fill HD Hk :=
  apply hoare_fill_other; [in_names HD | ne_key Hk].

Section Body.
Variables (D : gset string) (k : string).
Hypothesis HD : hist_names ⊆ D.
Hypothesis Hk : k = "dilep_m" \/ k = "dilep_pt".

Lemma hoare_lepton_fills a wei (leptons : list Particle) :
  hoare (Keeps D k a)
    (for_each leptons (fun l =>
       fill "lep_eta" (p4_eta (p4 l)) wei ;;
       fill "lep_pt" (p4_pt (p4 l)) wei)%py)
    (fun r st => r = Ok tt /\ Keeps D k a st).
Proof.
  apply hoare_for_each_ok. intros l _.
  skip_fill HD Hk. last_fill HD Hk.
Qed.

Lemma hoare_Z_fills a wei (Zs : list Particle) :
  hoare (Keeps D k a)
    (for_each Zs (fun Z =>
       let zpt := p4_pt (p4 Z) in
       let zmass := p4_mass (p4 Z) in
       fill "z_mass" zmass wei ;;
       fill "z_pt" zpt wei)%py)
    (fun r st => r = Ok tt /\ Keeps D k a st).
Proof.
  apply hoare_for_each_ok. intros l _. cbv zeta.
  skip_fill HD Hk. last_fill HD Hk.
Qed.

Lemma hoare_jets_loop a wei (jets : list Particle) (j_p4 : option P4) :
  hoare (Keeps D k a) (jets_loop wei jets j_p4)
    (fun r st =>
       (exists o, r = Ok o /\ (o = None <-> jets = [] /\ j_p4 = None))
       /\ Keeps D k a st).
Proof.
  revert j_p4. induction jets as [|j jets IH]; intros j_p4; simpl.
  - apply hoare_ret. intros st Hst. split; [|exact Hst].
    exists j_p4. split; [reflexivity|]. tauto.
  - assert (Hrest : forall o, hoare (Keeps D k a) (jets_loop wei jets (Some o))
        (fun r st =>
           (exists o', r = Ok o' /\ (o' = None <-> j :: jets = [] /\ j_p4 = None))
           /\ Keeps D k a st)).
    { intros o. eapply hoare_conseq; [apply (IH (Some o)) | auto |].
      intros r st [(o' & -> & Ho') Hst]. split; [|exact Hst].
      exists o'. split; [reflexivity|]. split.
      - intros E. apply Ho' in E. destruct E; discriminate.
      - intros [E _]. discriminate. }
    skip_fill HD Hk. skip_fill HD Hk. destruct j_p4; apply Hrest.
Qed.

Lemma hoare_dijet_fills a wei (jets15 : list Particle) :
  hoare (Keeps D k a) (dijet_fills wei jets15)
    (fun r st => r = Ok tt /\ Keeps D k a st).
Proof.
  unfold dijet_fills. destruct jets15 as [|j1 [|j2 rest]].
  - apply hoare_ret. auto.
  - apply hoare_ret. auto.
  - cbv zeta. skip_fill HD Hk. skip_fill HD Hk. last_fill HD Hk.
Qed.

Lemma hoare_dilepton_fills a vmass vpt wei {B} (rest : M Store B) Q :
  hoare
    (Keeps D k (a ++ [(if String.eqb k "dilep_m" then vmass else vpt, wei)]))
    rest Q ->
  hoare (Keeps D k a)
    (fill "dilep_m" vmass wei ;; fill "dilep_pt" vpt wei ;; rest)%py Q.
Proof.
  intros Hrest. destruct Hk as [E|E]; rewrite E in *; simpl in Hrest.
  - eapply hoare_seq_ok; [apply hoare_fill_same; in_names HD|].
    skip_fill HD Hk. exact Hrest.
  - skip_fill HD Hk.
    eapply hoare_seq_ok; [apply hoare_fill_same; in_names HD|]. exact Hrest.
Qed.

Lemma hoare_selected_body a event leptons Zs jets jets15 vpt vmass :
  hoare (Keeps D k a) (selected_body event leptons Zs jets jets15 vpt vmass)
    (fun r st =>
       match weights event with
       | [] => r = Raise (IndexError "list index out of range") /\ Keeps D k a st
       | w :: _ =>
           r = match jets with
               | [] => Raise (AttributeError "NoneType" "pt")
               | _ :: _ => Ok tt
               end
           /\ Keeps D k
                (a ++ [(if String.eqb k "dilep_m" then vmass else vpt, w)]) st
       end).
Proof.
  unfold selected_body. destruct (weights event) as [|w ws]; simpl.
  - apply hoare_bind_lift_raise. auto.
  - apply hoare_bind_lift_ok.
    eapply hoare_seq_ok.
    { last_fill HD Hk. }
    apply hoare_dilepton_fills.
    set (a' := (a ++ [(if String.eqb k "dilep_m" then vmass else vpt, w)])%list).
    eapply hoare_seq_ok; [apply hoare_lepton_fills|].
    eapply hoare_seq_ok; [apply hoare_Z_fills|].
    eapply hoare_bind_ok
      with (R := fun o st => (o = None <-> jets = []) /\ Keeps D k a' st).
    { eapply hoare_conseq; [apply (hoare_jets_loop a') | auto |].
      intros r st [(o & -> & Ho) Hst]. exists o.
      split; [reflexivity|]. split; [tauto | assumption]. }
    intros o. apply hoare_assume. intros Ho.
    destruct jets as [|j jets'].
    + assert (o = None) as -> by (apply Ho; auto). simpl.
      intros st Hst. simpl. auto.
    + destruct o as [v|]; [|exfalso; destruct Ho as [Ho _]; discriminate (Ho eq_refl)].
      simpl. apply hoare_bind_ok with (R := fun j st => j = v /\ Keeps D k a' st).
      { apply hoare_ret. eauto. }
      intros j'. apply hoare_assume. intros ->.
      eapply hoare_seq_ok.
      { last_fill HD Hk. }
      eapply hoare_conseq; [apply (hoare_dijet_fills a') | auto | auto].
Qed.

(** each way through the body, with the result and what histogram [k] got *)
Lemma hoare_event_body a event :
  hoare (Keeps D k a) (event_body event)
    (fun r st =>
       if negb (length (leptons_of event) =? 2)%nat
       then r = Ok tt /\ Keeps D k a st
       else
         match dilepton_p4 event with
         | None => r = Raise (AttributeError "NoneType" "pt") /\ Keeps D k a st
         | Some v =>
             if in_windowb v then
               match weights event with
               | [] =>
                   r = Raise (IndexError "list index out of range")
                   /\ Keeps D k a st
               | w :: _ =>
                   r = match jets_of event with
                       | [] => Raise (AttributeError "NoneType" "pt")
                       | _ :: _ => Ok tt
                       end
                   /\ Keeps D k (a ++ [(dilep_obs k v, w)]) st
               end
             else r = Ok tt /\ Keeps D k a st
         end).
Proof.
  unfold event_body. cbv zeta.
  fold (leptons_of event). fold (jets_of event).
  skip_fill HD Hk. skip_fill HD Hk. skip_fill HD Hk.
  destruct (negb (length (leptons_of event) =? 2)%nat).
  { apply hoare_ret. auto. }
  rewrite sum_leptons_spec. fold (dilepton_p4 event).
  destruct (dilepton_p4 event) as [v|]; simpl.
  2:{ intros st Hst. simpl. auto. }
  apply hoare_bind_ok with (R := fun v' st => v' = v /\ Keeps D k a st).
  { apply hoare_ret. eauto. }
  intros v'. apply hoare_assume. intros ->.
  unfold in_windowb.
  destruct (Qltb (p4_pt v) 250 || Qgtb (p4_pt v) 400); simpl.
  { apply hoare_ret. auto. }
  destruct (Qltb (p4_mass v) 50 || Qgtb (p4_mass v) 130); simpl.
  { apply hoare_ret. auto. }
  eapply hoare_conseq; [apply (hoare_selected_body a) | auto |].
  intros r st H. unfold dilep_obs. exact H.
Qed.

End Body.

(** *** Consequences for one event and for the loop *)

Lemma event_body_dom event (st : Store) :
  hist_names ⊆ dom st -> dom (fst (event_body event st)) = dom st.
Proof.
  intros HD.
  pose proof (hoare_event_body (dom st) "dilep_m" HD (or_introl eq_refl)
                (entries_of st "dilep_m") event st (conj eq_refl eq_refl)) as H.
  destruct (negb (length (leptons_of event) =? 2)%nat); [apply H|].
  destruct (dilepton_p4 event) as [v|]; [|apply H].
  destruct (in_windowb v); [|apply H].
  destruct (weights event); apply H.
Qed.

Lemma event_body_result event (st : Store) :
  hist_names ⊆ dom st -> snd (event_body event st) = event_result event.
Proof.
  intros HD. unfold event_result.
  pose proof (hoare_event_body (dom st) "dilep_m" HD (or_introl eq_refl)
                (entries_of st "dilep_m") event st (conj eq_refl eq_refl)) as H.
  destruct (negb (length (leptons_of event) =? 2)%nat); [apply H|].
  destruct (dilepton_p4 event) as [v|]; [|apply H].
  destruct (in_windowb v); [|apply H].
  destruct (weights event); apply H.
Qed.

(** what the event adds to the dilepton histogram [k] *)
Lemma event_body_entries event (st : Store) k :
  hist_names ⊆ dom st ->
  k = "dilep_m" \/ k = "dilep_pt" ->
  entries_of (fst (event_body event st)) k
  = (entries_of st k ++
     (if negb (length (leptons_of event) =? 2)%nat then []
      else match dilepton_p4 event, weights event with
           | Some v, w :: _ => if in_windowb v then [(dilep_obs k v, w)] else []
           | _, _ => []
           end))%list.
Proof.
  intros HD Hk.
  pose proof (hoare_event_body (dom st) k HD Hk
                (entries_of st k) event st (conj eq_refl eq_refl)) as H.
  destruct (negb (length (leptons_of event) =? 2)%nat).
  { rewrite app_nil_r. apply H. }
  destruct (dilepton_p4 event) as [v|]; [|rewrite app_nil_r; apply H].
  destruct (in_windowb v).
  - destruct (weights event); [rewrite app_nil_r|]; apply H.
  - destruct (weights event); rewrite app_nil_r; apply H.
Qed.

Lemma event_completes_spec event :
  event_completes event = true <-> event_result event = Ok tt.
Proof.
  unfold event_completes, event_result.
  destruct (negb (length (leptons_of event) =? 2)%nat); simpl; [tauto|].
  destruct (dilepton_p4 event) as [v|]; [|split; discriminate].
  destruct (in_windowb v); simpl; [|tauto].
  destruct (weights event); simpl; [split; discriminate|].
  destruct (jets_of event); simpl; [split; discriminate | tauto].
Qed.

Lemma event_loop_spec reader (st : Store) :
  hist_names ⊆ dom st ->
  dom (fst (event_loop reader st)) = dom st
  /\ snd (event_loop reader st) = reader_result reader.
Proof.
  revert st. induction reader as [|[event|e] reader IH]; intros st HD; simpl.
  - auto.
  - pose proof (event_body_dom event st HD) as Hd.
    pose proof (event_body_result event st HD) as Hr.
    unfold bind. destruct (event_body event st) as [st' r]; simpl in *.
    rewrite <- Hr. destruct r as [[]|e].
    + destruct (IH st') as [IH1 IH2]; [now rewrite Hd|].
      rewrite IH1, IH2. auto.
    + auto.
  - auto.
Qed.

Lemma reader_result_completes reader :
  forallb item_completes reader = true <-> reader_result reader = Ok tt.
Proof.
  induction reader as [|[event|e] reader IH]; simpl.
  - tauto.
  - rewrite andb_true_iff, event_completes_spec, IH.
    destruct (event_result event) as [[]|e]; [tauto|].
    split; [intros [H _]; discriminate | discriminate].
  - split; discriminate.
Qed.

Lemma analyze_spec reader :
  match reader_result reader with
  | Ok _ => exists st, analyze reader = Ok st /\ dom st = hist_names
  | Raise e => analyze reader = Raise e
  end.
Proof.
  unfold analyze.
  destruct (event_loop_spec reader setup_histograms) as [Hd Hr].
  { now rewrite dom_setup_histograms. }
  destruct (event_loop reader setup_histograms) as [st r]; simpl in *.
  rewrite <- Hr. destruct r as [[]|e]; [|reflexivity].
  exists st. split; [reflexivity|]. now rewrite Hd, dom_setup_histograms.
Qed.

Lemma reader_result_app pre item post :
  forallb item_completes pre = true ->
  reader_result (pre ++ item :: post) = reader_result (item :: post).
Proof.
  induction pre as [|[event|e] pre IH]; simpl; intros H.
  - reflexivity.
  - apply andb_true_iff in H as [H1 H2].
    apply event_completes_spec in H1. rewrite H1. now apply IH.
  - discriminate.
Qed.

Lemma passes_dilepton_selection_spec event :
  passes_dilepton_selection event <->
  negb (length (leptons_of event) =? 2)%nat = false /\
  exists v, dilepton_p4 event = Some v /\ in_windowb v = true.
Proof.
  unfold passes_dilepton_selection.
  rewrite negb_false_iff, Nat.eqb_eq.
  split; intros [H (v & Hv & Hw)]; (split; [exact H|]); exists v;
    (split; [exact Hv|]); now apply in_windowb_spec.
Qed.

Lemma app_one_neq {A} (l : list A) x : (l ++ [x])%list <> l.
Proof.
  intros E. apply (f_equal (@length _)) in E.
  rewrite length_app in E. simpl in E. lia.
Qed.

(** an event either passes the selection with a weight and adds one entry
    to each dilepton histogram, or adds nothing to them *)
Lemma dilepton_fills_cases event (st : Store) :
  hist_names ⊆ dom st ->
  let st' := fst (event_body event st) in
  (exists v w ws,
     length (leptons_of event) = 2%nat
     /\ dilepton_p4 event = Some v
     /\ in_window v
     /\ weights event = w :: ws
     /\ entries_of st' "dilep_m"
        = (entries_of st "dilep_m" ++ [(p4_mass v, w)])%list
     /\ entries_of st' "dilep_pt"
        = (entries_of st "dilep_pt" ++ [(p4_pt v, w)])%list)
  \/ (~ (passes_dilepton_selection event /\ weights event <> [])
      /\ entries_of st' "dilep_m" = entries_of st "dilep_m"
      /\ entries_of st' "dilep_pt" = entries_of st "dilep_pt").
Proof.
  intros HD st'.
  pose proof (event_body_entries event st "dilep_m" HD (or_introl eq_refl)) as Hm.
  pose proof (event_body_entries event st "dilep_pt" HD (or_intror eq_refl)) as Hp.
  fold st' in Hm, Hp.
  rewrite passes_dilepton_selection_spec.
  destruct (negb (length (leptons_of event) =? 2)%nat) eqn:E2.
  { right. rewrite app_nil_r in Hm, Hp.
    split; [|split; assumption]. intros [[Habs _] _]. discriminate. }
  apply negb_false_iff, Nat.eqb_eq in E2.
  destruct (dilepton_p4 event) as [v|] eqn:Ev.
  2:{ right. rewrite app_nil_r in Hm, Hp.
      split; [|split; assumption]. intros [[_ (v & Hv & _)] _]. discriminate. }
  destruct (weights event) as [|w ws] eqn:Ew.
  { right. rewrite app_nil_r in Hm, Hp.
    split; [|split; assumption]. intros [_ Habs]. now apply Habs. }
  destruct (in_windowb v) eqn:Ewin.
  - left. exists v, w, ws. apply in_windowb_spec in Ewin.
    repeat (split; [first [assumption | reflexivity]|]). exact Hp.
  - right. rewrite app_nil_r in Hm, Hp.
    split; [|split; assumption].
    intros [[_ (v' & Hv' & Hw')] _]. injection Hv' as <-. congruence.
Qed.

(** *** The claims on [analyze] *)

(** C2, amended.  On a store holding the sixteen histograms, an event fills
    'dilep_m' and 'dilep_pt' exactly when it has exactly two charged
    leptons, the four-momentum sum over its leptons with pt >= 1 has pt in
    [250, 400] and mass in [50, 130], and the event carries at least one
    weight; the two fills are the mass and the pt of that sum, weighted by
    the first weight of the event; every other event leaves the two
    histograms as they were. *)
Theorem dilepton_fills_of_event event (st : Store) :
  hist_names ⊆ dom st ->
  let st' := fst (event_body event st) in
  (dilepton_filled st event <->
   passes_dilepton_selection event /\ weights event <> [])
  /\ (forall v w ws,
        length (leptons_of event) = 2%nat ->
        dilepton_p4 event = Some v ->
        in_window v ->
        weights event = w :: ws ->
        entries_of st' "dilep_m"
        = (entries_of st "dilep_m" ++ [(p4_mass v, w)])%list
        /\ entries_of st' "dilep_pt"
           = (entries_of st "dilep_pt" ++ [(p4_pt v, w)])%list)
  /\ (~ (passes_dilepton_selection event /\ weights event <> []) ->
      entries_of st' "dilep_m" = entries_of st "dilep_m"
      /\ entries_of st' "dilep_pt" = entries_of st "dilep_pt").
Proof.
  intros HD st'.
  destruct (dilepton_fills_cases event st HD) as
    [(v & w & ws & Hl & Hv & Hwin & Hw & Hm & Hp) | (Hn & Hm & Hp)];
    fold st' in Hm, Hp; unfold dilepton_filled; fold st'.
  - assert (Hsel : passes_dilepton_selection event /\ weights event <> []).
    { split; [split; eauto | rewrite Hw; discriminate]. }
    split; [|split].
    + rewrite Hm, Hp. split; [intros _; exact Hsel|].
      intros _. split; apply app_one_neq.
    + intros v' w' ws' _ Hv' _ Hw'.
      rewrite Hv in Hv'. rewrite Hw in Hw'.
      injection Hv' as <-. injection Hw' as <- <-. split; assumption.
    + intros Hno. contradiction.
  - split; [|split].
    + split; [|intros Hs; contradiction].
      intros [Hf _]. rewrite Hm in Hf. contradiction.
    + intros v w ws Hl Hv Hwin Hw. exfalso. apply Hn.
      split; [split; eauto | rewrite Hw; discriminate].
    + intros _. split; assumption.
Qed.

(** C7, amended.  Whenever [analyze] returns, the key set of the returned
    dictionary is exactly the 16 names of [setup_histograms]; it returns on
    every input whose events all run to the end of the body; the loop keeps
    the key set of the store, and no fill of the body misses its key. *)
Theorem analyze_key_set reader :
  size hist_names = 16%nat
  /\ (forall st, analyze reader = Ok st -> dom st = hist_names)
  /\ (forallb item_completes reader = true ->
      exists st, analyze reader = Ok st /\ dom st = hist_names)
  /\ (forall st : Store,
        hist_names ⊆ dom st -> dom (fst (event_loop reader st)) = dom st)
  /\ (forall event (st : Store) k,
        hist_names ⊆ dom st -> snd (event_body event st) <> Raise (KeyError k)).
Proof.
  pose proof (analyze_spec reader) as H.
  split; [apply size_hist_names|].
  split; [|split; [|split]].
  - intros st E. destruct (reader_result reader).
    + destruct H as (st' & E' & Hd). congruence.
    + congruence.
  - intros Hc. apply reader_result_completes in Hc. rewrite Hc in H. exact H.
  - intros st HD. apply event_loop_spec, HD.
  - intros event st k HD. rewrite event_body_result by exact HD.
    unfold event_result.
    destruct (negb _); [discriminate|].
    destruct (dilepton_p4 event) as [v|]; [|discriminate].
    destruct (in_windowb v); [|discriminate].
    destruct (weights event); [discriminate|].
    destruct (jets_of event); discriminate.
Qed.

(** C9, amended.  An event that passes the dilepton selection, carries at
    least one weight and contains no status-1 parton jet leaves [j_p4] at
    [None]; the 'jets_ht' fill then reads [pt] of [None], the body raises
    AttributeError, and so does [analyze] on any input that reaches the
    event: the event is not skipped. *)
Theorem jetless_selected_event_raises event (st : Store) :
  hist_names ⊆ dom st ->
  passes_dilepton_selection event ->
  weights event <> [] ->
  jets_of event = [] ->
  (forall wei (st0 : Store),
     jets_loop wei (jets_of event) None st0 = (st0, Ok None))
  /\ snd (event_body event st) = Raise (AttributeError "NoneType" "pt")
  /\ (forall pre post,
        forallb item_completes pre = true ->
        analyze (pre ++ Yield event :: post)
        = Raise (AttributeError "NoneType" "pt")).
Proof.
  intros HD Hsel Hw Hj.
  apply passes_dilepton_selection_spec in Hsel as [H2 (v & Hv & Hwin)].
  assert (Hres : event_result event = Raise (AttributeError "NoneType" "pt")).
  { unfold event_result. rewrite H2, Hv, Hwin, Hj.
    destruct (weights event); [contradiction|reflexivity]. }
  split; [|split].
  - intros wei st0. rewrite Hj. reflexivity.
  - rewrite event_body_result by exact HD. exact Hres.
  - intros pre post Hpre.
    pose proof (analyze_spec (pre ++ Yield event :: post)) as H.
    rewrite reader_result_app in H by exact Hpre. simpl in H.
    rewrite Hres in H. exact H.
Qed.

End AnalyzeFacts.
End LhePlotFacts.

(** *** The claims on [analyze] at concrete events *)

Module LhePlotExamples.
Import LhePlot LheExamples LhePlotFacts NumFacts.
Local Open Scope Q_scope.

Lemma setup_has_names : hist_names ⊆ dom (setup_histograms).
Proof. rewrite dom_setup_histograms. reflexivity. Qed.

Lemma electron_positron_in_window :
  in_window (mkCartesian 300 0 0 325).
Proof. apply in_windowb_spec. vm_compute. reflexivity. Qed.

Lemma passes_two_leptons (particles : list Particle) ws :
  leptons_of (mkEvent particles ws) = [electron; positron] ->
  passes_dilepton_selection (mkEvent particles ws).
Proof.
  intros E. unfold passes_dilepton_selection, dilepton_p4. rewrite E.
  split; [reflexivity|].
  exists (mkCartesian 300 0 0 325). split; [|apply electron_positron_in_window].
  vm_compute. reflexivity.
Qed.

(** [ev_full] passes the selection with weight 1/2 and is filled *)
Lemma dilepton_fills_of_event_witness :
  hist_names ⊆ dom setup_histograms
  /\ (dilepton_filled setup_histograms ev_full <->
      passes_dilepton_selection ev_full /\ weights ev_full <> []).
Proof.
  split; [exact setup_has_names|].
  apply (dilepton_fills_of_event ev_full setup_histograms setup_has_names).
Defined.

(** C2 as stated fails on [ev_no_weight]: two charged leptons whose sum has
    pt 300 and mass 125, but no weight; the body raises IndexError at
    [event.weights[0]] and the dilepton histograms get nothing. *)
Lemma dilepton_fills_counterexample :
  passes_dilepton_selection ev_no_weight
  /\ ~ dilepton_filled setup_histograms ev_no_weight
  /\ snd (event_body ev_no_weight setup_histograms)
     = Raise (IndexError "list index out of range")
  /\ ~ (dilepton_filled setup_histograms ev_no_weight <->
        passes_dilepton_selection ev_no_weight).
Proof.
  assert (Hp : passes_dilepton_selection ev_no_weight)
    by (apply passes_two_leptons; reflexivity).
  assert (Hn : ~ dilepton_filled setup_histograms ev_no_weight).
  { intros [Hf _]. apply Hf. vm_compute. reflexivity. }
  split; [exact Hp|]. split; [exact Hn|]. split.
  - vm_compute. reflexivity.
  - intros [_ Hiff]. apply Hn, Hiff, Hp.
Qed.

(** two events that run to the end: [analyze] returns the sixteen keys *)
Lemma analyze_key_set_witness :
  forallb item_completes [Yield ev_full; Yield ev_one_lepton] = true
  /\ exists st, analyze [Yield ev_full; Yield ev_one_lepton] = Ok st
                /\ dom st = hist_names.
Proof.
  split; [vm_compute; reflexivity|].
  apply (analyze_key_set [Yield ev_full; Yield ev_one_lepton]).
  vm_compute. reflexivity.
Defined.

(** C7 as stated fails on the input made of [ev_no_weight], and on the
    input made of [ev_no_jet]: [analyze] raises and returns no dictionary. *)
Lemma analyze_key_set_counterexample :
  analyze [Yield ev_no_weight] = Raise (IndexError "list index out of range")
  /\ analyze [Yield ev_no_jet] = Raise (AttributeError "NoneType" "pt")
  /\ ~ (exists st, analyze [Yield ev_no_weight] = Ok st)
  /\ ~ (exists st, analyze [Yield ev_no_jet] = Ok st).
Proof.
  assert (E1 : analyze [Yield ev_no_weight]
               = Raise (IndexError "list index out of range"))
    by (vm_compute; reflexivity).
  assert (E2 : analyze [Yield ev_no_jet]
               = Raise (AttributeError "NoneType" "pt"))
    by (vm_compute; reflexivity).
  split; [exact E1|]. split; [exact E2|]. split.
  - intros [st Hst]. rewrite E1 in Hst. discriminate.
  - intros [st Hst]. rewrite E2 in Hst. discriminate.
Qed.

(** [ev_no_jet]: selected, weighted, without parton *)
Lemma jetless_selected_event_raises_witness :
  (hist_names ⊆ dom setup_histograms
   /\ passes_dilepton_selection ev_no_jet
   /\ weights ev_no_jet <> []
   /\ jets_of ev_no_jet = [])
  /\ snd (event_body ev_no_jet setup_histograms)
     = Raise (AttributeError "NoneType" "pt").
Proof.
  assert (Hp : passes_dilepton_selection ev_no_jet)
    by (apply passes_two_leptons; reflexivity).
  assert (Hw : weights ev_no_jet <> []) by discriminate.
  split; [repeat split; [exact setup_has_names | apply Hp.. | exact Hw]|].
  apply (jetless_selected_event_raises ev_no_jet setup_histograms
           setup_has_names Hp Hw eq_refl).
Defined.

(** C9 as stated fails on [ev_no_jet_no_weight]: the event passes the
    dilepton selection and has no parton, but the body raises IndexError at
    [event.weights[0]], before [j_p4] is assigned and before 'jets_ht'. *)
Lemma jetless_selected_event_counterexample :
  passes_dilepton_selection ev_no_jet_no_weight
  /\ jets_of ev_no_jet_no_weight = []
  /\ snd (event_body ev_no_jet_no_weight setup_histograms)
     = Raise (IndexError "list index out of range")
  /\ snd (event_body ev_no_jet_no_weight setup_histograms)
     <> Raise (AttributeError "NoneType" "pt").
Proof.
  assert (E : snd (event_body ev_no_jet_no_weight setup_histograms)
              = Raise (IndexError "list index out of range"))
    by (vm_compute; reflexivity).
  split; [apply passes_two_leptons; reflexivity|].
  split; [reflexivity|]. split; [exact E|]. rewrite E. discriminate.
Qed.

End LhePlotExamples.

(** ** vplusjetPDFsyst.py: the selection *)

Module VPlusJetFacts.
Import VPlusJet PyFacts NumFacts.
Local Open Scope Q_scope.

(** *** Array operations *)

Lemma mask_select_map {A} (f : A -> bool) (l : list A) :
  mask_select l (map f l) = List.filter f l.
Proof.
  unfold mask_select. induction l as [|x l IH]; simpl; [reflexivity|].
  destruct (f x); simpl; now rewrite IH.
Qed.

Lemma mask_select_map2 {A B} (g : A -> B) (f : A -> bool) (l : list A) :
  mask_select (map g l) (map f l) = map g (List.filter f l).
Proof.
  unfold mask_select. induction l as [|x l IH]; simpl; [reflexivity|].
  destruct (f x); simpl; now rewrite IH.
Qed.

Lemma zip_with_map {A B C D} (f : B -> C -> D) (g : A -> B) (h : A -> C) l :
  zip_with f (map g l) (map h l) = map (fun x => f (g x) (h x)) l.
Proof. induction l as [|x l IH]; simpl; [reflexivity|]. now rewrite IH. Qed.

Lemma length_zip_with {A B C} (f : A -> B -> C) l1 l2 :
  length l1 = length l2 -> length (zip_with f l1 l2) = length l1.
Proof.
  revert l2. induction l1 as [|x l1 IH]; intros [|y l2] H; simpl in *;
    try discriminate; [reflexivity|]. f_equal. apply IH. lia.
Qed.

Lemma filter_filter {A} (f g : A -> bool) l :
  List.filter g (List.filter f l) = List.filter (fun x => f x && g x) l.
Proof.
  induction l as [|x l IH]; simpl; [reflexivity|].
  destruct (f x); simpl; [destruct (g x)|]; now rewrite IH.
Qed.

Section SelectionFacts.
Context {NV : NanoVectors}.

(** *** The nearest object *)

Lemma nearest_from a l b0 d0 :
  exists b d,
    fold_left
      (fun best b =>
         let d := delta_r a b in
         match best with
         | None => Some (b, d)
         | Some (_, d0) => if Qltb d d0 then Some (b, d) else best
         end)
      l (Some (b0, d0)) = Some (b, d)
    /\ d <= d0
    /\ (b = b0 /\ d = d0 \/ In b l /\ d = delta_r a b)
    /\ forall b', In b' l -> d <= delta_r a b'.
Proof.
  revert b0 d0. induction l as [|x l IH]; intros b0 d0; simpl.
  - exists b0, d0. split; [reflexivity|]. split; [apply Qle_refl|].
    split; [auto|]. intros b' [].
  - destruct (Qltb (delta_r a x) d0) eqn:E.
    + destruct (IH x (delta_r a x)) as (b & d & Hf & Hle & Hin & Hmin).
      exists b, d. split; [exact Hf|]. apply Qltb_lt in E.
      split; [eapply Qle_trans; [exact Hle | apply Qlt_le_weak, E]|].
      split.
      * right. destruct Hin as [[-> ->] | [Hin ->]]; auto.
      * intros b' [<- | Hb']; [exact Hle | now apply Hmin].
    + destruct (IH b0 d0) as (b & d & Hf & Hle & Hin & Hmin).
      exists b, d. split; [exact Hf|]. apply Qltb_ge in E.
      split; [exact Hle|]. split.
      * destruct Hin as [[-> ->] | [Hin ->]]; auto.
      * intros b' [<- | Hb']; [eapply Qle_trans; eassumption | now apply Hmin].
Qed.

Lemma nearest_nil a : nearest a [] = None.
Proof. reflexivity. Qed.

Lemma nearest_cons a x l :
  exists b d,
    nearest a (x :: l) = Some (b, d)
    /\ In b (x :: l) /\ d = delta_r a b
    /\ forall b', In b' (x :: l) -> d <= delta_r a b'.
Proof.
  unfold nearest. simpl.
  destruct (nearest_from a l x (delta_r a x)) as (b & d & Hf & Hle & Hin & Hmin).
  exists b, d. split; [exact Hf|]. split; [|split].
  - destruct Hin as [[-> _] | [Hin _]]; [now left | now right].
  - destruct Hin as [[-> ->] | [_ ->]]; reflexivity.
  - intros b' [<- | Hb']; [exact Hle | now apply Hmin].
Qed.

Lemma nearest_None a l : nearest a l = None <-> l = [].
Proof.
  destruct l as [|x l]; [split; reflexivity|].
  destruct (nearest_cons a x l) as (b & d & E & _). rewrite E.
  split; discriminate.
Qed.

Lemma nearest_Some a l b d :
  nearest a l = Some (b, d) ->
  In b l /\ d = delta_r a b /\ forall b', In b' l -> d <= delta_r a b'.
Proof.
  destruct l as [|x l]; [discriminate|].
  destruct (nearest_cons a x l) as (b1 & d1 & E & H). rewrite E.
  intros [= <- <-]. exact H.
Qed.

(** the mask of [isClean] for one object *)
Lemma isClean_lookup obj_A obj_B drmin i a :
  obj_A !! i = Some a ->
  isClean obj_A obj_B drmin !! i
  = Some (match nearest a obj_B with
          | Some (_, d) => Qgtb d drmin
          | None => true
          end).
Proof.
  intros H. unfold isClean. rewrite list_lookup_fmap, H. simpl.
  destruct (nearest a obj_B) as [[b d]|]; reflexivity.
Qed.

(** C10.  [isClean(obj_A, obj_B, drmin)] has one answer per object of
    [obj_A]; the answer is [True] exactly when the distance to the nearest
    object of [obj_B] is greater than [drmin] or there is no nearest object;
    the nearest object is one of [obj_B] at the least distance, and there is
    none only when [obj_B] is empty, in which case every object is clean. *)
Theorem isClean_nearest obj_A obj_B drmin :
  length (isClean obj_A obj_B drmin) = length obj_A
  /\ (forall i a,
        obj_A !! i = Some a ->
        exists c,
          isClean obj_A obj_B drmin !! i = Some c
          /\ (c = true <->
              nearest a obj_B = None
              \/ exists b d, nearest a obj_B = Some (b, d) /\ drmin < d))
  /\ (forall a b d,
        nearest a obj_B = Some (b, d) ->
        In b obj_B /\ d = delta_r a b
        /\ forall b', In b' obj_B -> d <= delta_r a b')
  /\ (forall a, nearest a obj_B = None <-> obj_B = [])
  /\ (obj_B = [] -> isClean obj_A obj_B drmin = map (fun _ => true) obj_A).
Proof.
  split; [unfold isClean; apply length_map|].
  split; [|split; [|split]].
  - intros i a Hi. rewrite (isClean_lookup _ _ _ _ _ Hi).
    eexists. split; [reflexivity|].
    destruct (nearest a obj_B) as [[b d]|].
    + rewrite Qgtb_gt. split.
      * intros Hd. right. eauto.
      * intros [Habs | (b' & d' & [= <- <-] & Hd)]; [discriminate | exact Hd].
    + split; auto.
  - intros a b d. apply nearest_Some.
  - intros a. apply nearest_None.
  - intros ->. reflexivity.
Qed.

(** *** Clean jets *)

Lemma clean_mask_spec a obj_B drmin :
  match nearest a obj_B with
  | Some (_, d) => Qgtb d drmin
  | None => true
  end = true
  <-> forall b, In b obj_B -> drmin < delta_r a b.
Proof.
  destruct (nearest a obj_B) as [[b d]|] eqn:E.
  - apply nearest_Some in E as (Hin & -> & Hmin). rewrite Qgtb_gt. split.
    + intros Hd b' Hb'. eapply Qlt_le_trans; [exact Hd | now apply Hmin].
    + intros H. now apply H.
  - apply nearest_None in E as ->. split; [intros _ b [] | reflexivity].
Qed.

Lemma isClean_map obj_A obj_B drmin :
  isClean obj_A obj_B drmin
  = map (fun a => match nearest a obj_B with
                  | Some (_, d) => Qgtb d drmin
                  | None => true
                  end) obj_A.
Proof.
  unfold isClean. apply map_ext. intros a.
  destruct (nearest a obj_B) as [[b d]|]; reflexivity.
Qed.

Lemma good_jets_filter e :
  good_jets e
  = List.filter
      (fun j =>
         tight_jet j
         && (match nearest (jet_kin j) (map el_kin (good_electrons e)) with
             | Some (_, d) => Qgtb d 0.4
             | None => true
             end
             && match nearest (jet_kin j) (map mu_kin (good_muons e)) with
                | Some (_, d) => Qgtb d 0.4
                | None => true
                end))
      (ev_Jet e).
Proof.
  unfold good_jets, j_isclean. rewrite !isClean_map, !map_map.
  rewrite zip_with_map, mask_select_map. unfold jets. apply filter_filter.
Qed.

Lemma good_jet_spec e j :
  tight_jet j
  && (match nearest (jet_kin j) (map el_kin (good_electrons e)) with
      | Some (_, d) => Qgtb d 0.4
      | None => true
      end
      && match nearest (jet_kin j) (map mu_kin (good_muons e)) with
         | Some (_, d) => Qgtb d 0.4
         | None => true
         end) = true
  <-> clean_tight_jet e j.
Proof.
  unfold clean_tight_jet, clean_jet, tight_jet.
  rewrite !andb_true_iff, !clean_mask_spec, Qgtb_gt, Qltb_lt.
  split.
  - intros [[[H1 H2] H3] [H4 H5]]. repeat split; try assumption.
    + intros el Hel. apply H4, in_map, Hel.
    + intros m Hm. apply H5, in_map, Hm.
  - intros (H1 & H2 & H3 & H4 & H5). repeat split; try assumption.
    + intros b (el & <- & Hel)%in_map_iff. now apply H4.
    + intros b (m & <- & Hm)%in_map_iff. now apply H5.
Qed.

(** *** Counting in a filtered list *)

Lemma filter_length_two {A} (f : A -> bool) (l : list A) :
  (2 <= length (List.filter f l))%nat <->
  exists i j a b,
    (i < j)%nat /\ l !! i = Some a /\ l !! j = Some b
    /\ f a = true /\ f b = true.
Proof.
  assert (H1 : forall l : list A,
             (1 <= length (List.filter f l))%nat <->
             exists j b, l !! j = Some b /\ f b = true).
  { clear l. induction l as [|x l IH]; simpl.
    - split; [lia | intros (j & b & Hj & _); discriminate].
    - destruct (f x) eqn:E; simpl.
      + split; [|lia]. intros _. exists 0%nat, x. auto.
      + rewrite IH. split.
        * intros (j & b & Hj & Hb). exists (S j), b. auto.
        * intros ([|j] & b & Hj & Hb); simpl in Hj.
          -- injection Hj as <-. congruence.
          -- eauto. }
  induction l as [|x l IH]; simpl.
  - split; [lia | intros (i & j & a & b & _ & Hi & _); discriminate].
  - destruct (f x) eqn:E; simpl.
    + split.
      * intros H. assert (H' : (1 <= length (List.filter f l))%nat) by lia.
        apply H1 in H' as (j & b & Hj & Hb).
        exists 0%nat, (S j), x, b. repeat split; auto; lia.
      * intros ([|i] & j & a & b & Hij & Hi & Hj & Ha & Hb).
        -- destruct j as [|j]; [lia|]. simpl in Hj.
           assert (1 <= length (List.filter f l))%nat by (apply H1; eauto). lia.
        -- destruct j as [|j]; [lia|]. simpl in Hi, Hj.
           assert (1 <= length (List.filter f l))%nat by (apply H1; eauto). lia.
    + rewrite IH. split.
      * intros (i & j & a & b & Hij & Hi & Hj & Ha & Hb).
        exists (S i), (S j), a, b. repeat split; auto; lia.
      * intros ([|i] & j & a & b & Hij & Hi & Hj & Ha & Hb).
        -- simpl in Hi. injection Hi as <-. congruence.
        -- destruct j as [|j]; [lia|]. simpl in Hi, Hj.
           exists i, j, a, b. repeat split; auto; lia.
Qed.

Lemma filter_length_zero {A} (f : A -> bool) (l : list A) :
  length (List.filter f l) = 0%nat <->
  forall j b, l !! j = Some b -> f b = false.
Proof.
  induction l as [|x l IH]; simpl.
  - split; [intros _ j b Hj; discriminate | reflexivity].
  - destruct (f x) eqn:E; simpl.
    + split; [discriminate|]. intros H. specialize (H 0%nat x eq_refl). congruence.
    + rewrite IH. split.
      * intros H [|j] b Hj; simpl in Hj; [congruence | eauto].
      * intros H j b Hj. apply (H (S j) b Hj).
Qed.

Lemma filter_length_one {A} (f : A -> bool) (l : list A) :
  length (List.filter f l) = 1%nat <->
  exists j b,
    l !! j = Some b /\ f b = true
    /\ forall j' b', l !! j' = Some b' -> f b' = true -> j' = j.
Proof.
  induction l as [|x l IH]; simpl.
  - split; [discriminate | intros (j & b & Hj & _); discriminate].
  - destruct (f x) eqn:E; simpl.
    + split.
      * intros H. assert (H0 : length (List.filter f l) = 0%nat) by lia.
        exists 0%nat, x. split; [reflexivity|]. split; [exact E|].
        intros [|j'] b' Hj' Hb'; [reflexivity|]. simpl in Hj'.
        rewrite filter_length_zero in H0. specialize (H0 j' b' Hj'). congruence.
      * intros (j & b & Hj & Hb & Huniq).
        pose proof (Huniq 0%nat x eq_refl E) as <-.
        f_equal. apply filter_length_zero. intros j' b' Hj'.
        destruct (f b') eqn:Eb; [|reflexivity].
        specialize (Huniq (S j') b' Hj' Eb). discriminate.
    + rewrite IH. split.
      * intros (j & b & Hj & Hb & Huniq). exists (S j), b.
        split; [exact Hj|]. split; [exact Hb|].
        intros [|j'] b' Hj' Hb'; simpl in Hj'; [congruence|].
        f_equal. eauto.
      * intros ([|j] & b & Hj & Hb & Huniq); simpl in Hj; [congruence|].
        exists j, b. split; [exact Hj|]. split; [exact Hb|].
        intros j' b' Hj' Hb'. specialize (Huniq (S j') b' Hj' Hb'). lia.
Qed.

Lemma filter_map_length {A B} (f : B -> bool) (g : A -> B) (l : list A) :
  length (List.filter f (map g l)) = length (List.filter (fun x => f (g x)) l).
Proof.
  induction l as [|x l IH]; simpl; [reflexivity|].
  destruct (f (g x)); simpl; now rewrite IH.
Qed.

(** *** Counting the pairs that pass a test *)

Section Pairs.
Context {A : Type} (P : A * A -> bool).

Lemma passes_at_cons x l i j :
  passes_at P (x :: l) i j <->
  (i = 0%nat /\ exists j0 y, j = S j0 /\ l !! j0 = Some y /\ P (x, y) = true)
  \/ (exists i0 j0, i = S i0 /\ j = S j0 /\ passes_at P l i0 j0).
Proof.
  unfold passes_at. split.
  - intros [Hij (a & b & Hi & Hj & HP)].
    destruct j as [|j0]; [lia|]. simpl in Hj. destruct i as [|i0]; simpl in Hi.
    + injection Hi as <-. left. eauto 10.
    + right. exists i0, j0. repeat split; try reflexivity; [lia|]. eauto.
  - intros [[-> (j0 & y & -> & Hj & HP)] | (i0 & j0 & -> & -> & Hij & a & b & Hi & Hj & HP)].
    + split; [lia|]. exists x, y. auto.
    + split; [lia|]. exists a, b. auto.
Qed.

Lemma combinations2_length_filter x l :
  length (List.filter P (combinations2 (x :: l)))
  = (length (List.filter (fun y => P (x, y)) l)
     + length (List.filter P (combinations2 l)))%nat.
Proof.
  simpl. rewrite List.filter_app, length_app, filter_map_length. reflexivity.
Qed.

Lemma combinations2_none l :
  length (List.filter P (combinations2 l)) = 0%nat <->
  forall i j, ~ passes_at P l i j.
Proof.
  induction l as [|x l IH].
  - simpl. split; [|reflexivity].
    intros _ i j [_ (a & b & Hi & _)]. discriminate.
  - rewrite combinations2_length_filter. split.
    + intros H i j Hp.
      assert (Ha : length (List.filter (fun y => P (x, y)) l) = 0%nat) by lia.
      assert (Hb : length (List.filter P (combinations2 l)) = 0%nat) by lia.
      apply passes_at_cons in Hp
        as [[-> (j0 & y & -> & Hj & HP)] | (i0 & j0 & -> & -> & Hp)].
      * rewrite filter_length_zero in Ha. specialize (Ha j0 y Hj).
        simpl in Ha. congruence.
      * rewrite IH in Hb. exact (Hb i0 j0 Hp).
    + intros H.
      assert (Ha : length (List.filter (fun y => P (x, y)) l) = 0%nat).
      { apply filter_length_zero. intros j y Hj.
        destruct (P (x, y)) eqn:E; [|reflexivity]. exfalso.
        apply (H 0%nat (S j)), passes_at_cons. left. eauto 10. }
      assert (Hb : length (List.filter P (combinations2 l)) = 0%nat).
      { apply IH. intros i j Hp. apply (H (S i) (S j)), passes_at_cons.
        right. eauto. }
      lia.
Qed.

Lemma combinations2_one l :
  length (List.filter P (combinations2 l)) = 1%nat <->
  exists i j,
    passes_at P l i j
    /\ forall i' j', passes_at P l i' j' -> i' = i /\ j' = j.
Proof.
  induction l as [|x l IH].
  - simpl. split; [discriminate|].
    intros (i & j & [_ (a & b & Hi & _)] & _). discriminate.
  - rewrite combinations2_length_filter. split.
    + intros H.
      destruct (length (List.filter (fun y => P (x, y)) l)) as [|[|n]] eqn:Ea;
        [| |lia].
      * assert (Hb : length (List.filter P (combinations2 l)) = 1%nat) by lia.
        apply IH in Hb as (i & j & Hp & Huniq).
        exists (S i), (S j). split; [apply passes_at_cons; right; eauto|].
        intros i' j' Hp'. apply passes_at_cons in Hp'
          as [[-> (j0 & y & -> & Hj & HP)] | (i0 & j0 & -> & -> & Hp')].
        -- rewrite filter_length_zero in Ea. specialize (Ea j0 y Hj).
           simpl in Ea. congruence.
        -- destruct (Huniq i0 j0 Hp') as [-> ->]. auto.
      * assert (Hb : length (List.filter P (combinations2 l)) = 0%nat) by lia.
        apply filter_length_one in Ea as (j & y & Hj & HP & Huniq).
        exists 0%nat, (S j). split; [apply passes_at_cons; left; eauto 10|].
        intros i' j' Hp'. apply passes_at_cons in Hp'
          as [[-> (j0 & y0 & -> & Hj0 & HP0)] | (i0 & j0 & -> & -> & Hp')].
        -- rewrite (Huniq j0 y0 Hj0 HP0). auto.
        -- rewrite combinations2_none in Hb. destruct (Hb i0 j0 Hp').
    + intros (i & j & Hp & Huniq).
      apply passes_at_cons in Hp
        as [[-> (j0 & y & -> & Hj & HP)] | (i0 & j0 & -> & -> & Hp)].
      * assert (Ha : length (List.filter (fun y => P (x, y)) l) = 1%nat).
        { apply filter_length_one. exists j0, y. split; [exact Hj|].
          split; [exact HP|]. intros j' y' Hj' HP'.
          assert (Hp' : passes_at P (x :: l) 0 (S j'))
            by (apply passes_at_cons; left; eauto 10).
          destruct (Huniq _ _ Hp') as [_ E]. lia. }
        assert (Hb : length (List.filter P (combinations2 l)) = 0%nat).
        { apply combinations2_none. intros i' j' Hp'.
          assert (Hp'' : passes_at P (x :: l) (S i') (S j'))
            by (apply passes_at_cons; right; eauto).
          destruct (Huniq _ _ Hp'') as [E _]. discriminate. }
        lia.
      * assert (Ha : length (List.filter (fun y => P (x, y)) l) = 0%nat).
        { apply filter_length_zero. intros j' y' Hj'.
          destruct (P (x, y')) eqn:E; [|reflexivity]. exfalso.
          assert (Hp' : passes_at P (x :: l) 0 (S j'))
            by (apply passes_at_cons; left; eauto 10).
          destruct (Huniq _ _ Hp') as [E' _]. discriminate. }
        assert (Hb : length (List.filter P (combinations2 l)) = 1%nat).
        { apply IH. exists i0, j0. split; [exact Hp|]. intros i' j' Hp'.
          assert (Hp'' : passes_at P (x :: l) (S i') (S j'))
            by (apply passes_at_cons; right; eauto).
          destruct (Huniq _ _ Hp'') as [E1 E2]. split; lia. }
        lia.
Qed.

End Pairs.

(** *** The two halves of the selection *)

Lemma good_pair_at_spec l i j :
  good_pair_at l i j <-> passes_at (fun d => opposites d && limits d) l i j.
Proof.
  unfold good_pair_at, passes_at.
  assert (Hd : forall m1 m2,
             opposites (m1, m2) && limits (m1, m2) = true <->
             mu_charge m1 <> mu_charge m2
             /\ 60 <= lv_mass (lv_add (mu_kin m1) (mu_kin m2))
             /\ lv_mass (lv_add (mu_kin m1) (mu_kin m2)) < 120).
  { intros m1 m2. unfold opposites, limits, dimuon_p4. simpl.
    rewrite !andb_true_iff, negb_true_iff, Z.eqb_neq, Qgeb_ge, Qltb_lt. tauto. }
  split; intros [Hij (m1 & m2 & Hi & Hj & H)]; (split; [exact Hij|]);
    exists m1, m2; (split; [exact Hi|]); (split; [exact Hj|]).
  - apply Hd. exact H.
  - apply Hd in H. exact H.
Qed.

Lemma two_lep_spec e : two_lep e = true <-> exactly_one_good_dimuon e.
Proof.
  unfold two_lep, good_dimuons, exactly_one_good_dimuon.
  rewrite Nat.eqb_eq, combinations2_one.
  split; intros (i & j & Hp & Huniq); exists i, j;
    (split; [now apply good_pair_at_spec|]);
    intros i' j' Hp'; apply Huniq; now apply good_pair_at_spec.
Qed.

Lemma two_jets_spec e : two_jets e = true <-> at_least_two_clean_tight_jets e.
Proof.
  unfold two_jets, at_least_two_clean_tight_jets.
  rewrite Nat.leb_le, good_jets_filter, filter_length_two.
  split; intros (i & j & a & b & Hij & Hi & Hj & Ha & Hb); exists i, j, a, b;
    repeat (split; [assumption|]); split; now apply good_jet_spec.
Qed.

Lemma full_selection_iff e :
  full_selection e = true <->
  exactly_one_good_dimuon e /\ at_least_two_clean_tight_jets e.
Proof.
  unfold full_selection.
  now rewrite andb_true_iff, two_lep_spec, two_jets_spec.
Qed.

End SelectionFacts.
End VPlusJetFacts.

(** ** vplusjetPDFsyst.py: the fills of [process] *)

Module ProcessFacts.
Import VPlusJet PyFacts NumFacts VPlusJetFacts.
Local Open Scope Q_scope.

(** *** Lists *)

Lemma combine_map {A B C} (f : A -> B) (g : A -> C) (l : list A) :
  combine (map f l) (map g l) = map (fun x => (f x, g x)) l.
Proof. induction l as [|x l IH]; simpl; [reflexivity|]. now rewrite IH. Qed.

Lemma concat_map_singleton {A B} (f : A -> list B) (d : B) (l : list A) :
  (forall x, In x l -> length (f x) = 1%nat) ->
  concat (map f l) = map (fun x => hd d (f x)) l.
Proof.
  induction l as [|x l IH]; intros H; simpl; [reflexivity|].
  rewrite IH by (intros y Hy; apply H; now right).
  specialize (H x (or_introl eq_refl)).
  destruct (f x) as [|b [|c r]]; simpl in *; try discriminate. reflexivity.
Qed.

Lemma mapM_map {A B C} (f : B -> result C) (g : A -> B) (l : list A) :
  mapM f (map g l) = mapM (fun x => f (g x)) l.
Proof.
  induction l as [|x l IH]; simpl; [reflexivity|]. now rewrite IH.
Qed.

Lemma subscript_nth {A} (l : list A) i d :
  (i < length l)%nat -> subscript l i = Ok (nth i l d).
Proof.
  intros H. unfold subscript.
  destruct (nth_error l i) as [a|] eqn:E.
  - now rewrite (nth_error_nth _ _ d E).
  - apply nth_error_None in E. lia.
Qed.

Lemma subscript_short {A} (l : list A) i :
  (length l <= i)%nat -> subscript l i = Raise (IndexError "list index out of range").
Proof.
  intros H. unfold subscript.
  destruct (nth_error l i) as [a|] eqn:E; [|reflexivity].
  assert (nth_error l i <> None) as Hn by congruence.
  apply nth_error_Some in Hn. lia.
Qed.

(** [array[:, i]]: the element of index [i] of every row, or an IndexError
    when a row is too short *)
Lemma mapM_subscript {A B} (f : A -> list B) i d (l : list A) :
  mapM (fun x => subscript (f x) i) l
  = if forallb (fun x => (i <? length (f x))%nat) l
    then Ok (map (fun x => nth i (f x) d) l)
    else Raise (IndexError "list index out of range").
Proof.
  induction l as [|x l IH]; simpl; [reflexivity|].
  destruct (i <? length (f x))%nat eqn:E; simpl.
  - apply Nat.ltb_lt in E. rewrite (subscript_nth _ _ d E). simpl.
    rewrite IH. destruct (forallb _ l); reflexivity.
  - apply Nat.ltb_ge in E. now rewrite (subscript_short _ _ E).
Qed.

Section Fills.
Context {NV : NanoVectors}.

(** *** The selected rows *)

Lemma selected_vpt_length e : full_selection e = true -> length (vpt e) = 1%nat.
Proof.
  unfold full_selection, two_lep, vpt. intros [H _]%andb_true_iff.
  rewrite length_map. now apply Nat.eqb_eq.
Qed.

Lemma selected_vmass_length e : full_selection e = true -> length (vmass e) = 1%nat.
Proof.
  unfold full_selection, two_lep, vmass. intros [H _]%andb_true_iff.
  rewrite length_map. now apply Nat.eqb_eq.
Qed.

Lemma selected_two_jets e :
  full_selection e = true -> (2 <= length (good_jets e))%nat.
Proof.
  unfold full_selection, two_jets. intros [_ H]%andb_true_iff.
  now apply Nat.leb_le.
Qed.

Lemma selected_events_In events e :
  In e (selected_events events) -> full_selection e = true.
Proof. unfold selected_events. now intros [_ H]%filter_In. Qed.

Lemma selected_jets_subscript events i :
  (i < 2)%nat ->
  mapM (fun js => subscript js i) (map good_jets (selected_events events))
  = Ok (map (fun e => nth i (good_jets e) no_jet) (selected_events events)).
Proof.
  intros Hi. rewrite mapM_map, (mapM_subscript good_jets i no_jet).
  replace (forallb _ _) with true; [reflexivity|].
  symmetry. apply forallb_forall. intros e He%selected_events_In.
  apply Nat.ltb_lt. pose proof (selected_two_jets e He). lia.
Qed.

(** *** Statements of [process] on a store that has the histograms *)

Lemma hoare_hfill D k a name dataset cat values weights :
  name ∈ D ->
  length (match weights with
          | Some ws => ws
          | None => map (fun _ => 1) values
          end) = length values ->
  hoare (CKeeps D k a) (hfill name dataset cat values weights)
    (fun r out =>
       r = Ok tt /\
       CKeeps D k
         (a ++ if String.eqb k name
               then map (fun vw => mkCEntry dataset cat (fst vw) (snd vw))
                        (combine values
                           (match weights with
                            | Some ws => ws
                            | None => map (fun _ => 1) values
                            end))
               else []) out).
Proof.
  intros Hin Hlen out [Hd Ha]. subst D.
  apply elem_of_dom in Hin as [h Hh].
  unfold hfill. rewrite Hh, Hlen, Nat.eqb_refl. simpl.
  split; [reflexivity|]. split.
  - cbn [hists fst]. rewrite dom_insert_L.
    apply subseteq_union_1_L, singleton_subseteq_l.
    apply elem_of_dom. eauto.
  - unfold centries in *. simpl.
    destruct (String.eqb_spec k name) as [->|Hne].
    + rewrite lookup_insert_eq. rewrite Hh in Ha. simpl. now rewrite Ha.
    + rewrite lookup_insert_ne by congruence. now rewrite app_nil_r.
Qed.

Lemma hoare_cutflow_add D k a dataset key n :
  hoare (CKeeps D k a) (cutflow_add dataset key n)
    (fun r out => r = Ok tt /\ CKeeps D k a out).
Proof. intros out H. split; [reflexivity|exact H]. Qed.

Lemma hoare_sumw_add D k a dataset x :
  hoare (CKeeps D k a) (sumw_add dataset x)
    (fun r out => r = Ok tt /\ CKeeps D k a out).
Proof. intros out H. split; [reflexivity|exact H]. Qed.

(** reading a list of branches: the first absent one raises *)
Lemma hoare_require_all {B} (P : Output -> Prop) events bs
    (rest : M Output B) Q :
  match find (fun b => existsb (String.eqb b) (absent events)) bs with
  | Some b => forall out, P out -> Q (Raise (AttributeError "NanoEvents" b)) out
  | None => hoare P rest Q
  end ->
  hoare P (for_each bs (require events) ;; rest)%py Q.
Proof.
  induction bs as [|b bs IH]; simpl; intros H.
  - exact H.
  - unfold require at 1.
    destruct (existsb (String.eqb b) (absent events)).
    + intros out Hout. apply H, Hout.
    + intros out Hout. apply (IH H out Hout).
Qed.

Lemma hoare_require {B} (P : Output -> Prop) events b (rest : M Output B) Q :
  (if existsb (String.eqb b) (absent events)
   then forall out, P out -> Q (Raise (AttributeError "NanoEvents" b)) out
   else hoare P rest Q) ->
  hoare P (require events b ;; rest)%py Q.
Proof.
  intros H. unfold require.
  destruct (existsb (String.eqb b) (absent events)).
  - intros out Hout. apply H, Hout.
  - exact H.
Qed.

(** *** The loop over the PDF indices *)

Lemma hoare_pdf_steps D k dataset sel ps : forall a,
  "dilep_pt" ∈ D ->
  hoare (CKeeps D k a)
    (for_each ps (fun p =>
       (let* pdf := lift (mapM (fun e => subscript (ev_LHEPdfWeight e) p) sel) in
        let PdfWei := map (Qmult 2) pdf in
        hfill "dilep_pt" dataset (Some (pretty p))
          (map (fun e => Val (dimuon_pt e)) sel)
          (Some (zip_with Qmult (map ev_genWeight sel) PdfWei)))%py))
    (fun r out =>
       if forallb (fun p =>
                     forallb (fun e => (p <? length (ev_LHEPdfWeight e))%nat) sel)
                  ps
       then
         r = Ok tt /\
         CKeeps D k
           (a ++ if String.eqb k "dilep_pt"
                 then concat
                        (map (fun p =>
                                map (fun e =>
                                       mkCEntry dataset (Some (pretty p))
                                         (Val (dimuon_pt e))
                                         (ev_genWeight e * (2 * pdf_weight p e)))
                                    sel)
                             ps)
                 else []) out
       else r = Raise (IndexError "list index out of range")).
Proof.
  induction ps as [|p ps IH]; intros a HD; simpl.
  - apply hoare_ret. intros out Hout. split; [reflexivity|].
    destruct (String.eqb k "dilep_pt"); now rewrite app_nil_r.
  - rewrite (mapM_subscript ev_LHEPdfWeight p 0 sel).
    apply hoare_bind_assoc.
    destruct (forallb (fun e => (p <? length (ev_LHEPdfWeight e))%nat) sel);
      cbn [andb].
    2:{ apply hoare_bind_lift_raise. reflexivity. }
    apply hoare_bind_lift_ok. cbv zeta.
    eapply hoare_seq_ok.
    { apply hoare_hfill; [exact HD|].
      rewrite map_map, zip_with_map, !length_map. reflexivity. }
    eapply hoare_conseq; [apply IH; exact HD | intros ? Hx; exact Hx |].
    intros r out. cbv beta.
    destruct (forallb _ ps); [|auto].
    intros [-> Hk]. split; [reflexivity|].
    rewrite map_map, zip_with_map, combine_map, map_map in Hk. simpl in Hk.
    unfold pdf_weight.
    destruct (String.eqb k "dilep_pt"); simpl.
    + rewrite <- app_assoc in Hk. exact Hk.
    + rewrite !app_nil_r in *. exact Hk.
Qed.

Lemma pdf_lengths_seq (sel : list Event) n :
  forallb (fun p =>
             forallb (fun e => (p <? length (ev_LHEPdfWeight e))%nat) sel)
          (seq 0 n)
  = forallb (fun e => (n <=? length (ev_LHEPdfWeight e))%nat) sel.
Proof.
  apply eq_true_iff_eq. rewrite !forallb_forall. split.
  - intros H e He. apply Nat.leb_le.
    destruct n as [|n]; [lia|].
    assert (Hn : In n (seq 0 (S n))) by (apply in_seq; lia).
    specialize (H n Hn). rewrite forallb_forall in H.
    specialize (H e He). apply Nat.ltb_lt in H. lia.
  - intros H p Hp%in_seq. apply forallb_forall. intros e He.
    specialize (H e He). apply Nat.leb_le in H. apply Nat.ltb_lt. lia.
Qed.

(** *** The whole of [process] *)

Ltac close_raise :=
  cbv beta iota; intros ? _;
  split; [reflexivity | let Habs := fresh in
                        intros Habs; cbv beta iota in Habs; discriminate Habs].

Ltac step_require :=
  apply hoare_require;
  lazymatch goal with
  | |- if ?c then _ else _ =>
      destruct c eqn:?; [close_raise | cbv beta iota]
  end.

Ltac step_require_all :=
  apply hoare_require_all; cbn [find];
  repeat lazymatch goal with
    | |- match (if ?c then _ else _) with _ => _ end =>
        destruct c eqn:?; [close_raise | cbv beta iota]
    end.

Ltac step_plain lem := eapply hoare_seq_ok; [apply lem|].

Ltac step_hfill HD :=
  eapply hoare_seq_ok;
  [ apply hoare_hfill;
    [ apply HD; cbn; tauto
    | rewrite ?map_map, ?length_map; reflexivity ]
  | ].

Ltac name_case k name :=
  destruct (String.eqb_spec k name) as [->|?];
  [ cbn [String.eqb Ascii.eqb Bool.eqb andb];
    rewrite ?app_nil_r, <- ?app_assoc; reflexivity | ].

Lemma hoare_process_body (D : gset string) k a events :
  (forall name, In name (map fst axis) -> name ∈ D) ->
  hoare (CKeeps D k a) (process_body events)
    (fun r out =>
       r = process_result events
       /\ (process_result events = Ok tt ->
           exists dataset,
             metadata events !! "dataset" = Some dataset
             /\ CKeeps D k (a ++ fills_of events dataset k) out)).
Proof.
  intros HD. unfold process_body, process_result, getitem.
  destruct (metadata events !! "dataset") as [dataset|] eqn:Eds.
  2:{ apply hoare_bind_lift_raise. intros out _. split; [reflexivity|discriminate]. }
  apply hoare_bind_lift_ok. cbv zeta.
  rewrite !mask_select_map, !mask_select_map2.
  fold (selected_events events).
  rewrite !selected_jets_subscript by lia.
  rewrite (concat_map_singleton vmass 0)
    by (intros e He%selected_events_In; now apply selected_vmass_length).
  rewrite (concat_map_singleton vpt 0)
    by (intros e He%selected_events_In; now apply selected_vpt_length).
  unfold branches_read, muon_branches, electron_branches, jet_branches.
  cbn [app find].
  step_require. step_require.
  step_plain hoare_cutflow_add. step_plain hoare_cutflow_add.
  step_require.
  step_plain hoare_sumw_add.
  step_hfill HD. step_hfill HD.
  step_require_all. step_require_all.
  step_hfill HD.
  step_require. step_require_all.
  step_hfill HD.
  step_plain hoare_cutflow_add.
  apply hoare_bind_lift_ok. apply hoare_bind_lift_ok.
  step_require.
  rewrite !zip_with_map.
  step_hfill HD. step_hfill HD. step_hfill HD. step_hfill HD. step_hfill HD.
  unfold pdf_loop. rewrite !map_map.
  eapply hoare_conseq;
    [ apply hoare_pdf_steps; apply HD; cbn; tauto
    | intros ? Hx; exact Hx | ].
  intros r out. cbv beta. rewrite pdf_lengths_seq.
  destruct (forallb _ (selected_events events)).
  2:{ intros ->. split; [reflexivity|discriminate]. }
  intros [-> Hk]. split; [reflexivity|]. intros _.
  exists dataset. split; [reflexivity|].
  match type of Hk with
  | CKeeps _ _ ?X _ =>
      assert (E : X = (a ++ fills_of events dataset k)%list);
      [|rewrite <- E; exact Hk]
  end.
  clear Hk. cbv beta iota.
  rewrite ?map_map, ?combine_map, ?map_map. cbn [fst snd].
  unfold fills_of, dimuon_mass, dimuon_pt, dijet, jet0, jet1.
  name_case k "LHE_Vpt". name_case k "wei". name_case k "nlep".
  name_case k "njet15". name_case k "dilep_m". name_case k "dijet_m".
  name_case k "dijet_pt". name_case k "dijet_dr". name_case k "dilep_pt".
  now rewrite !app_nil_r.
Qed.


Lemma centries_identity acc name : centries (identity acc) name = [].
Proof.
  unfold centries, identity. simpl. rewrite lookup_fmap.
  destruct (hists acc !! name); reflexivity.
Qed.

Lemma dom_identity acc : dom (hists (identity acc)) = dom (hists acc).
Proof. unfold identity. simpl. apply dom_fmap_L. Qed.

(** [process] ends as [process_result] says; when it returns, every
    histogram holds the fills of [fills_of] *)
Lemma process_spec self events :
  has_histograms (_accumulator self) ->
  match process_result events with
  | Ok _ =>
      exists out dataset,
        process self events = Ok out
        /\ metadata events !! "dataset" = Some dataset
        /\ dom (hists out) = dom (hists (_accumulator self))
        /\ forall name, centries out name = fills_of events dataset name
  | Raise e => process self events = Raise e
  end.
Proof.
  intros Hh.
  set (acc := _accumulator self).
  assert (HD : forall name, In name (map fst axis) -> name ∈ dom (hists acc)).
  { intros name Hn. apply elem_of_dom, Hh, Hn. }
  assert (H : forall k,
             snd (process_body events (identity acc)) = process_result events
             /\ (process_result events = Ok tt ->
                 exists dataset,
                   metadata events !! "dataset" = Some dataset
                   /\ CKeeps (dom (hists acc)) k ([] ++ fills_of events dataset k)
                        (fst (process_body events (identity acc))))).
  { intros k. apply (hoare_process_body (dom (hists acc)) k [] events HD).
    split; [apply dom_identity | apply centries_identity]. }
  unfold process. fold acc.
  destruct (H "") as [Hr _].
  destruct (process_body events (identity acc)) as [out r] eqn:E.
  simpl in Hr. rewrite <- Hr.
  destruct r as [[]|e]; [|reflexivity].
  destruct (H "") as [_ Hds]. destruct (Hds (eq_sym Hr)) as (dataset & Eds & Hd & _).
  exists out, dataset. split; [reflexivity|]. split; [exact Eds|].
  split; [exact Hd|].
  intros name. destruct (H name) as [_ Hn].
  destruct (Hn (eq_sym Hr)) as (dataset' & Eds' & _ & Hc).
  rewrite Eds in Eds'. injection Eds' as <-. exact Hc.
Qed.

Lemma process_Ok_result self events out :
  has_histograms (_accumulator self) ->
  process self events = Ok out ->
  process_result events = Ok tt.
Proof.
  intros Hh E. pose proof (process_spec self events Hh) as H.
  destruct (process_result events) as [[]|e]; [reflexivity|congruence].
Qed.

Lemma find_none_forallb {A} (f : A -> bool) l :
  forallb (fun x => negb (f x)) l = true -> find f l = None.
Proof.
  induction l as [|x l IH]; simpl; [reflexivity|].
  destruct (f x); simpl; [discriminate|exact IH].
Qed.

Lemma readable_result events :
  readable events = true ->
  forallb (fun e => (32 <=? length (ev_LHEPdfWeight e))%nat)
          (selected_events events) = true ->
  process_result events = Ok tt.
Proof.
  unfold readable, process_result.
  intros [Hd Hb]%andb_true_iff Hp.
  apply bool_decide_eq_true in Hd as [dataset Hd]. rewrite Hd.
  rewrite (find_none_forallb _ _ Hb), Hp. reflexivity.
Qed.

(** *** The entries of 'dilep_pt' by PDFwei category *)

Lemma pretty_not_Default p : (p < 32)%nat -> String.eqb "Default" (pretty p) = false.
Proof.
  intros H.
  do 32 (destruct p as [|p]; [vm_compute; reflexivity|]). lia.
Qed.

Lemma pretty_eqb (p q : nat) : String.eqb (pretty p) (pretty q) = (p =? q)%nat.
Proof.
  destruct (Nat.eqb_spec p q) as [->|Hne].
  - apply String.eqb_refl.
  - apply String.eqb_neq. intros E. apply Hne. now apply (inj pretty).
Qed.

Lemma filter_under_batch cat dataset c (v : Event -> fval) (w : Event -> Q) sel :
  List.filter (under cat) (map (fun e => mkCEntry dataset (Some c) (v e) (w e)) sel)
  = if String.eqb c cat
    then map (fun e => mkCEntry dataset (Some c) (v e) (w e)) sel
    else [].
Proof.
  induction sel as [|e sel IH]; simpl.
  - now destruct (String.eqb c cat).
  - unfold under at 1. simpl. rewrite IH. now destruct (String.eqb c cat).
Qed.

Lemma concat_pick {A} (f : nat -> list A) p a n :
  concat (map (fun q => if (q =? p)%nat then f q else []) (seq a n))
  = if (a <=? p)%nat && (p <? a + n)%nat then f p else [].
Proof.
  revert a. induction n as [|n IH]; intros a; cbn [seq map concat].
  - destruct (Nat.leb_spec a p), (Nat.ltb_spec p (a + 0)); simpl;
      try reflexivity; lia.
  - rewrite IH.
    destruct (Nat.eqb_spec a p), (Nat.leb_spec a p), (Nat.leb_spec (S a) p),
      (Nat.ltb_spec p (S a + n)), (Nat.ltb_spec p (a + S n));
      cbn [andb app]; rewrite ?app_nil_r; subst; try reflexivity; lia.
Qed.

Lemma dilep_pt_under_fills events dataset p :
  (p < 32)%nat ->
  map (fun en => (ce_value en, ce_weight en))
      (List.filter (under (pretty p)) (fills_of events dataset "dilep_pt"))
  = map (fun e => (Val (dimuon_pt e), ev_genWeight e * (2 * pdf_weight p e)))
        (selected_events events).
Proof.
  intros Hp. unfold fills_of. cbn [String.eqb Ascii.eqb Bool.eqb andb].
  rewrite List.filter_app, filter_under_batch, (pretty_not_Default p Hp).
  cbn [app].
  rewrite <- concat_filter_map, map_map.
  set (batch := fun q =>
         map (fun e => mkCEntry dataset (Some (pretty q)) (Val (dimuon_pt e))
                         (ev_genWeight e * (2 * pdf_weight q e)))
             (selected_events events)).
  transitivity
    (map (fun en => (ce_value en, ce_weight en))
         (concat (map (fun q => if (q =? p)%nat then batch q else [])
                      (seq 0 32)))).
  { do 2 f_equal. apply map_ext. intros q.
    rewrite filter_under_batch, pretty_eqb. reflexivity. }
  rewrite (concat_pick batch p 0 32).
  replace ((0 <=? p)%nat && (p <? 0 + 32)%nat) with true
    by (symmetry; apply andb_true_iff; split;
        [apply Nat.leb_le | apply Nat.ltb_lt]; lia).
  unfold batch. rewrite map_map. reflexivity.
Qed.

Lemma dilep_pt_Default_fills events dataset :
  map (fun en => (ce_value en, ce_weight en))
      (List.filter (under "Default") (fills_of events dataset "dilep_pt"))
  = map (fun e => (Val (dimuon_pt e), ev_genWeight e)) (selected_events events).
Proof.
  unfold fills_of. cbn [String.eqb Ascii.eqb Bool.eqb andb].
  rewrite List.filter_app, filter_under_batch, String.eqb_refl.
  rewrite <- concat_filter_map, map_map.
  replace (concat _) with (@nil CEntry).
  { rewrite app_nil_r, map_map. reflexivity. }
  symmetry. apply concat_nil_Forall, List.Forall_forall.
  intros l (q & <- & Hq%in_seq)%in_map_iff.
  rewrite filter_under_batch, String.eqb_sym, pretty_not_Default by lia.
  reflexivity.
Qed.

(** *** The claims on the selection and on the PDF weights *)

(** C1, amended.  On a chunk that has its dataset name and its branches and
    whose selected events carry at least 32 PDF weights, [process] returns,
    and for every PDF index p from 0 to 31 the fills of 'dilep_pt' under the
    category str(p) are, for the selected events in order, the pt of the
    dimuon with the weight genWeight * (2 * LHEPdfWeight[p]): the PDF
    weight enters with the factor 2 of line 189. *)
Theorem pdf_variation_weights self events :
  has_histograms (_accumulator self) ->
  readable events = true ->
  (forall e, In e (selected_events events) ->
             (32 <= length (ev_LHEPdfWeight e))%nat) ->
  exists out,
    process self events = Ok out
    /\ forall p,
        (p < 32)%nat ->
        dilep_pt_under out (pretty p)
        = map (fun e => (Val (dimuon_pt e),
                         ev_genWeight e * (2 * pdf_weight p e)))
              (selected_events events).
Proof.
  intros Hh Hr Hpdf.
  assert (Hres : process_result events = Ok tt).
  { apply readable_result; [exact Hr|]. apply forallb_forall.
    intros e He. apply Nat.leb_le, Hpdf, He. }
  pose proof (process_spec self events Hh) as H. rewrite Hres in H.
  destruct H as (out & dataset & E & _ & _ & Hc).
  exists out. split; [exact E|]. intros p Hp.
  unfold dilep_pt_under. rewrite Hc. now apply dilep_pt_under_fills.
Qed.


End Fills.
End ProcessFacts.

(** *** The claims on [process] at concrete chunks *)

Module ProcessExamples.
Import VPlusJet VpjExamples VPlusJetFacts ProcessFacts.
Local Open Scope Q_scope.

Lemma init_has_histograms : has_histograms (_accumulator init).
Proof.
  intros name Hn. cbn in Hn.
  repeat (destruct Hn as [<-|Hn]; [vm_compute; eexists; reflexivity|]).
  destruct Hn.
Qed.

(** one selected event and one without jets: the fills under each PDF index
    carry twice the PDF weight *)
Lemma pdf_variation_weights_witness :
  (has_histograms (_accumulator init)
   /\ readable (chunk_of [ev_selected; ev_no_jets]) = true)
  /\ exists out,
       process init (chunk_of [ev_selected; ev_no_jets]) = Ok out
       /\ forall p,
           (p < 32)%nat ->
           dilep_pt_under out (pretty p)
           = map (fun e => (Val (dimuon_pt e),
                            ev_genWeight e * (2 * pdf_weight p e)))
                 (selected_events (chunk_of [ev_selected; ev_no_jets])).
Proof.
  split; [split; [exact init_has_histograms | vm_compute; reflexivity]|].
  apply (pdf_variation_weights init (chunk_of [ev_selected; ev_no_jets])).
  - exact init_has_histograms.
  - vm_compute. reflexivity.
  - intros e He. apply Nat.leb_le. revert e He. apply forallb_forall.
    vm_compute. reflexivity.
Defined.

(** C1 as stated fails on the chunk made of [ev_selected] (genWeight 1,
    every PDF weight 1): the fill under category '0' has weight 2, not
    genWeight * LHEPdfWeight[0] = 1. *)
Lemma pdf_variation_weights_counterexample :
  match process init (chunk_of [ev_selected]) with
  | Ok out =>
      selected_events (chunk_of [ev_selected]) = [ev_selected]
      /\ map snd (dilep_pt_under out (pretty 0%nat)) = [2]
      /\ map (fun e => ev_genWeight e * pdf_weight 0 e) [ev_selected] = [1]
      /\ map snd (dilep_pt_under out (pretty 0%nat))
         <> map (fun e => ev_genWeight e * pdf_weight 0 e)
                (selected_events (chunk_of [ev_selected]))
  | Raise _ => False
  end.
Proof.
  vm_compute. repeat split; try reflexivity. discriminate.
Qed.


(** a jet at distance 1 from the only muon is clean *)
Lemma isClean_nearest_witness :
  exists c,
    isClean [jet_kin jet_a] [mu_kin mu_plus] 0.4 !! 0%nat = Some c
    /\ (c = true <->
        nearest (jet_kin jet_a) [mu_kin mu_plus] = None
        \/ exists b d,
             nearest (jet_kin jet_a) [mu_kin mu_plus] = Some (b, d)
             /\ 0.4 < d).
Proof.
  apply (isClean_nearest [jet_kin jet_a] [mu_kin mu_plus] 0.4).
  reflexivity.
Defined.

End ProcessExamples.

(** ** Plotting: the round trip through the pickled collection *)

Module PlottingFacts.
Import Plotting PyFacts.

Lemma last_char_app a b :
  b <> EmptyString -> last_char (a ++ b) = last_char b.
Proof.
  intros Hb. induction a as [|c a IH]; simpl; [reflexivity|].
  rewrite IH. destruct (a ++ b) eqn:E; [|reflexivity].
  destruct a; simpl in E; [contradiction | discriminate].
Qed.

Lemma append_nonempty a b : b <> EmptyString -> a ++ b <> EmptyString.
Proof. intros Hb. destruct a; simpl; [exact Hb | discriminate]. Qed.

Lemma png_path_not_pkl_path outdir observable outdir' :
  png_path outdir observable <> pkl_path outdir'.
Proof.
  intros E. apply (f_equal last_char) in E. unfold png_path, pkl_path in E.
  rewrite !last_char_app in E
    by (repeat apply append_nonempty; discriminate).
  discriminate.
Qed.

Section PlotFacts.
Context {Item Image Blob : Type}.
Variable render plotgrid plot1d : Item -> Image.
Variable is_Hist : Item -> bool.
Variable dumps : list (string * Item) -> Blob.
Variable loads : Blob -> result (list (string * Item)).

Lemma for_each_writes {A} (l : list A) (b : A -> bool)
    (w : A -> string * File Image Blob) (fs : FS Image Blob) :
  for_each l (fun x => if b x then write_file (fst (w x)) (snd (w x))
                       else ret tt) fs
  = (apply_writes (map w (List.filter b l)) fs, Ok tt).
Proof.
  revert fs. induction l as [|x l IH]; intros fs; simpl.
  - unfold ret, apply_writes. simpl. rewrite app_nil_r. now destruct fs.
  - unfold bind. destruct (b x); simpl.
    + rewrite IH. unfold apply_writes. simpl.
      rewrite <- app_assoc. simpl. now destruct (w x).
    + apply IH.
Qed.

Lemma apply_writes_app (ws1 ws2 : list (string * File Image Blob)) fs :
  apply_writes (ws1 ++ ws2) fs = apply_writes ws2 (apply_writes ws1 fs).
Proof.
  unfold apply_writes. simpl. now rewrite fold_left_app, app_assoc.
Qed.

Lemma apply_writes_nil (fs : FS Image Blob) : apply_writes [] fs = fs.
Proof.
  unfold apply_writes. simpl. rewrite app_nil_r. now destruct fs.
Qed.

Lemma files_apply_writes_other (ws : list (string * File Image Blob)) fs path :
  ~ In path (map fst ws) ->
  files (apply_writes ws fs) !! path = files fs !! path.
Proof.
  unfold apply_writes. simpl. generalize (files fs).
  induction ws as [|[p c] ws IH]; intros m Hn; simpl in *; [reflexivity|].
  rewrite IH by tauto. apply lookup_insert_ne. tauto.
Qed.

Lemma files_apply_writes_last (ws : list (string * File Image Blob)) fs path c :
  files (apply_writes (ws ++ [(path, c)]) fs) !! path = Some c.
Proof.
  rewrite apply_writes_app. unfold apply_writes at 1. simpl.
  apply lookup_insert_eq.
Qed.

Lemma written_apply_writes (ws : list (string * File Image Blob)) fs :
  written (apply_writes ws fs) = (written fs ++ ws)%list.
Proof. reflexivity. Qed.

Lemma written_with_dir outdir (fs : FS Image Blob) :
  written (with_dir outdir fs) = written fs.
Proof. unfold with_dir. now destruct (bool_decide _). Qed.

Lemma files_with_dir outdir (fs : FS Image Blob) :
  files (with_dir outdir fs) = files fs.
Proof. unfold with_dir. now destruct (bool_decide _). Qed.

Lemma ensure_dir_run outdir (fs : FS Image Blob) :
  ensure_dir outdir fs = (with_dir outdir fs, Ok tt).
Proof. unfold ensure_dir, with_dir. now destruct (bool_decide _). Qed.

Lemma lhe_plot_run outdir histograms fromPickles (fs : FS Image Blob) :
  LhePlotting.plot render dumps outdir histograms fromPickles fs
  = (apply_writes
       (LhePlotting.images render outdir histograms
        ++ if negb fromPickles
           then [(pkl_path outdir, Pkl (dumps histograms))]
           else [])
       (with_dir outdir fs),
     Ok tt).
Proof.
  unfold LhePlotting.plot.
  rewrite (bind_ok _ _ _ _ _ (ensure_dir_run outdir fs)).
  pose proof (for_each_writes histograms (fun _ => true)
                (fun oh => (png_path outdir (fst oh), Png (render (snd oh))))
                (with_dir outdir fs)) as H.
  cbn [fst snd] in H. erewrite bind_ok by exact H.
  replace (List.filter (fun _ => true) histograms) with histograms
    by (clear; induction histograms; simpl; congruence).
  fold (@LhePlotting.images Item Image Blob render outdir histograms).
  rewrite apply_writes_app.
  destruct fromPickles; simpl.
  - now rewrite apply_writes_nil.
  - reflexivity.
Qed.

Lemma vpj_plot_run outdir histograms fromPickles (fs : FS Image Blob) :
  VPlusJetPlotting.plot plotgrid plot1d is_Hist dumps histograms outdir
    fromPickles fs
  = (apply_writes
       (VPlusJetPlotting.images plotgrid plot1d is_Hist outdir histograms
        ++ if negb fromPickles
           then [(pkl_path outdir, Pkl (dumps histograms))]
           else [])
       (with_dir outdir fs),
     Ok tt).
Proof.
  unfold VPlusJetPlotting.plot.
  rewrite (bind_ok _ _ _ _ _ (ensure_dir_run outdir fs)).
  pose proof (for_each_writes histograms (fun oh => is_Hist (snd oh))
                (fun oh => (png_path outdir (fst oh),
                            Png (if String.eqb (fst oh) "dilep_pt"
                                 then plotgrid (snd oh)
                                 else plot1d (snd oh))))
                (with_dir outdir fs)) as H.
  cbn [fst snd] in H. erewrite bind_ok by exact H.
  fold (@VPlusJetPlotting.images Item Image Blob plotgrid plot1d is_Hist
          outdir histograms).
  rewrite apply_writes_app.
  destruct fromPickles; simpl.
  - now rewrite apply_writes_nil.
  - reflexivity.
Qed.

Hypothesis loads_dumps : forall c, loads (dumps c) = Ok c.

(** the shared argument: a [plot] that writes [images] and then the pickle,
    with images at .png paths only *)
Lemma replots_of_run
    (plot : string -> list (string * Item) -> bool -> M (FS Image Blob) unit)
    (images : string -> list (string * Item) -> list (string * File Image Blob)) :
  (forall outdir histograms fromPickles fs,
     plot outdir histograms fromPickles fs
     = (apply_writes
          (images outdir histograms
           ++ if negb fromPickles
              then [(pkl_path outdir, Pkl (dumps histograms))]
              else [])
          (with_dir outdir fs),
        Ok tt)) ->
  (forall outdir histograms w,
     In w (images outdir histograms) ->
     is_pickle_write w = false /\ exists o, fst w = png_path outdir o) ->
  replots dumps plot
    (fun outdir inputfile =>
       (let* hists := load loads inputfile in plot outdir hists true)%py)
    images.
Proof.
  intros Hrun Himg fs outdir outdir2 histograms. cbv zeta.
  rewrite Hrun. cbn [fst snd negb].
  set (fs1 := apply_writes _ (with_dir outdir fs)).
  assert (Hpkl : files fs1 !! pkl_path outdir = Some (Pkl (dumps histograms))).
  { unfold fs1. apply files_apply_writes_last. }
  assert (Hload : load loads (pkl_path outdir) fs1 = (fs1, Ok histograms)).
  { unfold load. rewrite Hpkl, loads_dumps. reflexivity. }
  rewrite (bind_ok _ _ _ _ _ Hload), Hrun. cbn [fst snd negb].
  rewrite app_nil_r.
  split; [reflexivity|]. split.
  { unfold fs1. rewrite written_apply_writes, written_with_dir. reflexivity. }
  split; [exact Hpkl|]. split; [reflexivity|]. split.
  { rewrite written_apply_writes, written_with_dir. reflexivity. }
  split.
  { apply List.Forall_forall. intros w Hw. apply (Himg _ _ _ Hw). }
  rewrite files_apply_writes_other, files_with_dir; [exact Hpkl|].
  intros (w & Ew & Hw)%in_map_iff.
  destruct (Himg _ _ _ Hw) as [_ (o & Eo)].
  rewrite Eo in Ew. exact (png_path_not_pkl_path _ _ _ Ew).
Qed.


End PlotFacts.
End PlottingFacts.

(** ** The command lines *)

Module CliFacts.
Import Cli PyFacts.

Lemma plain_not_option s opt_name :
  startswith "-" s = false -> startswith "-" opt_name = true ->
  String.eqb s opt_name = false.
Proof.
  intros Hs Ho. destruct (String.eqb_spec s opt_name) as [->|]; congruence.
Qed.

Section MainFacts.
Variable xrdfs_ls : string -> string -> result string.
Variable listdir : string -> result (list string).

Lemma lhe_parse_outdir_input d f :
  startswith "-" d = false -> startswith "-" f = false ->
  lhe_parse_args ["-o"; d; f] = Ok (mkLheOpt d f).
Proof.
  intros Hd Hf. unfold lhe_parse_args. cbn [lhe_parse_from].
  change (String.eqb "-o" "-o") with true. cbn [orb]. rewrite Hd.
  rewrite (plain_not_option f "-o" Hf eq_refl),
          (plain_not_option f "--outdir" Hf eq_refl), Hf.
  reflexivity.
Qed.

Lemma lhe_parse_input f :
  startswith "-" f = false ->
  lhe_parse_args [f] = Ok (mkLheOpt "plots_default" f).
Proof.
  intros Hf. unfold lhe_parse_args. cbn [lhe_parse_from].
  rewrite (plain_not_option f "-o" Hf eq_refl),
          (plain_not_option f "--outdir" Hf eq_refl), Hf.
  reflexivity.
Qed.

Lemma vpj_parse_outdir d :
  startswith "-" d = false ->
  vpj_parse_args ["-o"; d] = Ok (mkVpjOpt d None).
Proof.
  intros Hd. unfold vpj_parse_args. cbn [vpj_parse_from]. rewrite Hd.
  reflexivity.
Qed.

Lemma vpj_parse_pkl_outdir p d :
  startswith "-" p = false -> startswith "-" d = false ->
  vpj_parse_args ["--pkl"; p; "-o"; d] = Ok (mkVpjOpt d (Some p)).
Proof.
  intros Hp Hd. unfold vpj_parse_args. cbn [vpj_parse_from]. rewrite Hp, Hd.
  reflexivity.
Qed.

Lemma vpj_main_job opt files outdir :
  vpj_main xrdfs_ls listdir opt = Ok (RunJobAndPlot files outdir) ->
  outdir = vpj_outdir opt /\ vpj_pkl opt = None
  /\ file_list xrdfs_ls listdir = Ok files.
Proof.
  unfold vpj_main. destruct (file_list xrdfs_ls listdir) as [fl|e]; simpl;
    [|discriminate].
  destruct (vpj_pkl opt); [discriminate|]. intros [= <- <-]. auto.
Qed.


Lemma ntuple_input_fixed : ~ ntuple_input_selectable xrdfs_ls listdir.
Proof.
  intros (argv1 & argv2 & opt1 & opt2 & files1 & files2 & o1 & o2
          & _ & _ & H1 & H2 & Hne).
  apply vpj_main_job in H1 as (_ & _ & E1).
  apply vpj_main_job in H2 as (_ & _ & E2).
  rewrite E1 in E2. injection E2 as E2. contradiction.
Qed.

End MainFacts.
End CliFacts.

(** ** Whole runs: exceptions and repeated runs *)

Module RunFacts.
Import PyFacts.

Section Runs.
Context {V : LhePlot.VectorLib} {NV : VPlusJet.NanoVectors}.

Lemma bind_propagates {St A B} (m : M St A) (k : A -> M St B) st e :
  snd (m st) = Raise e -> snd (bind m k st) = Raise e.
Proof.
  unfold bind. destruct (m st) as [st' [a|e']]; simpl;
    [discriminate | intros [= ->]; reflexivity].
Qed.

Lemma analyze_raises reader e :
  LhePlot.reader_result reader = Raise e -> LhePlot.analyze reader = Raise e.
Proof.
  intros H. pose proof (LhePlotFacts.analyze_spec reader) as Hs.
  now rewrite H in Hs.
Qed.

Lemma process_raises self events e :
  VPlusJet.has_histograms (VPlusJet._accumulator self) ->
  VPlusJet.process_result events = Raise e ->
  VPlusJet.process self events = Raise e.
Proof.
  intros Hh H. pose proof (ProcessFacts.process_spec self events Hh) as Hs.
  now rewrite H in Hs.
Qed.



End Runs.
End RunFacts.

(** *** The claims on input, output and whole runs at concrete inputs *)

Module IoFacts.
Import Cli IoExamples Plotting.




End IoFacts.

Module RunExamples.
Import LheExamples VpjExamples.



End RunExamples.

(** ** lhePlot.py: the fills of every histogram *)

Module LheFillsFacts.
Import LhePlot LheFills PyFacts NumFacts LhePlotFacts.
Local Open Scope Q_scope.
Local Open Scope list_scope.

Lemma flat_map_single {A B} (f : A -> B) (l : list A) :
  flat_map (fun x => [f x]) l = map f l.
Proof. induction l as [|x l IH]; simpl; [reflexivity|]. now rewrite IH. Qed.

Lemma flat_map_none {A B} (l : list A) :
  flat_map (fun _ => @nil B) l = [].
Proof. induction l as [|x l IH]; simpl; [reflexivity|exact IH]. Qed.

Section FillsFacts.
Context {V : VectorLib}.

Ltac in_names HD := apply HD, name_in_hist_names; cbn; tauto.

Ltac fills_case k name :=
  destruct (String.eqb_spec k name) as [->|?];
  [ cbn [String.eqb Ascii.eqb Bool.eqb andb app];
    rewrite ?flat_map_single, ?flat_map_none, ?app_nil_r, <- ?app_assoc;
    try reflexivity
  | ].

Section Body.
Variables (D : gset string) (k : string).
Hypothesis HD : hist_names ⊆ D.

Lemma Keeps_eq a a' (st : Store) : a = a' -> Keeps D k a st -> Keeps D k a' st.
Proof. now intros ->. Qed.

Lemma hoare_fill_any a name x w :
  name ∈ D ->
  hoare (Keeps D k a) (fill name x w)
    (fun r st =>
       r = Ok tt /\
       Keeps D k (a ++ if String.eqb k name then [(x, w)] else []) st).
Proof.
  intros Hin. destruct (String.eqb_spec k name) as [->|Hne].
  - apply hoare_fill_same, Hin.
  - rewrite app_nil_r. apply hoare_fill_other; [exact Hin | congruence].
Qed.

Lemma hoare_for_each_fills {A} (body : A -> M Store unit)
    (g : A -> list (Q * Q)) (l : list A) :
  (forall x a,
     hoare (Keeps D k a) (body x)
       (fun r st => r = Ok tt /\ Keeps D k (a ++ g x) st)) ->
  forall a,
    hoare (Keeps D k a) (for_each l body)
      (fun r st => r = Ok tt /\ Keeps D k (a ++ flat_map g l) st).
Proof.
  intros Hb. induction l as [|x l IH]; intros a; simpl.
  - apply hoare_ret. intros st Hst. rewrite app_nil_r. auto.
  - eapply hoare_seq_ok; [apply Hb|].
    eapply hoare_conseq; [apply IH | intros ? Hx; exact Hx |].
    intros r st [-> Hk]. split; [reflexivity|]. now rewrite app_assoc.
Qed.

(** two fills in a row *)
Lemma hoare_two_fills a n1 x1 n2 x2 w :
  n1 ∈ D -> n2 ∈ D ->
  hoare (Keeps D k a) (fill n1 x1 w ;; fill n2 x2 w)%py
    (fun r st =>
       r = Ok tt /\
       Keeps D k
         (a ++ (if String.eqb k n1 then [(x1, w)] else [])
            ++ (if String.eqb k n2 then [(x2, w)] else [])) st).
Proof.
  intros H1 H2. eapply hoare_seq_ok; [apply hoare_fill_any, H1|].
  eapply hoare_conseq; [apply hoare_fill_any, H2 | intros ? Hx; exact Hx |].
  intros r st [-> Hk]. split; [reflexivity|]. now rewrite app_assoc.
Qed.

(** the accumulation of [j_p4] over the jets *)
Lemma jet_sum_from (jets : list Particle) v :
  fold_left
    (fun o j => match o with
                | Some v => Some (p4_add v (p4 j))
                | None => Some (p4 j)
                end)
    jets (Some v)
  = Some (fold_left p4_add (map p4 jets) v).
Proof.
  revert v. induction jets as [|j jets IH]; intros v; simpl; [reflexivity|].
  apply IH.
Qed.

Lemma jet_sum_spec (jets : list Particle) :
  fold_left
    (fun o j => match o with
                | Some v => Some (p4_add v (p4 j))
                | None => Some (p4 j)
                end)
    jets None
  = p4_sum (map p4 jets).
Proof. destruct jets as [|j jets]; simpl; [reflexivity|apply jet_sum_from]. Qed.

Lemma hoare_jets_loop_fills wei (jets : list Particle) : forall a j_p4,
  hoare (Keeps D k a) (jets_loop wei jets j_p4)
    (fun r st =>
       r = Ok (fold_left
                 (fun o j => match o with
                             | Some v => Some (p4_add v (p4 j))
                             | None => Some (p4 j)
                             end)
                 jets j_p4)
       /\ Keeps D k
            (a ++ flat_map
                    (fun j =>
                       (if String.eqb k "jet_eta"
                        then [(p4_eta (p4 j), wei)] else [])
                       ++ (if String.eqb k "jet_pt"
                           then [(p4_pt (p4 j), wei)] else []))
                    jets) st).
Proof.
  induction jets as [|j jets IH]; intros a j_p4; simpl.
  - apply hoare_ret. intros st Hst. rewrite app_nil_r. auto.
  - apply hoare_bind_assoc_seq.
    eapply hoare_seq_ok; [apply hoare_two_fills; in_names HD|].
    eapply hoare_conseq; [apply IH | intros ? Hx; exact Hx |].
    intros r st [-> Hk]. split; [reflexivity|].
    now rewrite <- !app_assoc in *.
Qed.

Lemma hoare_dijet_fills_any a wei (jets15 : list Particle) :
  hoare (Keeps D k a) (dijet_fills wei jets15)
    (fun r st =>
       r = Ok tt /\
       Keeps D k
         (a ++ match jets15 with
               | j1 :: j2 :: _ =>
                   (if String.eqb k "dijet_dr"
                    then [(p4_deltar (p4 j1) (p4 j2), wei)] else [])
                   ++ (if String.eqb k "dijet_m"
                       then [(p4_mass (p4_add (p4 j1) (p4 j2)), wei)] else [])
                   ++ (if String.eqb k "dijet_pt"
                       then [(p4_pt (p4_add (p4 j1) (p4 j2)), wei)] else [])
               | _ => []
               end) st).
Proof.
  unfold dijet_fills. destruct jets15 as [|j1 [|j2 rest]].
  - apply hoare_ret. intros st Hst. rewrite app_nil_r. auto.
  - apply hoare_ret. intros st Hst. rewrite app_nil_r. auto.
  - cbv zeta. eapply hoare_seq_ok; [apply hoare_fill_any; in_names HD|].
    eapply hoare_conseq;
      [apply hoare_two_fills; in_names HD | intros ? Hx; exact Hx |].
    intros r st [-> Hk]. split; [reflexivity|].
    now rewrite <- !app_assoc in *.
Qed.

Lemma jets15_of_nil event : jets_of event = [] -> jets15_of event = [].
Proof.
  unfold jets_of, jets15_of. induction (particles event) as [|x l IH]; simpl;
    [reflexivity|].
  unfold is_jet15 at 1. fold (is_jet x).
  destruct (is_jet x); simpl; [discriminate|exact IH].
Qed.

Lemma hoare_selected_fills a event v :
  hoare (Keeps D k a)
    (selected_body event (leptons_of event) (Zs_of event) (jets_of event)
       (jets15_of event) (p4_pt v) (p4_mass v))
    (fun r st =>
       match weights event with
       | [] => r = Raise (IndexError "list index out of range") /\ Keeps D k a st
       | wei :: _ =>
           r = match jets_of event with
               | [] => Raise (AttributeError "NoneType" "pt")
               | _ :: _ => Ok tt
               end
           /\ Keeps D k (a ++ selected_fills event v wei k) st
       end).
Proof.
  unfold selected_body. destruct (weights event) as [|wei ws]; simpl.
  { apply hoare_bind_lift_raise. auto. }
  apply hoare_bind_lift_ok.
  eapply hoare_seq_ok; [apply hoare_fill_any; in_names HD|].
  eapply hoare_seq_ok; [apply hoare_fill_any; in_names HD|].
  eapply hoare_seq_ok; [apply hoare_fill_any; in_names HD|].
  eapply hoare_seq_ok.
  { apply (hoare_for_each_fills _
             (fun l => (if String.eqb k "lep_eta"
                        then [(p4_eta (p4 l), wei)] else [])
                       ++ (if String.eqb k "lep_pt"
                           then [(p4_pt (p4 l), wei)] else []))).
    intros l a'. apply hoare_two_fills; in_names HD. }
  eapply hoare_seq_ok.
  { apply (hoare_for_each_fills _
             (fun Z => (if String.eqb k "z_mass"
                        then [(p4_mass (p4 Z), wei)] else [])
                       ++ (if String.eqb k "z_pt"
                           then [(p4_pt (p4 Z), wei)] else []))).
    intros Z a'. cbv zeta. apply hoare_two_fills; in_names HD. }
  eapply hoare_bind_ok
    with (R := fun o st =>
                 o = p4_sum (map p4 (jets_of event)) /\ Keeps D k _ st).
  { eapply hoare_conseq;
      [apply hoare_jets_loop_fills | intros ? Hx; exact Hx |].
    intros r st [-> Hk]. eexists. split; [reflexivity|].
    rewrite jet_sum_spec. exact (conj eq_refl Hk). }
  intros o. apply hoare_assume. intros ->.
  pose proof (jets15_of_nil event) as H15.
  unfold selected_fills.
  destruct (jets_of event) as [|j0 jets'] eqn:Ej.
  - rewrite (H15 eq_refl). simpl p4_sum. cbn [deref map flat_map].
    intros st Hst. cbn [fst snd raise bind]. split; [reflexivity|].
    revert Hst. apply Keeps_eq.
    fills_case k "wei". fills_case k "dilep_m". fills_case k "dilep_pt".
    fills_case k "lep_eta". fills_case k "lep_pt". fills_case k "z_mass".
    fills_case k "z_pt". fills_case k "jet_eta". fills_case k "jet_pt".
    fills_case k "jets_ht".
    cbn [app]. rewrite ?flat_map_none, ?app_nil_r. reflexivity.
  - clear H15. set (jets := j0 :: jets') in *.
    assert (Hsum : exists j, p4_sum (map p4 jets) = Some j)
      by (unfold jets; simpl; eauto).
    destruct Hsum as [j Hj]. rewrite Hj. cbn [deref].
    eapply hoare_bind_ok with (R := fun j' st => j' = j /\ Keeps D k _ st).
    { apply hoare_ret. intros st Hst. exists j.
      split; [reflexivity|]. split; [reflexivity|exact Hst]. }
    intros j'. apply hoare_assume. intros ->.
    eapply hoare_seq_ok; [apply hoare_fill_any; in_names HD|].
    eapply hoare_conseq;
      [apply hoare_dijet_fills_any | intros ? Hx; exact Hx |].
    intros r st [-> Hk]. split; [reflexivity|].
    revert Hk. apply Keeps_eq.
    destruct (jets15_of event) as [|j1 [|j2 rest]];
      fills_case k "wei"; fills_case k "dilep_m"; fills_case k "dilep_pt";
      fills_case k "lep_eta"; fills_case k "lep_pt"; fills_case k "z_mass";
      fills_case k "z_pt"; fills_case k "jet_eta"; fills_case k "jet_pt";
      fills_case k "jets_ht"; try fills_case k "dijet_dr";
      try fills_case k "dijet_m"; try fills_case k "dijet_pt";
      cbn [app]; rewrite ?flat_map_none, ?app_nil_r; reflexivity.
Qed.

(** the body on any event: how it ends, and what it has put in [k] *)
Lemma hoare_event_fills a event :
  hoare (Keeps D k a) (event_body event)
    (fun r st =>
       r = event_result event /\ Keeps D k (a ++ event_fills event k) st).
Proof.
  unfold event_body. cbv zeta.
  fold (leptons_of event) (jets_of event) (Zs_of event) (jets15_of event).
  eapply hoare_seq_ok; [apply hoare_fill_any; in_names HD|].
  eapply hoare_seq_ok; [apply hoare_fill_any; in_names HD|].
  eapply hoare_seq_ok; [apply hoare_fill_any; in_names HD|].
  apply hoare_conseq
    with (P' := Keeps D k (a ++ count_fills event k))
         (Q' := fun r st =>
                  r = event_result event
                  /\ Keeps D k (a ++ event_fills event k) st);
    [ | | auto].
  2:{ intros st. apply Keeps_eq. unfold count_fills.
      fills_case k "nlep". fills_case k "njet". fills_case k "njet15".
      now rewrite !app_nil_r. }
  unfold event_result, event_fills, weighted_selection.
  destruct (negb (length (leptons_of event) =? 2)%nat); cbv beta iota.
  { apply hoare_ret. intros st Hst. rewrite app_nil_r. auto. }
  rewrite sum_leptons_spec. fold (dilepton_p4 event).
  destruct (dilepton_p4 event) as [v|]; cbn [deref]; cbv beta iota.
  2:{ intros st Hst. cbn [raise bind fst snd]. rewrite app_nil_r. auto. }
  apply hoare_bind_ok
    with (R := fun v' st => v' = v /\ Keeps D k (a ++ count_fills event k) st).
  { apply hoare_ret. eauto. }
  intros v'. apply hoare_assume. intros ->.
  unfold in_windowb.
  destruct (Qltb (p4_pt v) 250 || Qgtb (p4_pt v) 400); cbn [negb andb];
    cbv beta iota.
  { apply hoare_ret. intros st Hst.
    destruct (weights event); rewrite app_nil_r; auto. }
  destruct (Qltb (p4_mass v) 50 || Qgtb (p4_mass v) 130); cbn [negb andb];
    cbv beta iota.
  { apply hoare_ret. intros st Hst.
    destruct (weights event); rewrite app_nil_r; auto. }
  eapply hoare_conseq;
    [apply hoare_selected_fills | intros ? Hx; exact Hx |].
  intros r st. cbv beta. destruct (weights event) as [|wei ws].
  - intros [-> Hk]. rewrite app_nil_r. auto.
  - intros [-> Hk]. split; [reflexivity|]. now rewrite app_assoc.
Qed.

End Body.

(** *** The loop and [analyze] *)

Lemma event_body_fills event (st : Store) k :
  hist_names ⊆ dom st ->
  entries_of (fst (event_body event st)) k
  = entries_of st k ++ event_fills event k.
Proof.
  intros HD.
  apply (hoare_event_fills (dom st) k HD (entries_of st k) event st
           (conj eq_refl eq_refl)).
Qed.

Lemma event_loop_fills reader (st : Store) k :
  hist_names ⊆ dom st ->
  entries_of (fst (event_loop reader st)) k
  = entries_of st k ++ flat_map (fun event => event_fills event k) (processed reader).
Proof.
  revert st. induction reader as [|[event|e] reader IH]; intros st HD; simpl.
  - now rewrite app_nil_r.
  - pose proof (event_body_dom event st HD) as Hd.
    pose proof (event_body_result event st HD) as Hr.
    pose proof (event_body_fills event st k HD) as Hf.
    unfold bind. destruct (event_body event st) as [st' r]; simpl in *.
    rewrite <- Hr. destruct r as [[]|e]; simpl.
    + rewrite IH by (now rewrite Hd). rewrite Hf. now rewrite <- app_assoc.
    + now rewrite Hf, app_nil_r.
  - now rewrite app_nil_r.
Qed.

Lemma processed_all reader :
  reader_result reader = Ok tt -> processed reader = events_of reader.
Proof.
  induction reader as [|[event|e] reader IH]; simpl; intros H.
  - reflexivity.
  - destruct (event_result event) as [[]|e]; [|discriminate].
    f_equal. now apply IH.
  - discriminate.
Qed.

Lemma entries_of_setup k : entries_of setup_histograms k = [].
Proof.
  unfold entries_of.
  destruct (setup_histograms !! k) as [h|] eqn:E; [|reflexivity].
  assert (H : map_Forall (fun _ h => h_entries h = []) setup_histograms).
  { apply map_Forall_to_list.
    set (l := map_to_list setup_histograms). vm_compute in l. subst l.
    repeat constructor. }
  exact (H k h E).
Qed.

Lemma analyze_Ok_result reader st :
  analyze reader = Ok st -> reader_result reader = Ok tt.
Proof.
  intros E. pose proof (analyze_spec reader) as H.
  destruct (reader_result reader) as [[]|e]; [reflexivity|congruence].
Qed.

(** when [analyze] returns, every histogram holds the fills of the events
    of the file, event after event *)
Lemma analyze_fills reader st k :
  analyze reader = Ok st ->
  entries_of st k = flat_map (fun event => event_fills event k) (events_of reader).
Proof.
  intros E. pose proof (analyze_Ok_result reader st E) as Hr.
  unfold analyze in E.
  pose proof (event_loop_fills reader setup_histograms k) as Hf.
  destruct (event_loop reader setup_histograms) as [st' r]; simpl in *.
  destruct r as [[]|e]; [|discriminate]. injection E as <-.
  rewrite Hf by (now rewrite dom_setup_histograms).
  now rewrite entries_of_setup, processed_all.
Qed.

Lemma flat_map_ext_eq {A B} (f g : A -> list B) l :
  (forall x, f x = g x) -> flat_map f l = flat_map g l.
Proof. intros H. induction l as [|x l IH]; simpl; [reflexivity|]. now rewrite H, IH. Qed.

Lemma selected_fills_count event v wei k :
  k = "nlep" \/ k = "njet" \/ k = "njet15" ->
  selected_fills event v wei k = [].
Proof.
  unfold selected_fills. intros [H|[H|H]]; rewrite H;
    cbn [String.eqb Ascii.eqb Bool.eqb andb];
    destruct (jets15_of event) as [|j1 [|j2 rest]]; reflexivity.
Qed.

(** the fills of an observable that only selected events fill *)
Lemma event_fills_selected event k :
  (k =? "nlep")%string = false ->
  (k =? "njet")%string = false ->
  (k =? "njet15")%string = false ->
  event_fills event k
  = match weighted_selection event with
    | Some (v, wei) => selected_fills event v wei k
    | None => []
    end.
Proof.
  intros H1 H2 H3. unfold event_fills, count_fills. now rewrite H1, H2, H3.
Qed.

(** *** Properties of the returned histograms *)

(** X1.  The three counting histograms get one fill of weight 1 for every event of
    the file, whether or not the event passes any cut. *)
Theorem counts_for_every_event reader st :
  analyze reader = Ok st ->
  entries_of st "nlep"
  = map (fun event => (Qnat (length (leptons_of event)), 1)) (events_of reader)
  /\ entries_of st "njet"
     = map (fun event => (Qnat (length (jets_of event)), 1)) (events_of reader)
  /\ entries_of st "njet15"
     = map (fun event => (Qnat (length (jets15_of event)), 1)) (events_of reader).
Proof.
  intros E.
  assert (H : forall k x,
             k = "nlep" \/ k = "njet" \/ k = "njet15" ->
             (forall event, count_fills event k = [x event]) ->
             entries_of st k = map x (events_of reader)).
  { intros k x Hk Hc. rewrite (analyze_fills reader st k E).
    rewrite <- flat_map_single. apply flat_map_ext_eq. intros event.
    unfold event_fills. rewrite Hc.
    destruct (weighted_selection event) as [[v wei]|]; [|reflexivity].
    now rewrite selected_fills_count. }
  split; [|split]; apply H; auto.
Qed.

(** X2.  The 'wei' histogram is filled with the first weight of the event as
    value and 1 as weight, once per event that passes the cuts; 'lep_pt' and
    'lep_eta' are filled for every charged lepton of such an event, those
    below pt 1 that the dilepton sum left out as well, so each holds two
    entries per selected event. *)
Theorem weight_and_lepton_fills reader st :
  analyze reader = Ok st ->
  entries_of st "wei"
  = map (fun wei => (wei, 1)) (flat_map selected_weight (events_of reader))
  /\ entries_of st "lep_pt"
     = flat_map
         (fun event =>
            flat_map (fun wei => map (fun l => (p4_pt (p4 l), wei))
                                     (leptons_of event))
                     (selected_weight event))
         (events_of reader)
  /\ entries_of st "lep_eta"
     = flat_map
         (fun event =>
            flat_map (fun wei => map (fun l => (p4_eta (p4 l), wei))
                                     (leptons_of event))
                     (selected_weight event))
         (events_of reader)
  /\ length (entries_of st "lep_pt")
     = (2 * length (entries_of st "wei"))%nat.
Proof.
  intros E.
  assert (Hw : entries_of st "wei"
               = map (fun wei => (wei, 1))
                     (flat_map selected_weight (events_of reader))).
  { rewrite (analyze_fills reader st "wei" E).
    induction (events_of reader) as [|event l IH]; simpl; [reflexivity|].
    rewrite map_app, <- IH. f_equal.
    rewrite event_fills_selected by reflexivity. unfold selected_weight.
    destruct (weighted_selection event) as [[v wei]|]; reflexivity. }
  assert (Hp : entries_of st "lep_pt"
               = flat_map
                   (fun event =>
                      flat_map (fun wei => map (fun l => (p4_pt (p4 l), wei))
                                               (leptons_of event))
                               (selected_weight event))
                   (events_of reader)).
  { rewrite (analyze_fills reader st "lep_pt" E).
    apply flat_map_ext_eq. intros event.
    rewrite event_fills_selected by reflexivity. unfold selected_weight.
    destruct (weighted_selection event) as [[v wei]|]; [|reflexivity].
    simpl. now rewrite app_nil_r. }
  split; [exact Hw|]. split; [exact Hp|]. split.
  - rewrite (analyze_fills reader st "lep_eta" E).
    apply flat_map_ext_eq. intros event.
    rewrite event_fills_selected by reflexivity. unfold selected_weight.
    destruct (weighted_selection event) as [[v wei]|]; [|reflexivity].
    simpl. now rewrite app_nil_r.
  - rewrite Hw, Hp, length_map. clear.
    induction (events_of reader) as [|event l IH]; simpl; [reflexivity|].
    rewrite !length_app, IH. unfold selected_weight, weighted_selection.
    destruct (length (leptons_of event) =? 2)%nat eqn:E2; simpl; [|lia].
    apply Nat.eqb_eq in E2.
    destruct (dilepton_p4 event) as [v|]; [|simpl; lia].
    destruct (weights event) as [|wei ws]; [simpl; lia|].
    destruct (in_windowb v); simpl; [|lia].
    rewrite app_nil_r, length_map, E2. lia.
Qed.

(** X3.  'jets_ht' receives, per selected event, the pt of the vector sum of all
    status-1 partons (no pt threshold); the dijet observables are filled only
    for events with at least two partons above pt 15, from the first two of
    them in the order of the file. *)
Theorem jet_fills reader st :
  analyze reader = Ok st ->
  entries_of st "jets_ht"
  = flat_map
      (fun event =>
         match weighted_selection event, p4_sum (map p4 (jets_of event)) with
         | Some (_, wei), Some j => [(p4_pt j, wei)]
         | _, _ => []
         end)
      (events_of reader)
  /\ entries_of st "dijet_m"
     = flat_map
         (fun event =>
            match weighted_selection event, jets15_of event with
            | Some (_, wei), j1 :: j2 :: _ =>
                [(p4_mass (p4_add (p4 j1) (p4 j2)), wei)]
            | _, _ => []
            end)
         (events_of reader)
  /\ entries_of st "dijet_pt"
     = flat_map
         (fun event =>
            match weighted_selection event, jets15_of event with
            | Some (_, wei), j1 :: j2 :: _ =>
                [(p4_pt (p4_add (p4 j1) (p4 j2)), wei)]
            | _, _ => []
            end)
         (events_of reader)
  /\ entries_of st "dijet_dr"
     = flat_map
         (fun event =>
            match weighted_selection event, jets15_of event with
            | Some (_, wei), j1 :: j2 :: _ =>
                [(p4_deltar (p4 j1) (p4 j2), wei)]
            | _, _ => []
            end)
         (events_of reader).
Proof.
  intros E.
  split; [|split; [|split]];
    (rewrite (analyze_fills reader st _ E); apply flat_map_ext_eq;
     intros event; rewrite event_fills_selected by reflexivity;
     destruct (weighted_selection event) as [[v wei]|]; [|reflexivity];
     unfold selected_fills; cbn [String.eqb Ascii.eqb Bool.eqb andb]).
  - destruct (p4_sum _); reflexivity.
  - destruct (jets15_of event) as [|j1 [|j2 rest]]; reflexivity.
  - destruct (jets15_of event) as [|j1 [|j2 rest]]; reflexivity.
  - destruct (jets15_of event) as [|j1 [|j2 rest]]; reflexivity.
Qed.

(** X4.  'z_mass' and 'z_pt' are filled for every particle of id 23 of a selected
    event, whatever its status; 'jet_pt' and 'jet_eta' for every status-1
    parton, with no pt threshold. *)
Theorem boson_and_parton_fills reader st :
  analyze reader = Ok st ->
  let per (part : Event -> list Particle) (obs : P4 -> Q) :=
    flat_map
      (fun event =>
         flat_map (fun wei => map (fun x => (obs (p4 x), wei)) (part event))
                  (selected_weight event))
      (events_of reader) in
  entries_of st "z_mass" = per Zs_of p4_mass
  /\ entries_of st "z_pt" = per Zs_of p4_pt
  /\ entries_of st "jet_pt" = per jets_of p4_pt
  /\ entries_of st "jet_eta" = per jets_of p4_eta.
Proof.
  intros E per. subst per.
  split; [|split; [|split]];
    (rewrite (analyze_fills reader st _ E); apply flat_map_ext_eq;
     intros event; rewrite event_fills_selected by reflexivity;
     unfold selected_weight;
     destruct (weighted_selection event) as [[v wei]|]; [|reflexivity];
     simpl; now rewrite app_nil_r).
Qed.

(** X5.  An event with exactly two charged leptons, both below pt 1, is not
    skipped: the lepton sum stays [None], the body raises AttributeError at
    [v_p4.pt], and so does [analyze] on any file that reaches the event. *)
Theorem soft_lepton_pair_raises event :
  length (leptons_of event) = 2%nat ->
  (forall l, In l (leptons_of event) -> p4_pt (p4 l) < 1) ->
  sum_leptons (leptons_of event) = None
  /\ (forall st : Store,
        hist_names ⊆ dom st ->
        snd (event_body event st) = Raise (AttributeError "NoneType" "pt"))
  /\ (forall pre post,
        forallb item_completes pre = true ->
        analyze (pre ++ Yield event :: post)
        = Raise (AttributeError "NoneType" "pt")).
Proof.
  intros H2 Hsoft.
  assert (Hall : forall ls : list Particle,
             (forall l, In l ls -> p4_pt (p4 l) < 1) ->
             List.filter (fun l => Qgeb (p4_pt (p4 l)) 1) ls = []).
  { induction ls as [|l ls IH]; simpl; intros Hls; [reflexivity|].
    assert (Hl : Qgeb (p4_pt (p4 l)) 1 = false).
    { apply Qgeb_lt, Hls. now left. }
    rewrite Hl. apply IH. intros l' Hl'. apply Hls. now right. }
  pose proof (Hall _ Hsoft) as Hf.
  assert (Hv : dilepton_p4 event = None).
  { unfold dilepton_p4. now rewrite Hf. }
  assert (Hres : event_result event = Raise (AttributeError "NoneType" "pt")).
  { unfold event_result. rewrite H2, Hv. reflexivity. }
  split; [|split].
  - rewrite sum_leptons_spec, Hf. reflexivity.
  - intros st HD. rewrite event_body_result by exact HD. exact Hres.
  - intros pre post Hpre.
    pose proof (analyze_spec (pre ++ Yield event :: post)) as H.
    rewrite reader_result_app in H by exact Hpre. simpl in H.
    rewrite Hres in H. exact H.
Qed.

Lemma reader_result_concat reader1 reader2 :
  reader_result reader1 = Ok tt ->
  reader_result (reader1 ++ reader2) = reader_result reader2.
Proof.
  induction reader1 as [|[event|e] reader1 IH]; simpl; intros H.
  - reflexivity.
  - destruct (event_result event) as [[]|e]; [now apply IH | discriminate].
  - discriminate.
Qed.

Lemma events_of_app reader1 reader2 :
  events_of (reader1 ++ reader2) = events_of reader1 ++ events_of reader2.
Proof. unfold events_of. apply flat_map_app. Qed.

(** X7.  Two files that [analyze] handles can be analysed as one: on the events
    of the first followed by those of the second, [analyze] returns, and
    each histogram holds the fills of the first run followed by the fills of
    the second. *)
Theorem analyze_concat reader1 reader2 st1 st2 :
  analyze reader1 = Ok st1 ->
  analyze reader2 = Ok st2 ->
  exists st,
    analyze (reader1 ++ reader2) = Ok st
    /\ forall k, entries_of st k = entries_of st1 k ++ entries_of st2 k.
Proof.
  intros E1 E2.
  pose proof (analyze_Ok_result _ _ E1) as H1.
  pose proof (analyze_Ok_result _ _ E2) as H2.
  pose proof (analyze_spec (reader1 ++ reader2)) as H.
  rewrite (reader_result_concat _ _ H1), H2 in H.
  destruct H as (st & E & _). exists st. split; [exact E|]. intros k.
  rewrite (analyze_fills _ _ k E), (analyze_fills _ _ k E1),
    (analyze_fills _ _ k E2), events_of_app.
  apply flat_map_app.
Qed.

End FillsFacts.
End LheFillsFacts.

(** ** Statements that keep a property of the store *)

Module KeptFacts.
Import PyFacts.

Section Kept.
Context {St : Type} (I : St -> Prop).

Lemma kept_ret {A} (a : A) : hoare I (ret a) (fun _ st => I st).
Proof. intros st H. exact H. Qed.

Lemma kept_raise {A} e : hoare I (@raise St A e) (fun _ st => I st).
Proof. intros st H. exact H. Qed.

Lemma kept_lift {A} (r : result A) : hoare I (lift r) (fun _ st => I st).
Proof. intros st H. exact H. Qed.

Lemma kept_bind {A B} (m : M St A) (k : A -> M St B) :
  hoare I m (fun _ st => I st) ->
  (forall a, hoare I (k a) (fun _ st => I st)) ->
  hoare I (bind m k) (fun _ st => I st).
Proof.
  intros Hm Hk. apply hoare_bind with (R := fun _ => I); [|exact Hk].
  intros st Hst. specialize (Hm st Hst).
  destruct (snd (m st)); exact Hm.
Qed.

Lemma kept_for_each {A} (l : list A) (body : A -> M St unit) :
  (forall x, hoare I (body x) (fun _ st => I st)) ->
  hoare I (for_each l body) (fun _ st => I st).
Proof.
  intros Hb. induction l as [|x l IH]; simpl.
  - apply kept_ret.
  - apply kept_bind; [apply Hb | intros _; exact IH].
Qed.

(** a statement that brings the store from [I] to [R], followed by one
    that brings it from [R] to [Q] when it returns *)
Lemma returns_bind {A B} (R Q : St -> Prop) (m : M St A) (k : A -> M St B) :
  hoare I m (fun _ st => R st) ->
  (forall a, hoare R (k a) (fun r st => forall b, r = Ok b -> Q st)) ->
  hoare I (bind m k) (fun r st => forall b, r = Ok b -> Q st).
Proof.
  intros Hm Hk. apply hoare_bind with (R := fun _ => R); [|exact Hk].
  intros st Hst. specialize (Hm st Hst).
  destruct (snd (m st)); [exact Hm | discriminate].
Qed.

Lemma returns_kept {A} (m : M St A) :
  hoare I m (fun _ st => I st) ->
  hoare I m (fun r st => forall b, r = Ok b -> I st).
Proof. intros Hm st Hst b _. apply Hm, Hst. Qed.

End Kept.
End KeptFacts.

(** ** lhePlot.py: the binning of the histograms *)

Module LheBinningFacts.
Import LhePlot LheFills PyFacts NumFacts LhePlotFacts KeptFacts.
Local Open Scope Q_scope.
Local Open Scope list_scope.

Section BinningFacts.
Context {V : VectorLib}.

Lemma kept_fill k x w :
  hoare well_binned (fill k x w) (fun _ st => well_binned st).
Proof.
  intros st H. unfold fill.
  destruct (st !! k) as [h|] eqn:E; simpl; [|exact H].
  intros k' h'. destruct (decide (k' = k)) as [->|Hne].
  - rewrite lookup_insert_eq. intros [= <-]. simpl. apply H, E.
  - rewrite lookup_insert_ne by congruence. apply H.
Qed.

Lemma kept_jets_loop wei (jets : list Particle) j_p4 :
  hoare well_binned (jets_loop wei jets j_p4) (fun _ st => well_binned st).
Proof.
  revert j_p4. induction jets as [|j jets IH]; intros j_p4; simpl.
  - apply kept_ret.
  - apply kept_bind; [apply kept_fill|intros _].
    apply kept_bind; [apply kept_fill|intros _]. apply IH.
Qed.

Ltac kept :=
  repeat first
    [ apply kept_fill
    | apply kept_ret
    | apply kept_raise
    | apply kept_lift
    | apply kept_jets_loop
    | apply kept_for_each; intros ?
    | apply kept_bind; [|intros ?]
    | match goal with
      | |- hoare _ (if ?c then _ else _) _ => destruct c
      | |- hoare _ (match ?x with _ => _ end) _ => destruct x
      end ].

Lemma kept_event_body event :
  hoare well_binned (event_body event) (fun _ st => well_binned st).
Proof.
  unfold event_body, selected_body, dijet_fills, deref. cbv zeta. kept.
Qed.

Lemma kept_event_loop reader :
  hoare well_binned (event_loop reader) (fun _ st => well_binned st).
Proof.
  induction reader as [|[event|e] reader IH]; simpl.
  - apply kept_ret.
  - apply kept_bind; [apply kept_event_body | intros _; exact IH].
  - apply kept_raise.
Qed.

Lemma setup_well_binned : well_binned setup_histograms.
Proof.
  assert (H : map_Forall
                (fun k h => h_name h = k /\ binning_of k = Some (h_edges h))
                setup_histograms).
  { apply map_Forall_to_list.
    set (l := map_to_list setup_histograms). vm_compute in l. subst l.
    repeat constructor. }
  intros k h E. exact (H k h E).
Qed.

(** X6.  [analyze] fills and never rebins: every histogram it returns carries the
    name of its key and the bin edges [setup_histograms] gave it. *)
Theorem analyze_keeps_binning reader st :
  analyze reader = Ok st ->
  forall k h,
    st !! k = Some h ->
    h_name h = k
    /\ exists binning, In (k, binning) bins /\ h_edges h = binning.
Proof.
  intros E k h Hk. unfold analyze in E.
  pose proof (kept_event_loop reader setup_histograms setup_well_binned) as H.
  destruct (event_loop reader setup_histograms) as [st' r]; simpl in *.
  destruct r as [[]|e]; [|discriminate]. injection E as <-.
  destruct (H k h Hk) as [Hn Hb]. split; [exact Hn|].
  exists (h_edges h). split; [|reflexivity].
  unfold binning_of in Hb.
  destruct (find (fun ob => String.eqb (fst ob) k) bins) as [[k' b]|] eqn:Ef;
    [|discriminate].
  injection Hb as <-. apply find_some in Ef as [Hin Heq].
  apply String.eqb_eq in Heq. simpl in Heq. now subst k'.
Qed.

End BinningFacts.
End LheBinningFacts.

(** *** The fills at concrete files *)

Module LheFillsExamples.
Import LhePlot LheFills LheExamples LhePlotFacts NumFacts.
Local Open Scope Q_scope.
Local Open Scope list_scope.

Lemma three_events_run : analyze three_events = Ok three_events_histograms.
Proof. vm_compute. reflexivity. Qed.

Lemma counts_for_every_event_witness :
  analyze three_events = Ok three_events_histograms
  /\ entries_of three_events_histograms "nlep"
     = map (fun event => (Qnat (length (leptons_of event)), 1))
           (events_of three_events).
Proof.
  split; [exact three_events_run|].
  apply (LheFillsFacts.counts_for_every_event _ _ three_events_run).
Defined.

Lemma weight_and_lepton_fills_witness :
  analyze three_events = Ok three_events_histograms
  /\ entries_of three_events_histograms "wei"
     = map (fun wei => (wei, 1))
           (flat_map selected_weight (events_of three_events)).
Proof.
  split; [exact three_events_run|].
  apply (LheFillsFacts.weight_and_lepton_fills _ _ three_events_run).
Defined.

Lemma jet_fills_witness :
  analyze three_events = Ok three_events_histograms
  /\ entries_of three_events_histograms "jets_ht"
     = flat_map
         (fun event =>
            match weighted_selection event, p4_sum (map p4 (jets_of event)) with
            | Some (_, wei), Some j => [(p4_pt j, wei)]
            | _, _ => []
            end)
         (events_of three_events).
Proof.
  split; [exact three_events_run|].
  apply (LheFillsFacts.jet_fills _ _ three_events_run).
Defined.

Lemma boson_and_parton_fills_witness :
  analyze three_events = Ok three_events_histograms
  /\ entries_of three_events_histograms "z_mass"
     = flat_map
         (fun event =>
            flat_map (fun wei => map (fun x => (p4_mass (p4 x), wei))
                                     (Zs_of event))
                     (selected_weight event))
         (events_of three_events).
Proof.
  split; [exact three_events_run|].
  apply (LheFillsFacts.boson_and_parton_fills _ _ three_events_run).
Defined.

Lemma soft_lepton_pair_raises_witness :
  length (leptons_of ev_soft_leptons) = 2%nat
  /\ (forall l, In l (leptons_of ev_soft_leptons) -> p4_pt (p4 l) < 1)
  /\ analyze [Yield ev_full; Yield ev_soft_leptons; Yield ev_full]
     = Raise (AttributeError "NoneType" "pt").
Proof.
  assert (H2 : length (leptons_of ev_soft_leptons) = 2%nat) by reflexivity.
  assert (Hs : forall l, In l (leptons_of ev_soft_leptons) -> p4_pt (p4 l) < 1).
  { intros l [<-|[<-|[]]]; vm_compute; reflexivity. }
  split; [exact H2|]. split; [exact Hs|].
  apply (proj2 (proj2 (LheFillsFacts.soft_lepton_pair_raises ev_soft_leptons H2 Hs))
           [Yield ev_full] [Yield ev_full]).
  vm_compute. reflexivity.
Defined.

Lemma analyze_keeps_binning_witness :
  analyze three_events = Ok three_events_histograms
  /\ three_events_histograms !! "dilep_pt"
     = Some (mkHist "dilep_pt" (linspace 0 600 100)
               [(300, 1 # 2); (300, 3 # 2)])
  /\ exists binning,
       In ("dilep_pt", binning) bins /\ linspace 0 600 100 = binning.
Proof.
  assert (Hk : three_events_histograms !! "dilep_pt"
               = Some (mkHist "dilep_pt" (linspace 0 600 100)
                         [(300, 1 # 2); (300, 3 # 2)])).
  { vm_compute. reflexivity. }
  split; [exact three_events_run|]. split; [exact Hk|].
  apply (LheBinningFacts.analyze_keeps_binning _ _ three_events_run _ _ Hk).
Defined.

Lemma analyze_concat_witness :
  (analyze three_events = Ok three_events_histograms
   /\ analyze [Yield ev_full] = Ok (fst (event_loop [Yield ev_full] setup_histograms)))
  /\ exists st,
       analyze (three_events ++ [Yield ev_full]) = Ok st
       /\ forall k,
           entries_of st k
           = entries_of three_events_histograms k
             ++ entries_of (fst (event_loop [Yield ev_full] setup_histograms)) k.
Proof.
  assert (E : analyze [Yield ev_full]
              = Ok (fst (event_loop [Yield ev_full] setup_histograms)))
    by (vm_compute; reflexivity).
  split; [split; [exact three_events_run | exact E]|].
  apply (LheFillsFacts.analyze_concat _ _ _ _ three_events_run E).
Defined.

End LheFillsExamples.

(** ** vplusjetPDFsyst.py: counters, axes and per-row fills of [process] *)

Module ProcessCountsFacts.
Import VPlusJet ProcessCounts PyFacts NumFacts KeptFacts VPlusJetFacts ProcessFacts.
Local Open Scope Q_scope.
Local Open Scope list_scope.

Section CountsFacts.
Context {NV : NanoVectors}.

(** *** Statements that leave the counters or the axes alone *)

Section KeptByProcess.
Variable I : Output -> Prop.
Hypothesis I_hists :
  forall name h new output,
    hists output !! name = Some h ->
    I output ->
    I (mkOutput (<[name := mkCHist (ch_has_PDFwei h) (ch_axis h)
                             (ch_entries h ++ new)]> (hists output))
                (cutflow output) (sumw output)).

Lemma kept_hfill name dataset cat values weights :
  hoare I (hfill name dataset cat values weights) (fun _ out => I out).
Proof.
  intros out H. unfold hfill.
  destruct (hists out !! name) as [h|] eqn:E; [|exact H].
  destruct (negb _); [exact H|]. simpl. now apply I_hists.
Qed.

Lemma kept_require events b :
  hoare I (require events b) (fun _ out => I out).
Proof.
  unfold require. destruct (existsb _ _); [apply kept_raise | apply kept_ret].
Qed.

Lemma kept_pdf_loop dataset sel dilep_pt weight :
  hoare I (pdf_loop dataset sel dilep_pt weight) (fun _ out => I out).
Proof.
  unfold pdf_loop. apply kept_for_each. intros p.
  apply kept_bind; [apply kept_lift | intros pdf; apply kept_hfill].
Qed.

Hypothesis I_counters :
  forall output c s, I output -> I (mkOutput (hists output) c s).

Lemma kept_cutflow_add dataset key n :
  hoare I (cutflow_add dataset key n) (fun _ out => I out).
Proof. intros out H. now apply I_counters. Qed.

Lemma kept_sumw_add dataset x :
  hoare I (sumw_add dataset x) (fun _ out => I out).
Proof. intros out H. now apply I_counters. Qed.

Lemma kept_process_body events :
  hoare I (process_body events) (fun _ out => I out).
Proof.
  unfold process_body. apply kept_bind; [apply kept_lift | intros dataset].
  cbv zeta.
  do 23 (apply kept_bind;
         [ lazymatch goal with
           | |- hoare _ (require _ _) _ => apply kept_require
           | |- hoare _ (hfill _ _ _ _ _) _ => apply kept_hfill
           | |- hoare _ (lift _) _ => apply kept_lift
           | |- hoare _ (for_each _ _) _ =>
               apply kept_for_each; intros ?; apply kept_require
           | |- hoare _ (cutflow_add _ _ _) _ => apply kept_cutflow_add
           | |- hoare _ (sumw_add _ _) _ => apply kept_sumw_add
           end
         | intros ? ]).
  apply kept_pdf_loop.
Qed.

End KeptByProcess.

Lemma Counts_hists c s name h new output :
  hists output !! name = Some h ->
  Counts c s output ->
  Counts c s
    (mkOutput (<[name := mkCHist (ch_has_PDFwei h) (ch_axis h)
                           (ch_entries h ++ new)]> (hists output))
              (cutflow output) (sumw output)).
Proof. intros _ H. exact H. Qed.

Lemma hoare_cutflow_counts c s dataset key n :
  hoare (Counts c s) (cutflow_add dataset key n)
    (fun _ out =>
       Counts (<[dataset := <[key := (default 0%Z (default ∅ (c !! dataset) !! key)
                                      + n)%Z]>
                              (default ∅ (c !! dataset))]> c) s out).
Proof. intros out [<- <-]. split; reflexivity. Qed.

Lemma hoare_sumw_counts c s dataset x :
  hoare (Counts c s) (sumw_add dataset x)
    (fun _ out =>
       Counts c (<[dataset := default 0 (s !! dataset) + x]> s) out).
Proof. intros out [<- <-]. split; reflexivity. Qed.

Ltac counts_step :=
  eapply returns_bind;
  [ lazymatch goal with
    | |- hoare _ (require _ _) _ => apply kept_require
    | |- hoare _ (hfill _ _ _ _ _) _ =>
        apply (kept_hfill _ (Counts_hists _ _))
    | |- hoare _ (lift _) _ => apply kept_lift
    | |- hoare _ (for_each _ _) _ =>
        apply kept_for_each; intros ?; apply kept_require
    | |- hoare _ (cutflow_add _ _ _) _ => apply hoare_cutflow_counts
    | |- hoare _ (sumw_add _ _) _ => apply hoare_sumw_counts
    end
  | intros ? ].

Lemma hoare_process_counts events dataset :
  metadata events !! "dataset" = Some dataset ->
  hoare (Counts ∅ ∅) (process_body events)
    (fun r out =>
       forall b, r = Ok b ->
       Counts
         {[dataset :=
             {["all_events" := Z.of_nat (length (rows events));
               "number_of_chunks" := 1%Z;
               "selected_events" := Z.of_nat (length (selected_events events))]}]}
         {[dataset := 0 + Qsum (map ev_genWeight (rows events))]} out).
Proof.
  intros Eds. unfold process_body, getitem. rewrite Eds.
  apply hoare_bind_lift_ok. cbv zeta.
  do 23 counts_step.
  intros out H b _.
  match type of H with
  | Counts ?c ?s _ =>
      match goal with
      | |- context [pdf_loop ?d ?sel ?dp ?w] =>
          destruct (kept_pdf_loop (Counts c s) (Counts_hists c s)
                      d sel dp w out H) as [Hc Hs]
      end
  end.
  split.
  - rewrite Hc. clear.
    rewrite mask_select_map, length_map.
    fold (selected_events events).
    repeat first [ rewrite lookup_insert_eq
                 | rewrite lookup_empty
                 | rewrite lookup_insert_ne by discriminate
                 | progress cbn [from_option id Z.add] ].
    rewrite !insert_insert_eq.
    rewrite insert_empty. f_equal.
  - rewrite Hs. rewrite lookup_empty. cbn [from_option id].
    now rewrite insert_empty.
Qed.

Lemma same_axes_identity acc : same_axes acc (identity acc).
Proof.
  intros name. unfold identity. simpl. rewrite lookup_fmap.
  destruct (hists acc !! name); reflexivity.
Qed.

Lemma same_axes_hists acc name h new output :
  hists output !! name = Some h ->
  same_axes acc output ->
  same_axes acc
    (mkOutput (<[name := mkCHist (ch_has_PDFwei h) (ch_axis h)
                           (ch_entries h ++ new)]> (hists output))
              (cutflow output) (sumw output)).
Proof.
  intros E H name'. simpl. destruct (decide (name' = name)) as [->|Hne].
  - rewrite lookup_insert_eq, <- (H name), E. reflexivity.
  - rewrite lookup_insert_ne by congruence. apply H.
Qed.

Lemma length_concat_const {A B} (f : A -> list B) n (l : list A) :
  (forall x, In x l -> length (f x) = n) ->
  length (concat (map f l)) = (length l * n)%nat.
Proof.
  induction l as [|x l IH]; intros H; simpl; [reflexivity|].
  rewrite length_app, IH by (intros y Hy; apply H; now right).
  rewrite (H x) by now left. reflexivity.
Qed.

Lemma process_returns self events out :
  has_histograms (_accumulator self) ->
  process self events = Ok out ->
  exists dataset,
    metadata events !! "dataset" = Some dataset
    /\ forall name, centries out name = fills_of events dataset name.
Proof.
  intros Hh E. pose proof (process_Ok_result self events out Hh E) as Hres.
  pose proof (process_spec self events Hh) as H. rewrite Hres in H.
  destruct H as (out' & dataset & E' & Hds & _ & Hc).
  rewrite E in E'. injection E' as <-. eauto.
Qed.

(** *** Properties of the output of [process] *)

(** X8.  [process] starts from empty counters, whatever the accumulator holds:
    when it returns, the cutflow of the output has the dataset of the chunk
    as its only key, with the number of rows under 'all_events', 1 under
    'number_of_chunks' and the number of rows in [full_selection] under
    'selected_events', and 'sumw' holds the sum of genWeight over all rows. *)
Theorem process_counters self events out :
  process self events = Ok out ->
  exists dataset,
    metadata events !! "dataset" = Some dataset
    /\ cutflow out
       = {[dataset :=
             {["all_events" := Z.of_nat (length (rows events));
               "number_of_chunks" := 1%Z;
               "selected_events" := Z.of_nat (length (selected_events events))]}]}
    /\ sumw out = {[dataset := 0 + Qsum (map ev_genWeight (rows events))]}.
Proof.
  intros E. unfold process in E.
  destruct (metadata events !! "dataset") as [dataset|] eqn:Eds.
  2:{ unfold process_body, getitem in E. rewrite Eds in E. discriminate. }
  exists dataset. split; [reflexivity|].
  pose proof (hoare_process_counts events dataset Eds
                (identity (_accumulator self)) (conj eq_refl eq_refl)) as H.
  destruct (process_body events (identity (_accumulator self))) as [out' r].
  destruct r as [[]|e]; [|discriminate]. injection E as <-.
  exact (H tt eq_refl).
Qed.

(** X9.  [process] never rebins and neither adds nor drops a histogram: the
    output has a histogram under exactly the names of the accumulator, each
    with the binning and the PDFwei category of the accumulator's. *)
Theorem process_keeps_axes self events out :
  process self events = Ok out ->
  dom (hists out) = dom (hists (_accumulator self))
  /\ forall name h,
       hists out !! name = Some h ->
       exists h0,
         hists (_accumulator self) !! name = Some h0
         /\ ch_axis h = ch_axis h0
         /\ ch_has_PDFwei h = ch_has_PDFwei h0.
Proof.
  intros E. unfold process in E.
  pose proof (kept_process_body (same_axes (_accumulator self))
                (same_axes_hists (_accumulator self))
                (fun output c s H => H) events
                (identity (_accumulator self))
                (same_axes_identity (_accumulator self))) as H.
  destruct (process_body events (identity (_accumulator self))) as [out' r].
  destruct r as [[]|e]; [|discriminate]. injection E as <-. simpl in H.
  split.
  - apply set_eq. intros name. rewrite !elem_of_dom. specialize (H name).
    destruct (hists out' !! name), (hists (_accumulator self) !! name);
      simpl in H; try discriminate; split; intros [? ?]; eauto.
  - intros name h Hn. specialize (H name). rewrite Hn in H.
    destruct (hists (_accumulator self) !! name) as [h0|]; [|discriminate].
    exists h0. injection H as H1 H2. auto.
Qed.

(** X10.  The four histograms filled before the selection get one entry per row
    of the chunk: 'LHE_Vpt' the LHE boson pt weighted by genWeight, 'wei'
    the sign of genWeight with weight 1, 'nlep' the number of good muons
    (electrons are not counted) with weight 1, and 'njet15' the number of
    clean tight jets above pt 30 with weight 1. *)
Theorem per_row_fills self events out :
  has_histograms (_accumulator self) ->
  process self events = Ok out ->
  exists dataset,
    metadata events !! "dataset" = Some dataset
    /\ centries out "LHE_Vpt"
       = map (fun e => mkCEntry dataset None (Val (ev_LHE_Vpt e)) (ev_genWeight e))
             (rows events)
    /\ centries out "wei"
       = map (fun e => mkCEntry dataset None (sign_of (ev_genWeight e)) 1)
             (rows events)
    /\ centries out "nlep"
       = map (fun e => mkCEntry dataset None
                         (Val (Qnat (length (List.filter goodmuon (ev_Muon e))))) 1)
             (rows events)
    /\ centries out "njet15"
       = map (fun e => mkCEntry dataset None (Val (Qnat (length (good_jets e)))) 1)
             (rows events).
Proof.
  intros Hh E. destruct (process_returns self events out Hh E) as (ds & Hds & Hc).
  exists ds. split; [exact Hds|]. rewrite !Hc. repeat split.
Qed.

(** X11.  The value filled in 'wei' is not-a-number for a zero weight, and
    otherwise 1 for a positive and -1 for a negative weight. *)
Theorem sign_of_spec w :
  (w == 0 -> sign_of w = NaN)
  /\ (0 < w -> exists x, sign_of w = Val x /\ x == 1)
  /\ (w < 0 -> exists x, sign_of w = Val x /\ x == -1).
Proof.
  unfold sign_of. split; [|split].
  - intros H. assert (E : Qabs w == 0) by (rewrite H; reflexivity).
    apply Qeq_bool_iff in E. now rewrite E.
  - intros H. assert (Ha : Qabs w == w) by (apply Qabs_pos; now apply Qlt_le_weak).
    destruct (Qeq_bool (Qabs w) 0) eqn:E.
    + apply Qeq_bool_iff in E. rewrite Ha in E. rewrite E in H.
      now apply Qlt_irrefl in H.
    + eexists. split; [reflexivity|]. rewrite Ha. field.
      intros Hw. rewrite Hw in H. now apply Qlt_irrefl in H.
  - intros H. assert (Ha : Qabs w == - w) by (apply Qabs_neg; now apply Qlt_le_weak).
    destruct (Qeq_bool (Qabs w) 0) eqn:E.
    + apply Qeq_bool_iff in E. rewrite Ha in E.
      assert (Hw : w == 0) by (rewrite <- (Qopp_involutive w), E; reflexivity).
      rewrite Hw in H. now apply Qlt_irrefl in H.
    + eexists. split; [reflexivity|]. rewrite Ha. field.
      intros Hw. rewrite Hw in H. now apply Qlt_irrefl in H.
Qed.

(** X12.  When [process] returns, every histogram filled after the selection holds
    one entry per selected event, and 'dilep_pt' holds 33: one under
    'Default' and one under each of the 32 PDF indices. *)
Theorem selected_entry_counts self events out :
  has_histograms (_accumulator self) ->
  process self events = Ok out ->
  length (centries out "dilep_pt")
  = (33 * length (selected_events events))%nat
  /\ forall name,
       In name ["dilep_m"; "dijet_m"; "dijet_pt"; "dijet_dr"] ->
       length (centries out name) = length (selected_events events).
Proof.
  intros Hh E. destruct (process_returns self events out Hh E) as (ds & Hds & Hc).
  split.
  - rewrite Hc. unfold fills_of. cbn [String.eqb Ascii.eqb Bool.eqb andb].
    rewrite length_app, length_map.
    rewrite (length_concat_const _ (length (selected_events events)))
      by (intros; apply length_map).
    rewrite length_seq. lia.
  - intros name Hn. rewrite Hc. unfold fills_of.
    cbn in Hn. destruct Hn as [<-|[<-|[<-|[<-|[]]]]];
      cbn [String.eqb Ascii.eqb Bool.eqb andb]; apply length_map.
Qed.

(** *** The electron selection *)

(** X13.  An electron with |eta| equal to 1.479 passes neither the barrel
    condition (|eta| < 1.479) nor the endcap condition (|eta| > 1.479): it
    is not a good electron, whatever its other properties. *)
Theorem goodelectron_gap el :
  Qabs (k_eta (el_kin el)) == 1479 # 1000 ->
  goodelectron el = false.
Proof.
  intros H. unfold goodelectron. cbv zeta.
  assert (H1 : Qltb (Qabs (k_eta (el_kin el))) 1.479 = false).
  { apply Qltb_ge. rewrite H. apply Qle_refl. }
  assert (H2 : Qgtb (Qabs (k_eta (el_kin el))) 1.479 = false).
  { apply Qgtb_le. rewrite H. apply Qle_refl. }
  rewrite H1, H2. rewrite !andb_false_r. reflexivity.
Qed.

(** *** The cleaning mask *)

(** X14.  The mask depends on the objects of [obj_B] only, not on their order or
    multiplicity: an object of [obj_A] is clean exactly when it is farther
    than [drmin] from every object of [obj_B]. *)
Theorem isClean_by_objects obj_A obj_B obj_B' drmin :
  (forall b, In b obj_B <-> In b obj_B') ->
  isClean obj_A obj_B drmin = isClean obj_A obj_B' drmin
  /\ forall i a,
       obj_A !! i = Some a ->
       (isClean obj_A obj_B drmin !! i = Some true
        <-> forall b, In b obj_B -> drmin < delta_r a b).
Proof.
  intros Hsame. split.
  - rewrite !isClean_map. apply map_ext. intros a.
    apply eq_true_iff_eq. rewrite !clean_mask_spec.
    split; intros H b Hb; apply H, Hsame, Hb.
  - intros i a Hi. rewrite isClean_map, list_lookup_fmap, Hi. simpl.
    rewrite <- clean_mask_spec. split; [now intros [= ->] | now intros ->].
Qed.

(** X15.  The conjunction of the mask against the electrons and the mask against
    the muons, as line 143 builds it, is the mask against both collections
    together. *)
Theorem isClean_both obj_A obj_B1 obj_B2 drmin :
  zip_with andb (isClean obj_A obj_B1 drmin) (isClean obj_A obj_B2 drmin)
  = isClean obj_A (obj_B1 ++ obj_B2) drmin.
Proof.
  rewrite !isClean_map, zip_with_map. apply map_ext. intros a.
  apply eq_true_iff_eq. rewrite andb_true_iff, !clean_mask_spec. split.
  - intros [H1 H2] b [Hb|Hb]%in_app_iff; auto.
  - intros H. split; intros b Hb; apply H, in_app_iff; auto.
Qed.

End CountsFacts.
End ProcessCountsFacts.

(** *** The output of [process] at a concrete chunk *)

Module ProcessCountsExamples.
Import VPlusJet VpjExamples ProcessCounts VPlusJetFacts ProcessFacts.
Local Open Scope Q_scope.
Local Open Scope list_scope.

Lemma init_histograms : has_histograms (_accumulator init).
Proof.
  intros name Hn. cbn in Hn.
  repeat (destruct Hn as [<-|Hn]; [vm_compute; eexists; reflexivity|]).
  destruct Hn.
Qed.

(** a selected event, an event without jets and a second selected event *)
Lemma three_rows_run :
  exists out,
    process init (chunk_of [ev_selected; ev_no_jets; ev_soft]) = Ok out.
Proof. vm_compute. eexists. reflexivity. Qed.

Lemma process_counters_witness :
  exists out,
    process init (chunk_of [ev_selected; ev_no_jets; ev_soft]) = Ok out
    /\ cutflow out !! "2017_DY1J"
       = Some {["all_events" := 3%Z; "number_of_chunks" := 1%Z;
                "selected_events" := 2%Z]}.
Proof.
  destruct three_rows_run as [out E]. exists out. split; [exact E|].
  destruct (ProcessCountsFacts.process_counters _ _ _ E) as (ds & Hds & Hc & _).
  injection Hds as <-. rewrite Hc. apply lookup_singleton_eq.
Defined.

Lemma process_keeps_axes_witness :
  exists out,
    process init (chunk_of [ev_selected; ev_no_jets; ev_soft]) = Ok out
    /\ dom (hists out) = dom (hists (_accumulator init)).
Proof.
  destruct three_rows_run as [out E]. exists out. split; [exact E|].
  apply (ProcessCountsFacts.process_keeps_axes _ _ _ E).
Defined.

Lemma per_row_fills_witness :
  has_histograms (_accumulator init)
  /\ exists out,
       process init (chunk_of [ev_selected; ev_no_jets; ev_soft]) = Ok out
       /\ centries out "njet15"
          = map (fun e => mkCEntry "2017_DY1J" None
                            (Val (Qnat (length (good_jets e)))) 1)
                [ev_selected; ev_no_jets; ev_soft].
Proof.
  split; [exact init_histograms|].
  destruct three_rows_run as [out E]. exists out. split; [exact E|].
  destruct (ProcessCountsFacts.per_row_fills _ _ _ init_histograms E)
    as (ds & Hds & _ & _ & _ & Hj).
  injection Hds as <-. exact Hj.
Defined.

Lemma sign_of_spec_witness :
  0 < 3 # 2 /\ exists x, sign_of (3 # 2) = Val x /\ x == 1.
Proof.
  assert (H : 0 < 3 # 2) by reflexivity.
  split; [exact H|].
  apply (proj1 (proj2 (ProcessCountsFacts.sign_of_spec (3 # 2))) H).
Defined.

Lemma selected_entry_counts_witness :
  has_histograms (_accumulator init)
  /\ exists out,
       process init (chunk_of [ev_selected; ev_no_jets; ev_soft]) = Ok out
       /\ length (centries out "dilep_pt")
          = (33 * length (selected_events
                            (chunk_of [ev_selected; ev_no_jets; ev_soft])))%nat.
Proof.
  split; [exact init_histograms|].
  destruct three_rows_run as [out E]. exists out. split; [exact E|].
  apply (ProcessCountsFacts.selected_entry_counts _ _ _ init_histograms E).
Defined.

Lemma goodelectron_gap_witness :
  Qabs (k_eta (mkKin 40 (-1479 # 1000) 0 0)) == 1479 # 1000
  /\ goodelectron (mkElectron (mkKin 40 (-1479 # 1000) 0 0) 0 0 0 0 1) = false.
Proof.
  assert (H : Qabs (k_eta (mkKin 40 (-1479 # 1000) 0 0)) == 1479 # 1000)
    by reflexivity.
  split; [exact H|].
  apply (ProcessCountsFacts.goodelectron_gap
           (mkElectron (mkKin 40 (-1479 # 1000) 0 0) 0 0 0 0 1) H).
Defined.

(** the same two muons in the other order, one of them twice *)
Lemma isClean_by_objects_witness :
  isClean [jet_kin jet_a; jet_kin jet_b] [mu_kin mu_plus; mu_kin mu_minus] 0.4
  = isClean [jet_kin jet_a; jet_kin jet_b]
      [mu_kin mu_minus; mu_kin mu_plus; mu_kin mu_minus] 0.4.
Proof.
  apply (ProcessCountsFacts.isClean_by_objects
           [jet_kin jet_a; jet_kin jet_b]
           [mu_kin mu_plus; mu_kin mu_minus]
           [mu_kin mu_minus; mu_kin mu_plus; mu_kin mu_minus] 0.4).
  intros b. simpl. tauto.
Defined.

End ProcessCountsExamples.

(** ** [getRootFiles]: the strings and the listing *)

Module FilesFacts.
Import Cli PyFacts.
Local Open Scope list_scope.

(** *** Splitting and joining *)

Lemma split_nonempty sep s : split sep s <> [].
Proof.
  destruct s as [|c s]; simpl; [discriminate|].
  destruct (Ascii.eqb c sep); [discriminate|].
  destruct (split sep s); discriminate.
Qed.

Lemma split_cons_sep sep s : split sep (String sep s) = EmptyString :: split sep s.
Proof. simpl. now rewrite Ascii.eqb_refl. Qed.

Lemma split_String sep c s :
  split sep (String c s)
  = if Ascii.eqb c sep then EmptyString :: split sep s
    else match split sep s with
         | h :: t => String c h :: t
         | [] => [String c EmptyString]
         end.
Proof. reflexivity. Qed.

Lemma split_app sep a b :
  split sep (a ++ String sep b)%string = split sep a ++ split sep b.
Proof.
  induction a as [|c a IH].
  - apply split_cons_sep.
  - change (String c a ++ String sep b)%string
      with (String c (a ++ String sep b)%string).
    rewrite !split_String, IH. destruct (Ascii.eqb c sep); [reflexivity|].
    pose proof (split_nonempty sep a) as Hne.
    destruct (split sep a) as [|h t]; [contradiction|reflexivity].
Qed.

Lemma split_plain sep s :
  ~ In sep (list_ascii_of_string s) -> split sep s = [s].
Proof.
  induction s as [|c s IH]; simpl; intros H; [reflexivity|].
  destruct (Ascii.eqb_spec c sep) as [->|Hne]; [tauto|].
  rewrite IH by tauto. reflexivity.
Qed.

Lemma join_cons sep x y l :
  join sep (x :: y :: l) = (x ++ sep ++ join sep (y :: l))%string.
Proof. reflexivity. Qed.

Lemma join_split sep s : join (String sep EmptyString) (split sep s) = s.
Proof.
  induction s as [|c s IH]; [reflexivity|]. rewrite split_String.
  pose proof (split_nonempty sep s) as Hne.
  destruct (Ascii.eqb_spec c sep) as [->|Hc].
  - destruct (split sep s) as [|h t]; [contradiction|].
    rewrite join_cons, IH. reflexivity.
  - destruct (split sep s) as [|h [|x t]]; [contradiction| |].
    + simpl in *. now rewrite IH.
    + rewrite join_cons. rewrite join_cons in IH.
      change (String c h ++ String sep EmptyString ++ join (String sep EmptyString) (x :: t))%string
        with (String c (h ++ String sep EmptyString ++ join (String sep EmptyString) (x :: t))%string).
      now rewrite IH.
Qed.

Lemma append_assoc (a b c : string) : ((a ++ b) ++ c = a ++ (b ++ c))%string.
Proof.
  induction a as [|x a IH]; [reflexivity|].
  change (String x ((a ++ b) ++ c) = String x (a ++ (b ++ c)))%string.
  now f_equal.
Qed.

(** *** Suffixes *)

Lemma substring_all s : substring 0 (String.length s) s = s.
Proof. induction s as [|c s IH]; simpl; [reflexivity|]. now rewrite IH. Qed.

Lemma substring_skip p n s :
  substring (String.length p) n (p ++ s) = substring 0 n s.
Proof. induction p as [|c p IH]; simpl; [reflexivity|exact IH]. Qed.

Lemma length_append (a b : string) :
  String.length (a ++ b) = (String.length a + String.length b)%nat.
Proof.
  induction a as [|c a IH]; [reflexivity|].
  change (S (String.length (a ++ b)) = S (String.length a + String.length b)).
  now f_equal.
Qed.

Lemma substring_split n s :
  (n <= String.length s)%nat ->
  s = (substring 0 n s ++ substring n (String.length s - n) s)%string.
Proof.
  revert n. induction s as [|c s IH]; intros n Hn; simpl in *.
  - destruct n; [reflexivity|lia].
  - destruct n as [|n]; simpl.
    + now rewrite substring_all.
    + change (String c s
              = String c (substring 0 n s
                          ++ substring n (String.length s - n) s)%string).
      f_equal. apply IH. lia.
Qed.

Lemma endswith_spec suffix s :
  endswith suffix s = true <-> exists p, s = (p ++ suffix)%string.
Proof.
  unfold endswith. rewrite andb_true_iff, Nat.leb_le, String.eqb_eq. split.
  - intros [Hlen E].
    exists (substring 0 (String.length s - String.length suffix) s).
    pose proof (substring_split (String.length s - String.length suffix) s) as H.
    replace (String.length s - (String.length s - String.length suffix))%nat
      with (String.length suffix) in H by lia.
    rewrite E in H. apply H. lia.
  - intros [p ->]. rewrite length_append. split; [lia|].
    replace (String.length p + String.length suffix - String.length suffix)%nat
      with (String.length p) by lia.
    rewrite substring_skip. apply substring_all.
Qed.

Lemma endswith_append suffix a b :
  endswith suffix b = true -> endswith suffix (a ++ b) = true.
Proof.
  rewrite !endswith_spec. intros [p ->]. exists (a ++ p)%string.
  now rewrite append_assoc.
Qed.

(** *** The comprehension over the enumerated listing *)

Lemma combine_seq_ge {A} (l : list A) a jf :
  In jf (combine (seq a (length l)) l) -> (a <= fst jf)%nat.
Proof.
  revert a. induction l as [|x l IH]; intros a; simpl; [tauto|].
  intros [<-|H]; simpl; [lia|]. apply IH in H. lia.
Qed.

Lemma filter_nothing {A} (f : A -> bool) l :
  (forall x, In x l -> f x = false) -> List.filter f l = [].
Proof.
  induction l as [|x l IH]; intros H; simpl; [reflexivity|].
  rewrite (H x) by now left. apply IH. intros y Hy. apply H. now right.
Qed.

Lemma filter_enumerate_lim {A} (p : A -> bool) (l : list A) a n :
  List.filter (fun jf => p (snd jf) && (fst jf <? a + n)%nat)
              (combine (seq a (length l)) l)
  = List.filter (fun jf => p (snd jf) && true)
                (combine (seq a (length (firstn n l))) (firstn n l)).
Proof.
  revert a n. induction l as [|x l IH]; intros a n.
  - now rewrite firstn_nil.
  - destruct n as [|n].
    + simpl firstn. simpl combine at 2. apply filter_nothing.
      intros jf Hjf. apply (combine_seq_ge (x :: l)) in Hjf.
      apply andb_false_iff. right. apply Nat.ltb_ge. lia.
    + cbn [firstn length seq combine List.filter fst snd].
      replace (a <? a + S n)%nat with true by (symmetry; apply Nat.ltb_lt; lia).
      replace (a + S n)%nat with (S a + n)%nat by lia.
      rewrite IH. reflexivity.
Qed.

Lemma filter_enumerate_all {A} (p : A -> bool) (l : list A) a :
  map snd (List.filter (fun jf => p (snd jf) && true)
                       (combine (seq a (length l)) l))
  = List.filter p l.
Proof.
  revert a. induction l as [|x l IH]; intros a; simpl; [reflexivity|].
  rewrite andb_true_r. destruct (p x); simpl; now rewrite IH.
Qed.

Lemma filter_length_le {A} (f : A -> bool) l :
  (length (List.filter f l) <= length l)%nat.
Proof.
  induction l as [|x l IH]; simpl; [lia|]. destruct (f x); simpl; lia.
Qed.

Section ListingFacts.
Variable xrdfs_ls : string -> string -> result string.
Variable listdir : string -> result (list string).

(** *** Properties of [getRootFiles] *)

(** the pieces of a remote directory name, without and with the closing
    slash *)
Lemma split_remote host path :
  ~ In "/"%char (list_ascii_of_string host) ->
  let d' := (("root://" ++ host) ++ "/" ++ path)%string in
  split "/" d' = ["root:"; ""; host]%string ++ split "/" path
  /\ split "/" (d' ++ "/") = ["root:"; ""; host]%string ++ split "/" path ++ [""%string].
Proof.
  intros Hhost d'.
  assert (Hd' : split "/" d' = ["root:"; ""; host]%string ++ split "/" path).
  { assert (E : d' = ("root:" ++ String "/" ("" ++ String "/"
                          (host ++ String "/" path)))%string).
    { unfold d'. rewrite append_assoc. reflexivity. }
    rewrite E, !split_app, (split_plain _ host Hhost). reflexivity. }
  split; [exact Hd'|].
  change (d' ++ "/")%string with (d' ++ String "/" "")%string.
  rewrite split_app, Hd'. now rewrite <- app_assoc.
Qed.


(** X17.  Every name [getRootFiles] returns ends with '.root'. *)
Theorem getRootFiles_root_only d lim files f :
  getRootFiles xrdfs_ls listdir d lim = Ok files ->
  In f files ->
  endswith ".root" f = true.
Proof.
  unfold getRootFiles. intros E Hf.
  destruct (contains "xrootd" d).
  - apply rbind_ok in E as (out & _ & [= <-]).
    apply in_map_iff in Hf as ([j x] & <- & Hx).
    apply filter_In in Hx as [_ Hx]. apply andb_true_iff in Hx as [Hx _].
    apply endswith_append, Hx.
  - apply rbind_ok in E as (names & _ & [= <-]).
    apply in_map_iff in Hf as ([j x] & <- & Hx).
    apply filter_In in Hx as [_ Hx]. apply andb_true_iff in Hx as [Hx _].
    cbn [fst snd] in *. unfold path_join.
    destruct (startswith "/" x); [exact Hx|].
    destruct (_ || _); repeat apply endswith_append; exact Hx.
Qed.

(** X18.  [lim] bounds the position in the listing, not the number of files
    returned: for a local directory the result with [lim = n] is the result
    on the first [n] entries of the listing, so a '.root' file listed after
    [n] other entries is left out; in both branches at most [n] names are
    returned. *)
Theorem getRootFiles_lim d n :
  (contains "xrootd" d = false ->
   getRootFiles xrdfs_ls listdir d (Some n)
   = getRootFiles xrdfs_ls
       (fun d' => rbind (listdir d') (fun names => Ok (firstn n names)))
       d None)
  /\ (forall files,
        getRootFiles xrdfs_ls listdir d (Some n) = Ok files ->
        (length files <= n)%nat).
Proof.
  split.
  - intros Hd. unfold getRootFiles. rewrite Hd.
    destruct (listdir d) as [names|e]; [|reflexivity]. simpl.
    unfold enumerate. f_equal. f_equal.
    apply (filter_enumerate_lim (endswith ".root") names 0 n).
  - intros files E. unfold getRootFiles in E.
    assert (H : forall (l : list string),
               (length (List.filter
                          (fun jf : nat * string =>
                             endswith ".root" (snd jf) && (fst jf <? n)%nat)
                          (enumerate l)) <= n)%nat).
    { intros l. unfold enumerate.
      pose proof (filter_enumerate_lim (endswith ".root") l 0 n) as Hl.
      cbn [Nat.add] in Hl. rewrite Hl.
      etransitivity; [apply filter_length_le|].
      rewrite length_combine, length_seq, Nat.min_id. apply firstn_le_length. }
    destruct (contains "xrootd" d).
    + apply rbind_ok in E as (out & _ & [= <-]). rewrite length_map. apply H.
    + apply rbind_ok in E as (names & _ & [= <-]). rewrite length_map. apply H.
Qed.

(** X19.  For a remote directory root://host/path/ and no [lim], [getRootFiles]
    lists [path] at root://host and returns the site followed by each line
    of the listing that ends with '.root', in the order of the listing; an
    error of the listing command comes out unchanged. *)
Theorem getRootFiles_remote host path :
  ~ In "/"%char (list_ascii_of_string host) ->
  let site := ("root://" ++ host)%string in
  let d := (site ++ "/" ++ path ++ "/")%string in
  contains "xrootd" d = true ->
  getRootFiles xrdfs_ls listdir d None
  = rbind (xrdfs_ls site path)
      (fun out =>
         Ok (map (String.append site)
                 (List.filter (endswith ".root") (split newline out)))).
Proof.
  intros Hhost site d Hd.
  destruct (split_remote host path Hhost) as [_ Hsp].
  fold site in Hsp.
  assert (E : d = ((site ++ "/" ++ path) ++ "/")%string).
  { unfold d. now rewrite !append_assoc. }
  unfold getRootFiles. rewrite Hd. cbv zeta. rewrite E, Hsp.
  cbn [app firstn skipn].
  rewrite firstn_O, skipn_O, removelast_last, (join_split "/").
  change (join "/" ["root:"; ""; host]%string) with site.
  destruct (xrdfs_ls site path) as [out|e]; [|reflexivity]. simpl.
  f_equal. unfold enumerate.
  rewrite <- (filter_enumerate_all (endswith ".root") (split newline out) 0).
  now rewrite map_map.
Qed.

End ListingFacts.
End FilesFacts.

(** ** Plotting: the files that are written *)

Module PlotFilesFacts.
Import Plotting PyFacts PlottingFacts FilesFacts.
Local Open Scope list_scope.

Lemma append_inv_head (a b c : string) : (a ++ b = a ++ c)%string -> b = c.
Proof.
  induction a as [|x a IH]; intros H; [exact H|].
  apply IH. now injection H.
Qed.

Lemma list_ascii_of_string_append (a b : string) :
  list_ascii_of_string (a ++ b)
  = list_ascii_of_string a ++ list_ascii_of_string b.
Proof.
  induction a as [|x a IH]; [reflexivity|].
  change (x :: list_ascii_of_string (a ++ b)
          = x :: (list_ascii_of_string a ++ list_ascii_of_string b)).
  now f_equal.
Qed.

Lemma append_inv_tail (a b c : string) : (a ++ c = b ++ c)%string -> a = b.
Proof.
  intros H. apply (f_equal list_ascii_of_string) in H.
  rewrite !list_ascii_of_string_append in H. apply app_inv_tail in H.
  rewrite <- (string_of_list_ascii_of_string a),
          <- (string_of_list_ascii_of_string b).
  now f_equal.
Qed.

Lemma png_path_inj outdir o1 o2 :
  png_path outdir o1 = png_path outdir o2 -> o1 = o2.
Proof.
  unfold png_path. intros H.
  apply append_inv_head, append_inv_head in H.
  now apply append_inv_tail in H.
Qed.

Section PlotFilesFacts.
Context {Item Image Blob : Type}.
Variable render plotgrid plot1d : Item -> Image.
Variable is_Hist : Item -> bool.
Variable dumps : list (string * Item) -> Blob.
Variable loads : Blob -> result (list (string * Item)).

Lemma files_unwritten (ws : list (string * File Image Blob)) fs path :
  ~ In path (map fst ws) ->
  files (apply_writes ws fs) !! path = files fs !! path.
Proof.
  unfold apply_writes. cbn [files]. generalize (files fs).
  induction ws as [|[p c] ws IH]; intros m Hn; [reflexivity|].
  cbn [fold_left fst snd map] in *.
  rewrite IH by (intros H; apply Hn; now right).
  apply lookup_insert_ne. intros ->. apply Hn. now left.
Qed.

Lemma files_apply_writes_in (ws : list (string * File Image Blob)) fs path c :
  List.NoDup (map fst ws) ->
  In (path, c) ws ->
  files (apply_writes ws fs) !! path = Some c.
Proof.
  revert fs. induction ws as [|[p0 c0] ws IH]; intros fs Hnd Hin; [destruct Hin|].
  cbn [map fst] in Hnd. apply List.NoDup_cons_iff in Hnd as [Hp0 Hnd].
  change ((p0, c0) :: ws) with ([(p0, c0)] ++ ws). rewrite apply_writes_app.
  destruct Hin as [[= -> ->]|Hin].
  - rewrite files_unwritten by exact Hp0. apply lookup_insert_eq.
  - now apply IH.
Qed.

Lemma dirs_apply_writes (ws : list (string * File Image Blob)) fs :
  dirs (apply_writes ws fs) = dirs fs.
Proof. reflexivity. Qed.

Lemma dirs_with_dir outdir (fs : FS Image Blob) :
  dirs (with_dir outdir fs) = {[outdir]} ∪ dirs fs.
Proof.
  unfold with_dir. destruct (bool_decide_reflect (outdir ∈ dirs fs)) as [H|H].
  - apply set_eq. intros x. rewrite elem_of_union, elem_of_singleton.
    split; [tauto | intros [->|Hx]; assumption].
  - reflexivity.
Qed.

Lemma NoDup_map_png outdir {A} (key : A -> string) (l : list A) :
  List.NoDup (map key l) -> List.NoDup (map (fun x => png_path outdir (key x)) l).
Proof.
  induction l as [|x l IH]; simpl; intros H; [constructor|].
  apply List.NoDup_cons_iff in H as [Hx H]. apply List.NoDup_cons_iff. split; [|now apply IH].
  intros (y & Ey & Hy)%in_map_iff. apply png_path_inj in Ey.
  apply Hx. rewrite <- Ey. now apply in_map.
Qed.

Lemma NoDup_filter_keys (histograms : list (string * Item)) (f : string * Item -> bool) :
  List.NoDup (map fst histograms) -> List.NoDup (map fst (List.filter f histograms)).
Proof.
  induction histograms as [|x l IH]; simpl; intros H; [constructor|].
  apply List.NoDup_cons_iff in H as [Hx H]. destruct (f x); simpl; [|now apply IH].
  apply List.NoDup_cons_iff. split; [|now apply IH].
  intros (y & Ey & Hy)%in_map_iff. apply filter_In in Hy as [Hy _].
  apply Hx. rewrite <- Ey. now apply in_map.
Qed.

(** the paths written by a run of [plot] that draws [drawn] *)
Lemma NoDup_plot_writes outdir (drawn : list (string * Item))
    (draw : string * Item -> File Image Blob) (last : list (string * File Image Blob)) :
  List.NoDup (map fst drawn) ->
  last = [] \/ (exists c, last = [(pkl_path outdir, c)]) ->
  List.NoDup (map fst (map (fun oh => (png_path outdir (fst oh), draw oh)) drawn ++ last)).
Proof.
  intros Hnd Hlast. rewrite map_app, map_map. cbn [fst].
  destruct Hlast as [->|[c ->]].
  - rewrite app_nil_r. now apply NoDup_map_png.
  - apply List.NoDup_app.
    + now apply NoDup_map_png.
    + repeat constructor. intros [].
    + intros p (oh & <- & _)%in_map_iff [E|[]]. cbn in E.
      symmetry in E. exact (png_path_not_pkl_path _ _ _ E).
Qed.

(** *** lhePlot.py *)

(** X20.  With distinct observables, after [plot] the image file of each
    observable holds the drawing of its own histogram; the output directory
    exists, and no file other than these images and the pickle of
    [outdir] is touched. *)
Theorem lhe_plot_files outdir histograms fromPickles (fs : FS Image Blob) :
  List.NoDup (map fst histograms) ->
  let fs' := fst (LhePlotting.plot render dumps outdir histograms fromPickles fs) in
  (forall observable histogram,
     In (observable, histogram) histograms ->
     files fs' !! png_path outdir observable = Some (Png (render histogram)))
  /\ (outdir ∈ dirs fs' /\ dirs fs ⊆ dirs fs')
  /\ (forall path,
        path <> pkl_path outdir ->
        (forall observable, In observable (map fst histograms) ->
                            path <> png_path outdir observable) ->
        files fs' !! path = files fs !! path).
Proof.
  intros Hnd fs'. unfold fs'. rewrite lhe_plot_run. cbn [fst].
  split; [|split].
  - intros k h Hin. apply files_apply_writes_in.
    + apply NoDup_plot_writes; [exact Hnd|].
      destruct fromPickles; simpl; eauto.
    + apply in_app_iff. left.
      apply (in_map (fun oh => (png_path outdir (fst oh), Png (render (snd oh))))
                    _ _ Hin).
  - rewrite dirs_apply_writes, dirs_with_dir. split.
    + apply elem_of_union_l, elem_of_singleton. reflexivity.
    + apply union_subseteq_r.
  - intros path Hpkl Hpng.
    rewrite files_unwritten, files_with_dir; [reflexivity|].
    rewrite map_app. intros [Hin|Hin]%in_app_iff.
    + unfold LhePlotting.images in Hin. rewrite map_map in Hin.
      apply in_map_iff in Hin as (oh & <- & Hoh). cbn [fst] in Hpng.
      apply (Hpng (fst oh)); [now apply in_map | reflexivity].
    + destruct fromPickles; simpl in Hin; [destruct Hin|].
      destruct Hin as [<-|[]]. now apply Hpkl.
Qed.

(** *** vplusjetPDFsyst.py *)

(** X21.  With distinct keys, an item of the collection that is a histogram gets
    its image file, drawn as a grid for 'dilep_pt' and as a 1d overlay
    otherwise; an item that is not a histogram (the counters) gets none and
    the file of that name is left as it was; the pickle, when written, holds
    the whole collection, counters included. *)
Theorem vpj_plot_files outdir histograms fromPickles (fs : FS Image Blob) :
  List.NoDup (map fst histograms) ->
  let fs' := fst (VPlusJetPlotting.plot plotgrid plot1d is_Hist dumps
                    histograms outdir fromPickles fs) in
  (forall observable item,
     In (observable, item) histograms ->
     files fs' !! png_path outdir observable
     = if is_Hist item
       then Some (Png (if String.eqb observable "dilep_pt"
                       then plotgrid item else plot1d item))
       else files fs !! png_path outdir observable)
  /\ (fromPickles = false ->
      files fs' !! pkl_path outdir = Some (Pkl (dumps histograms))).
Proof.
  intros Hnd fs'. unfold fs'. rewrite vpj_plot_run. cbn [fst].
  split.
  - intros k item Hin. destruct (is_Hist item) eqn:EH.
    + apply files_apply_writes_in.
      * unfold VPlusJetPlotting.images.
        apply (NoDup_plot_writes outdir
                 (List.filter (fun oh => is_Hist (snd oh)) histograms)
                 (fun oh => Png (if String.eqb (fst oh) "dilep_pt"
                                 then plotgrid (snd oh) else plot1d (snd oh)))).
        -- now apply NoDup_filter_keys.
        -- destruct fromPickles; simpl; eauto.
      * apply in_app_iff. left. unfold VPlusJetPlotting.images.
        apply (in_map (fun oh => (png_path outdir (fst oh),
                                  Png (if String.eqb (fst oh) "dilep_pt"
                                       then plotgrid (snd oh)
                                       else plot1d (snd oh))))
                      _ (k, item)).
        apply filter_In. split; [exact Hin | exact EH].
    + rewrite files_unwritten, files_with_dir; [reflexivity|].
      rewrite map_app. intros [Hw|Hw]%in_app_iff.
      * unfold VPlusJetPlotting.images in Hw. rewrite map_map in Hw.
        apply in_map_iff in Hw as ([k' item'] & Ek & Hoh). cbn [fst] in Ek.
        apply png_path_inj in Ek. subst k'.
        apply filter_In in Hoh as [Hin' EH']. cbn [snd] in EH'.
        assert (item' = item); [|congruence].
        clear - Hnd Hin Hin'. induction histograms as [|[k0 i0] l IH];
          [destruct Hin|]. simpl in Hnd. apply List.NoDup_cons_iff in Hnd as [Hk0 Hnd].
        destruct Hin as [E|Hin]; destruct Hin' as [E'|Hin'].
        -- congruence.
        -- exfalso. injection E as -> ->. apply Hk0, (in_map fst _ _ Hin').
        -- exfalso. injection E' as -> ->. apply Hk0, (in_map fst _ _ Hin).
        -- now apply IH.
      * destruct fromPickles; simpl in Hw; [destruct Hw|].
        destruct Hw as [E|[]]. exact (png_path_not_pkl_path _ _ _ (eq_sym E)).
  - intros ->. cbn [negb]. apply files_apply_writes_last.
Qed.

(** *** Both scripts *)


End PlotFilesFacts.
End PlotFilesFacts.

(** *** The listing and the plot files at concrete inputs *)

Module FilesExamples.
Import Cli IoExamples Plotting.
Local Open Scope list_scope.

Lemma host_plain : ~ In "/"%char (list_ascii_of_string "xrootd.example.org").
Proof. cbn. intuition discriminate. Qed.


Lemma getRootFiles_root_only_witness :
  getRootFiles example_ls example_listdir "/data" None = Ok ["/data/a.root"]
  /\ endswith ".root" "/data/a.root" = true.
Proof.
  assert (E : getRootFiles example_ls example_listdir "/data" None
              = Ok ["/data/a.root"]) by reflexivity.
  split; [exact E|].
  apply (FilesFacts.getRootFiles_root_only example_ls example_listdir
           "/data" None ["/data/a.root"] "/data/a.root" E).
  now left.
Defined.

Lemma getRootFiles_lim_witness :
  contains "xrootd" "/data" = false
  /\ getRootFiles example_ls example_listdir "/data" (Some 1%nat)
     = getRootFiles example_ls
         (fun d' => rbind (example_listdir d')
                      (fun names => Ok (firstn 1 names)))
         "/data" None.
Proof.
  split; [reflexivity|].
  apply (proj1 (FilesFacts.getRootFiles_lim example_ls example_listdir
                  "/data" 1)).
  reflexivity.
Defined.

Lemma getRootFiles_remote_witness :
  (~ In "/"%char (list_ascii_of_string "xrootd.example.org")
   /\ contains "xrootd" "root://xrootd.example.org//store/user/" = true)
  /\ getRootFiles example_ls example_listdir
       "root://xrootd.example.org//store/user/" None
     = Ok ["root://xrootd.example.org/store/a.root";
           "root://xrootd.example.org/store/b.root"].
Proof.
  assert (Hc : contains "xrootd" "root://xrootd.example.org//store/user/" = true)
    by reflexivity.
  split; [split; [exact host_plain | exact Hc]|].
  etransitivity;
    [ exact (FilesFacts.getRootFiles_remote example_ls example_listdir
               "xrootd.example.org" "/store/user" host_plain Hc)
    | reflexivity ].
Defined.

Lemma collection_keys : List.NoDup (map fst collection).
Proof. repeat constructor; cbn; intuition discriminate. Qed.

Lemma lhe_plot_files_witness :
  List.NoDup (map fst collection)
  /\ files (fst (LhePlotting.plot figure store_dumps "plots" collection false
                   one_image))
       !! png_path "plots" "wei"
     = Some (Png (figure hist_wei)).
Proof.
  split; [exact collection_keys|].
  apply (proj1 (PlotFilesFacts.lhe_plot_files figure store_dumps "plots"
                  collection false one_image collection_keys)).
  right. now left.
Defined.

Lemma vpj_plot_files_witness :
  List.NoDup (map fst collection)
  /\ files (fst (VPlusJetPlotting.plot figure figure not_counters store_dumps
                   collection "plots" false one_image))
       !! png_path "plots" "cutflow"
     = None.
Proof.
  split; [exact collection_keys|].
  apply (proj1 (PlotFilesFacts.vpj_plot_files figure figure not_counters
                  store_dumps "plots" collection false one_image
                  collection_keys) "cutflow" counters).
  right. right. now left.
Defined.


End FilesExamples.
